(** * image_converter.py: a batch JPEG/PNG to WebP converter

    A shallow embedding of [src/image_converter.py] (class [ImageConverter]
    and [main]) and the properties its specification states about it.

    The program is a thin layer over three collaborators: [pathlib] for path
    arithmetic, the operating system for the directory tree and the output
    stream, and Pillow for decoding, mode conversion and WebP encoding.
    Paths and the directory tree are modelled concretely; Pillow is an
    interface ([Codec]) whose operations may fail; and every call into the
    operating system may fail for a reason the tree does not show, as the
    environment ([Env]) decides. *)

From Stdlib Require Import ZArith Ascii String List Sorted Permutation.
From Stdlib.Strings Require Import Byte.
From stdpp Require Import base tactics option list sorting gmap strings pretty.

Local Open Scope string_scope.
Local Open Scope Z_scope.
Local Open Scope list_scope.

(** ** Paths ([pathlib.PurePosixPath]) *)

Module Pathlib.

(** A path is the list of its components, as [pathlib] keeps it
    ([PurePath._parts]); an absolute path has its root as first component:
    ["/"], or ["//"] for a path written with exactly two leading separators,
    which POSIX leaves to the implementation and [pathlib] keeps apart.
    Components [".."] and symbolic links are not resolved, and the two roots
    name two trees. *)
Abbreviation Path := (list string).

Definition sep : ascii := "/"%char.
Definition dot : ascii := "."%char.

(** [split_sep acc s]: the components of [s] between separators; [acc] holds
    the current component reversed. *)
Fixpoint split_sep (acc : string) (s : string) : list string :=
  match s with
  | EmptyString => [acc]
  | String c s' =>
      if Ascii.eqb c sep then acc :: split_sep EmptyString s'
      else split_sep (acc +:+ String c EmptyString) s'
  end.

Definition keep_part (part : string) : bool :=
  negb (String.eqb part "") && negb (String.eqb part ".").

(** The root a path string starts with ([splitroot]): two leading
    separators, no more, give ["//"]; one, or three and more, give ["/"]. *)
Definition root_of (s : string) : option string :=
  match s with
  | String a rest =>
      if Ascii.eqb a sep then
        match rest with
        | String b rest' =>
            if Ascii.eqb b sep then
              match rest' with
              | String c _ => if Ascii.eqb c sep then Some "/" else Some "//"
              | EmptyString => Some "//"
              end
            else Some "/"
        | EmptyString => Some "/"
        end
      else None
  | EmptyString => None
  end.

(** [Path(s)]: empty and ["."] components are dropped, leading separators
    give the root component. *)
Definition Path_of_string (s : string) : Path :=
  let parts := List.filter keep_part (split_sep EmptyString s) in
  match root_of s with
  | Some root => root :: parts
  | None => parts
  end.

(** A root directory. *)
Definition is_root (p : Path) : bool :=
  bool_decide (p = ["/"]) || bool_decide (p = ["//"]).

(** [p / name] *)
Definition joinpath (p : Path) (child : string) : Path := p ++ [child].

(** [p.name]: the last component, [""] for the root and for the empty path. *)
Definition name (p : Path) : string :=
  if is_root p then "" else List.last p "".

(** [p.parent]: the root and the empty path are their own parent. *)
Definition parent (p : Path) : Path :=
  if is_root p then p else List.removelast p.

(** [str(p)] *)
Fixpoint join_parts (parts : list string) : string :=
  match parts with
  | [] => ""
  | [x] => x
  | x :: rest => x +:+ "/" +:+ join_parts rest
  end.

Definition str (p : Path) : string :=
  match p with
  | [] => "."
  | x :: rest =>
      if (String.eqb x "/" || String.eqb x "//")%bool then x +:+ join_parts rest
      else join_parts p
  end.

(** [s.rfind(c)]: the last index of [c] in [s], if any. *)
Fixpoint rfind (c : ascii) (s : string) : option nat :=
  match s with
  | EmptyString => None
  | String a s' =>
      match rfind c s' with
      | Some i => Some (S i)
      | None => if Ascii.eqb a c then Some 0%nat else None
      end
  end.

(** The index at which [PurePath.suffix] and [PurePath.stem] cut a name:
    [i = name.rfind('.')] when [0 < i < len(name) - 1]. *)
Definition suffix_index (nm : string) : option nat :=
  match rfind dot nm with
  | Some i =>
      if ((0 <? i)%nat && (i <? String.length nm - 1)%nat)%bool
      then Some i else None
  | None => None
  end.

(** [p.suffix] *)
Definition suffix (p : Path) : string :=
  let nm := name p in
  match suffix_index nm with
  | Some i => String.substring i (String.length nm - i) nm
  | None => ""
  end.

(** [p.stem] *)
Definition stem (p : Path) : string :=
  let nm := name p in
  match suffix_index nm with
  | Some i => String.substring 0 i nm
  | None => nm
  end.

(** [s.lower()], on the letters A to Z.  The other characters whose lower
    case differs play no part below: none of them lowers to a letter of
    [".jpg"], [".jpeg"] or [".png"]. *)
Definition lower_ascii (c : ascii) : ascii :=
  let n := nat_of_ascii c in
  if ((65 <=? n)%nat && (n <=? 90)%nat)%bool then ascii_of_nat (n + 32) else c.

Fixpoint lower (s : string) : string :=
  match s with
  | EmptyString => EmptyString
  | String c s' => String (lower_ascii c) (lower s')
  end.

(** The order of paths ([PurePath.__lt__] and friends): the component lists
    are compared lexicographically, components as strings. *)
Fixpoint compare_parts (p q : list string) : comparison :=
  match p, q with
  | [], [] => Eq
  | [], _ :: _ => Lt
  | _ :: _, [] => Gt
  | x :: p', y :: q' =>
      match String.compare x y with
      | Eq => compare_parts p' q'
      | c => c
      end
  end.

Definition path_leb (p q : Path) : bool :=
  match compare_parts p q with Gt => false | _ => true end.

Definition path_le (p q : Path) : Prop := Is_true (path_leb p q).

#[global] Instance path_le_dec (p q : Path) : Decision (path_le p q) :=
  Is_true_dec _.

(** [sorted(paths)] *)
Definition sorted (l : list Path) : list Path := merge_sort path_le l.

End Pathlib.

Import Pathlib.

(** ** Exceptions and the effect monad *)

(** The exceptions the program meets.  The subclasses of [OSError] that the
    program or its libraries tell apart, [OSError] itself for every other
    error of the operating system, [UnicodeEncodeError] from [print],
    [PillowError] for whatever Pillow raises (all of it derives from
    [Exception]), and the two [BaseException]s that an [except Exception]
    clause lets through. *)
Inductive exn : Type :=
  | FileNotFoundError (msg : string)
  | NotADirectoryError (msg : string)
  | FileExistsError (msg : string)
  | IsADirectoryError (msg : string)
  | PermissionError (msg : string)
  | OSError (msg : string)
  | UnicodeEncodeError (msg : string)
  | PillowError (msg : string)
  | KeyboardInterrupt
  | SystemExit (code : Z).

(** [isinstance(e, Exception)] *)
Definition is_Exception (e : exn) : bool :=
  match e with
  | KeyboardInterrupt | SystemExit _ => false
  | _ => true
  end.

(** [isinstance(e, OSError)] *)
Definition is_OSError (e : exn) : bool :=
  match e with
  | FileNotFoundError _ | NotADirectoryError _
  | FileExistsError _ | IsADirectoryError _
  | PermissionError _ | OSError _ => true
  | _ => false
  end.

(** [str(e)] *)
Definition exn_str (e : exn) : string :=
  match e with
  | FileNotFoundError m | NotADirectoryError m | FileExistsError m
  | IsADirectoryError m | PermissionError m | OSError m
  | UnicodeEncodeError m | PillowError m => m
  | KeyboardInterrupt => ""
  | SystemExit c => pretty c
  end.

Inductive result (A : Type) : Type :=
  | Ret (a : A)
  | Raise (e : exn).
Arguments Ret {A} a.
Arguments Raise {A} e.

(** A node of the directory tree. *)
Inductive node : Type :=
  | Dir
  | File (data : list byte).

(** The state the program runs in: the directory tree, keyed by path; the
    lines printed so far; and the user's interrupt, if one is coming:
    [sigint = Some n] means Ctrl-C arrives after [n] more calls into the
    operating system or Pillow have completed. *)
Record World : Type := mkWorld {
  fs : gmap Path node;
  stdout : list string;
  sigint : option nat
}.

Definition set_fs (f : gmap Path node → gmap Path node) (w : World) : World :=
  mkWorld (f (fs w)) (stdout w) (sigint w).

(** Computations: the state is threaded through, and survives a raise. *)
Definition M (A : Type) : Type := World → result A * World.

Definition ret {A} (a : A) : M A := fun w => (Ret a, w).
Definition raise {A} (e : exn) : M A := fun w => (Raise e, w).
Definition bind {A B} (m : M A) (k : A → M B) : M B :=
  fun w => match m w with
           | (Ret a, w') => k a w'
           | (Raise e, w') => (Raise e, w')
           end.

Declare Scope m_scope.
Delimit Scope m_scope with M.
Notation "x <- m ;; k" := (bind m (fun x => k))
  (at level 100, m at next level, right associativity) : m_scope.
Notation "m ;; k" := (bind m (fun _ => k))
  (at level 100, right associativity) : m_scope.
Local Open Scope m_scope.

(** [try: body except <clauses>]: [handler e] is the clause that matches
    [e], if one does; otherwise [e] propagates. *)
Definition try_except {A} (body : M A) (handler : exn → option (M A)) : M A :=
  fun w => match body w with
           | (Ret a, w') => (Ret a, w')
           | (Raise e, w') =>
               match handler e with
               | Some k => k w'
               | None => (Raise e, w')
               end
           end.

(** Where the interrupt is delivered: on entry to a call that lists, creates,
    reads, transforms or writes.  A pending interrupt whose count has run out
    raises [KeyboardInterrupt] in place of the call. *)
Definition checkpoint : M unit :=
  fun w => match sigint w with
           | None => (Ret tt, w)
           | Some O => (Raise KeyboardInterrupt, mkWorld (fs w) (stdout w) None)
           | Some (S n) => (Ret tt, mkWorld (fs w) (stdout w) (Some n))
           end.

(** ** The environment *)

(** A call into the operating system can fail for a reason the directory
    tree does not show: the permissions of a file or a folder
    ([PermissionError]), or a device that is full or read-only, a name that is
    too long, a stream that is closed (another [OSError]). *)
Inductive fault : Type :=
  | Denied (msg : string)
  | Failed (msg : string).

Definition fault_exn (f : fault) : exn :=
  match f with
  | Denied msg => PermissionError msg
  | Failed msg => OSError msg
  end.

(** The calls the program and its libraries make. *)
Inductive syscall : Type :=
  | sys_exists (p : Path)            (* [Path.exists] *)
  | sys_is_dir (p : Path)            (* [Path.is_dir] *)
  | sys_is_file (p : Path)           (* [Path.is_file] *)
  | sys_path_exists (p : Path)       (* [os.path.exists] *)
  | sys_listdir (p : Path)           (* [os.listdir] *)
  | sys_mkdir (p : Path)             (* [os.mkdir] *)
  | sys_open_read (p : Path)         (* [open(p, "rb")] and the reads *)
  | sys_open_write (p : Path)        (* [open(p, "w+b")] *)
  | sys_write (p : Path) (data : list byte)   (* [fp.write] *)
  | sys_close (p : Path)             (* [fp.close], which flushes *)
  | sys_remove (p : Path)            (* [os.remove] *)
  | sys_print (line : string).       (* the write of [print] *)

(** The environment the program runs in decides, call by call and from the
    state the call is made in, whether the call meets a fault; how much of a
    write that meets one reaches the file; and which lines the encoding of
    the output stream cannot represent. *)
Class Env : Type := {
  fault_of : syscall → World → option fault;
  written : Path → list byte → World → nat;
  encode_error : string → option string
}.

(** The environment in which no call meets a fault and every line can be
    printed. *)
Definition calm : Env := {|
  fault_of _ _ := None;
  written _ _ _ := 0%nat;
  encode_error _ := None
|}.

(** ** The operating system *)

Section OS.

Context `{env : Env}.

(** The fault a call meets, raised. *)
Definition attempt (c : syscall) : M unit :=
  fun w => match fault_of c w with
           | Some f => (Raise (fault_exn f), w)
           | None => (Ret tt, w)
           end.

(** [print(line)]: the line is encoded, then written to the stream. *)
Definition print (line : string) : M unit :=
  fun w => match encode_error line with
           | Some msg => (Raise (UnicodeEncodeError msg), w)
           | None =>
               match fault_of (sys_print line) w with
               | Some f => (Raise (fault_exn f), w)
               | None => (Ret tt, mkWorld (fs w) (stdout w ++ [line]) (sigint w))
               end
           end.

(** What is at a path.  The working directory (the empty path) and the roots
    always exist. *)
Definition stat (p : Path) (w : World) : option node :=
  if (bool_decide (p = []) || is_root p)%bool then Some Dir else fs w !! p.

(** [Path.exists], [Path.is_dir], [Path.is_file]: a path that is not there
    answers false; any other failure of the probe is raised. *)
Definition Path_exists (p : Path) : M bool :=
  attempt (sys_exists p) ;;
  fun w => (Ret (bool_decide (is_Some (stat p w))), w).

Definition is_dir (p : Path) : M bool :=
  attempt (sys_is_dir p) ;;
  fun w => (Ret (match stat p w with Some Dir => true | _ => false end), w).

Definition is_file (p : Path) : M bool :=
  attempt (sys_is_file p) ;;
  fun w => (Ret (match stat p w with Some (File _) => true | _ => false end), w).

(** [os.path.exists(p)]: every failure of the probe answers false. *)
Definition os_path_exists (p : Path) : M bool :=
  fun w => (Ret (match fault_of (sys_path_exists p) w with
                 | Some _ => false
                 | None => bool_decide (is_Some (stat p w))
                 end), w).

(** [q] is an entry of directory [p]. *)
Definition is_child (p q : Path) : bool :=
  negb (bool_decide (q = [])) && negb (is_root q)
  && bool_decide (removelast q = p).

(** [os.listdir(p)]: the entry names, in the order the tree enumerates
    them, which like the operating system's is unspecified. *)
Definition listdir (p : Path) (w : World) : list string :=
  List.map name (List.filter (is_child p) (List.map fst (map_to_list (fs w)))).

(** [p.iterdir()] *)
Definition iterdir (p : Path) : M (list Path) :=
  checkpoint ;;
  attempt (sys_listdir p) ;;
  fun w => match stat p w with
           | Some Dir => (Ret (List.map (joinpath p) (listdir p w)), w)
           | Some (File _) => (Raise (NotADirectoryError (str p)), w)
           | None => (Raise (FileNotFoundError (str p)), w)
           end.

(** [os.mkdir(p)] *)
Definition os_mkdir (p : Path) : M unit :=
  checkpoint ;;
  attempt (sys_mkdir p) ;;
  fun w => match stat p w with
           | Some _ => (Raise (FileExistsError (str p)), w)
           | None =>
               match stat (parent p) w with
               | None => (Raise (FileNotFoundError (str p)), w)
               | Some (File _) => (Raise (NotADirectoryError (str p)), w)
               | Some Dir => (Ret tt, set_fs (insert p Dir) w)
               end
           end.

(** [Path.mkdir(parents, exist_ok)], as [pathlib] writes it: try
    [os.mkdir]; on [FileNotFoundError] make the parent and try again without
    [parents]; on another [OSError] give way when the directory is there and
    [exist_ok] is set.  The recursion climbs the path, so [fuel] above the
    number of components is enough. *)
Fixpoint Path_mkdir_rec (fuel : nat) (p : Path) (parents exist_ok : bool) : M unit :=
  try_except (os_mkdir p) (fun e =>
    match e with
    | FileNotFoundError _ =>
        Some (if (negb parents || bool_decide (parent p = p))%bool then raise e
              else match fuel with
                   | O => raise e
                   | S fuel' =>
                       Path_mkdir_rec fuel' (parent p) true true ;;
                       Path_mkdir_rec fuel' p false exist_ok
                   end)
    | _ =>
        if is_OSError e
        then Some (d <- is_dir p ;;
                   if (negb exist_ok || negb d)%bool then raise e else ret tt)
        else None
    end).

Definition Path_mkdir (p : Path) (parents exist_ok : bool) : M unit :=
  Path_mkdir_rec (S (length p)) p parents exist_ok.

(** [open(p, "w+b")]: creates the file, or empties the one that is there. *)
Definition open_wb (p : Path) : M unit :=
  attempt (sys_open_write p) ;;
  fun w => match stat p w with
           | Some Dir => (Raise (IsADirectoryError (str p)), w)
           | _ =>
               match stat (parent p) w with
               | None => (Raise (FileNotFoundError (str p)), w)
               | Some (File _) => (Raise (NotADirectoryError (str p)), w)
               | Some Dir => (Ret tt, set_fs (insert p (File [])) w)
               end
           end.

(** [fp.write(data)] on the file just opened: a write that meets a fault
    leaves the bytes that got through. *)
Definition write_file (p : Path) (data : list byte) : M unit :=
  fun w => match fault_of (sys_write p data) w with
           | Some f =>
               (Raise (fault_exn f),
                set_fs (insert p (File (take (written p data w) data))) w)
           | None => (Ret tt, set_fs (insert p (File data)) w)
           end.

(** [fp.close()]: the bytes still buffered are flushed; a flush that meets a
    fault leaves the bytes that got through. *)
Definition fp_close (p : Path) : M unit :=
  fun w => match fault_of (sys_close p) w with
           | Some f =>
               (Raise (fault_exn f),
                match fs w !! p with
                | Some (File data) =>
                    set_fs (insert p (File (take (written p data w) data))) w
                | _ => w
                end)
           | None => (Ret tt, w)
           end.

(** [os.remove(p)] *)
Definition os_remove (p : Path) : M unit :=
  attempt (sys_remove p) ;;
  fun w => (Ret tt, set_fs (delete p) w).

End OS.

(** ** Pillow *)

(** The codec the program calls through Pillow.  Each operation either
    yields its result or fails with a message; [pixbuf] is the decoded pixel
    data, opaque to the program. *)
Class Codec : Type := {
  pixbuf : Type;
  (** the pixel mode and the pixels of an image file's bytes *)
  decode : list byte → string + (string * pixbuf);
  (** pixels of mode [src] converted to mode [dst] *)
  convertMode : string → pixbuf → string → string + pixbuf;
  (** the WebP bytes of pixels of the given mode, at a quality and method *)
  encodeWebP : string → pixbuf → Z → Z → string + list byte
}.

Section Converter.

Context `{env : Env} `{codec : Codec}.

(** A [PIL.Image.Image]: its [mode] and its pixels. *)
Record Image : Type := mkImage {
  mode : string;
  pixels : pixbuf
}.

(** [Image.open(p)] and the loading of the pixels. *)
Definition Image_open (p : Path) : M Image :=
  checkpoint ;;
  attempt (sys_open_read p) ;;
  fun w => match stat p w with
           | Some (File data) =>
               match decode data with
               | inr (m, px) => (Ret (mkImage m px), w)
               | inl msg => (Raise (PillowError msg), w)
               end
           | Some Dir => (Raise (IsADirectoryError (str p)), w)
           | None => (Raise (FileNotFoundError (str p)), w)
           end.

(** [img.convert(target)] *)
Definition Image_convert (img : Image) (target : string) : M Image :=
  checkpoint ;;
  match convertMode (mode img) (pixels img) target with
  | inr px => ret (mkImage target px)
  | inl msg => raise (PillowError msg)
  end.

(** The WebP save handler: encode, then write the bytes to the open file. *)
Definition webp_save_handler (img : Image) (p : Path) (quality method : Z) : M unit :=
  match encodeWebP (mode img) (pixels img) quality method with
  | inr data => write_file p data
  | inl msg => raise (PillowError msg)
  end.

(** [img.save(p, 'WEBP', quality=, method=)], as [Image.save] does it: note
    whether the file is new, open it for writing in place, run the handler
    and close the file; when the handler raises, close the file, remove it
    if this call created it (a removal that is not permitted is let pass),
    and raise again. *)
Definition Image_save (img : Image) (p : Path) (quality method : Z) : M unit :=
  checkpoint ;;
  present <- os_path_exists p ;;
  let created := negb present in
  open_wb p ;;
  try_except (webp_save_handler img p quality method) (fun e =>
    if is_Exception e
    then Some (fp_close p ;;
               (if created
                then try_except (os_remove p) (fun e' =>
                       match e' with
                       | PermissionError _ => Some (ret tt)
                       | _ => None
                       end)
                else ret tt) ;;
               raise e)
    else None) ;;
  fp_close p.

(** ** class ImageConverter *)

Definition SUPPORTED_FORMATS : gset string := {[ ".jpg"; ".jpeg"; ".png" ]}.

Record ImageConverter : Type := mkImageConverter {
  input_folder : Path;
  output_folder : Path;
  quality : Z
}.

(** [ImageConverter.__init__].  An absent and an empty [output_folder] both
    select the sibling folder ["webp"]. *)
Definition ImageConverter_init (input_folder : string)
    (output_folder : option string) (quality : Z) : M ImageConverter :=
  let inp := Path_of_string input_folder in
  let out :=
    match output_folder with
    | Some o => if String.eqb o "" then joinpath (parent inp) "webp"
                else Path_of_string o
    | None => joinpath (parent inp) "webp"
    end in
  ex <- Path_exists inp ;;
  if negb ex
  then raise (FileNotFoundError ("Input folder does not exist: " +:+ str inp))
  else
    d <- is_dir inp ;;
    if negb d
    then raise (NotADirectoryError ("Input path is not a directory: " +:+ str inp))
    else ret (mkImageConverter inp out quality).

(** The test of [find_images]' loop body. *)
Definition is_image (file_path : Path) : M bool :=
  f <- is_file file_path ;;
  ret (f && bool_decide (lower (suffix file_path) ∈ SUPPORTED_FORMATS)).

(** The loop of [find_images]: the entries that pass the test, in order. *)
Fixpoint collect_images (entries : list Path) : M (list Path) :=
  match entries with
  | [] => ret []
  | file_path :: rest =>
      keep <- is_image file_path ;;
      images <- collect_images rest ;;
      ret (if keep then file_path :: images else images)
  end.

(** [ImageConverter.find_images] *)
Definition find_images (self : ImageConverter) : M (list Path) :=
  entries <- iterdir (input_folder self) ;;
  images <- collect_images entries ;;
  ret (sorted images).

(** Lines 73 to 87 of [convert_image]: the handling of the image mode. *)
Definition handle_mode (img : Image) : M Image :=
  if String.eqb (mode img) "P" then Image_convert img "RGBA"
  else if String.eqb (mode img) "LA" then Image_convert img "RGBA"
  else if String.eqb (mode img) "RGB" then ret img
  else if String.eqb (mode img) "RGBA" then ret img
  else Image_convert img "RGB".

Definition output_filename (image_path : Path) : string :=
  stem image_path +:+ ".webp".

Definition output_path (self : ImageConverter) (image_path : Path) : Path :=
  joinpath (output_folder self) (output_filename image_path).

(** The [try] block of [convert_image]. *)
Definition convert_image_body (self : ImageConverter) (image_path : Path) : M bool :=
  Path_mkdir (output_folder self) true true ;;
  img <- Image_open image_path ;;
  img <- handle_mode img ;;
  Image_save img (output_path self image_path) (quality self) 6 ;;
  print ("✓ Converted: " +:+ name image_path +:+ " -> " +:+ output_filename image_path) ;;
  ret true.

(** [ImageConverter.convert_image]: [except Exception] around the block. *)
Definition convert_image (self : ImageConverter) (image_path : Path) : M bool :=
  try_except (convert_image_body self image_path) (fun e =>
    if is_Exception e
    then Some (print ("✗ Failed to convert " +:+ name image_path +:+ ": " +:+ exn_str e) ;;
               ret false)
    else None).

(** The dictionary [convert_all] returns; its three keys are fixed. *)
Record ConversionStats : Type := mkStats {
  total : Z;
  converted : Z;
  failed : Z
}.

(** The [for] loop of [convert_all], from the counters so far. *)
Fixpoint convert_loop (self : ImageConverter) (images : list Path)
    (converted failed : Z) : M (Z * Z) :=
  match images with
  | [] => ret (converted, failed)
  | image_path :: rest =>
      ok <- convert_image self image_path ;;
      if ok then convert_loop self rest (converted + 1) failed
      else convert_loop self rest converted (failed + 1)
  end.

(** ["-" * n] *)
Definition dashes (n : nat) : string := String.concat "" (repeat "-" n).

(** [ImageConverter.convert_all] *)
Definition convert_all (self : ImageConverter) : M ConversionStats :=
  images <- find_images self ;;
  match images with
  | [] =>
      print ("No supported image files found in: " +:+ str (input_folder self)) ;;
      ret (mkStats 0 0 0)
  | _ =>
      print ("Found " +:+ pretty (length images) +:+ " image(s) to convert...") ;;
      print ("Input folder: " +:+ str (input_folder self)) ;;
      print ("Output folder: " +:+ str (output_folder self)) ;;
      print ("Quality: " +:+ pretty (quality self) +:+ "%") ;;
      print (dashes 50) ;;
      counts <- convert_loop self images 0 0 ;;
      ret (mkStats (Z.of_nat (length images)) (fst counts) (snd counts))
  end.

(** ** main *)

(** The parsed command line. *)
Record Args : Type := mkArgs {
  arg_input_folder : string;
  arg_output : option string;
  arg_quality : Z
}.

(** [sys.exit(code)] *)
Definition sys_exit {A} (code : Z) : M A := raise (SystemExit code).

(** The [try] block of [main]. *)
Definition main_body (args : Args) : M unit :=
  converter <- ImageConverter_init (arg_input_folder args) (arg_output args)
                                   (arg_quality args) ;;
  stats <- convert_all converter ;;
  print (dashes 50) ;;
  print "Conversion complete!" ;;
  print ("Total files: " +:+ pretty (total stats)) ;;
  print ("Successfully converted: " +:+ pretty (converted stats)) ;;
  print ("Failed: " +:+ pretty (failed stats)) ;;
  if 0 <? failed stats then sys_exit 1 else ret tt.

(** [main], from the parsed arguments on. *)
Definition main (args : Args) : M unit :=
  if negb ((0 <=? arg_quality args) && (arg_quality args <=? 100))
  then print "Error: Quality must be between 0 and 100" ;; sys_exit 1
  else
    try_except (main_body args) (fun e =>
      match e with
      | FileNotFoundError _ | NotADirectoryError _ =>
          Some (print ("Error: " +:+ exn_str e) ;; sys_exit 1)
      | KeyboardInterrupt =>
          Some (print "
Conversion cancelled by user." ;; sys_exit 1)
      | _ =>
          if is_Exception e
          then Some (print ("Unexpected error: " +:+ exn_str e) ;; sys_exit 1)
          else None
      end).

(** The status the process ends with: 0 when [main] returns, the code of
    [sys.exit], and what the interpreter gives an exception nobody caught. *)
Definition exit_code (r : result unit) : Z :=
  match r with
  | Ret _ => 0
  | Raise (SystemExit code) => code
  | Raise KeyboardInterrupt => 130
  | Raise _ => 1
  end.

Definition run_main (args : Args) (w : World) : Z * World :=
  let (r, w') := main args w in (exit_code r, w').

(** ** Vocabulary of the specification *)

(** The outcomes of [convert_image] on each image in turn: what the loop of
    [convert_all] sees, file by file. *)
Fixpoint convert_each (self : ImageConverter) (images : list Path) : M (list bool) :=
  match images with
  | [] => ret []
  | image_path :: rest =>
      ok <- convert_image self image_path ;;
      oks <- convert_each self rest ;;
      ret (ok :: oks)
  end.

(** How many of the outcomes are [b]. *)
Definition count (b : bool) (outcomes : list bool) : Z :=
  Z.of_nat (length (List.filter (Bool.eqb b) outcomes)).

(** The specification's table of colour modes: the mode an image of decoded
    mode [m] is converted to before encoding, [None] when it passes through
    unchanged. *)
Definition spec_target_mode (m : string) : option string :=
  if String.eqb m "P" then Some "RGBA"          (* palette-indexed *)
  else if String.eqb m "LA" then Some "RGBA"    (* grayscale + alpha *)
  else if String.eqb m "RGB" then None
  else if String.eqb m "RGBA" then None
  else Some "RGB".                               (* anything else *)

(** The image the table sends a decoded image to. *)
Definition spec_normalize (img : Image) : string + Image :=
  match spec_target_mode (mode img) with
  | None => inr img
  | Some target =>
      match convertMode (mode img) (pixels img) target with
      | inr px => inr (mkImage target px)
      | inl msg => inl msg
      end
  end.

(** The WebP bytes the specification expects for an input file's bytes:
    decode, normalise by the table, encode at the job's quality with the
    highest-effort method. *)
Definition spec_webp (quality : Z) (data : list byte) : string + list byte :=
  match decode data with
  | inl msg => inl msg
  | inr (m, px) =>
      match spec_normalize (mkImage m px) with
      | inl msg => inl msg
      | inr img => encodeWebP (mode img) (pixels img) quality 6
      end
  end.

(** The order by full path string. *)
Definition str_le (p q : Path) : Prop := String.leb (str p) (str q) = true.

(** The test [find_images] applies to an entry, in a given state. *)
Definition discovered (w : World) (q : Path) : bool :=
  match stat q w with Some (File _) => true | _ => false end
  && bool_decide (lower (suffix q) ∈ SUPPORTED_FORMATS).

(** A directory can be made at [p]: no regular file stands at [p] or above
    it. *)
Definition creatable (p : Path) (w : World) : Prop :=
  ∀ q data, q `prefix_of` p → stat q w ≠ Some (File data).

(** Folder creation at [p] meets no fault, whenever it is tried. *)
Definition unhindered (p : Path) : Prop :=
  ∀ q v, q `prefix_of` p →
    fault_of (sys_mkdir q) v = None ∧ fault_of (sys_is_dir q) v = None.

(** [m] raises nothing but [Exception]s and the user's interrupt, the latter
    only when one is pending; and it delivers no interrupt of its own. *)
Definition tame {A} (m : M A) : Prop :=
  ∀ w r w', m w = (r, w') →
    (sigint w = None → sigint w' = None) ∧
    (∀ e, r = Raise e →
       is_Exception e = true ∨ (e = KeyboardInterrupt ∧ sigint w ≠ None)).

(** What a [save] that failed after opening the file can have left in it:
    nothing, when the encoder failed; the part of the encoded bytes that got
    through, which may be all of them, when it did not. *)
Definition written_part (encoded : string + list byte) (content : list byte) : Prop :=
  match encoded with
  | inl _ => content = []
  | inr data => ∃ n, content = take n data
  end.

(** What a conversion that raised after [save] had opened the output can
    have done to the tree [v] that folder creation left: the input had
    decoded and been normalised; and the output path holds the part of the
    encoded bytes that got through, or was removed, as a file is that [save]
    takes for one it created: one that was not there, or one the probe
    [os.path.exists] failed to see. *)
Definition output_touched (self : ImageConverter) (p : Path) (v v' : World) : Prop :=
  ∃ data m px img,
    stat p v = Some (File data) ∧ decode data = inr (m, px) ∧
    spec_normalize (mkImage m px) = inr img ∧
    stat (output_path self p) v ≠ Some Dir ∧
    ((∃ content,
        written_part (encodeWebP (mode img) (pixels img) (quality self) 6) content ∧
        fs v' = <[output_path self p := File content]> (fs v)) ∨
     (fs v' = delete (output_path self p) (fs v) ∧
      (stat (output_path self p) v = None ∨
       ∃ f u, fault_of (sys_path_exists (output_path self p)) u = Some f))).

(** From [w] to [w'] the tree only gained directories, at [p] or above. *)
Definition new_dirs_only (p : Path) (w w' : World) : Prop :=
  stdout w' = stdout w ∧
  ∀ q, fs w' !! q = fs w !! q ∨
       (fs w !! q = None ∧ fs w' !! q = Some Dir ∧ q `prefix_of` p).

(** The lines [convert_image] prints, and the header of [convert_all]. *)
Definition success_line (image_path : Path) : string :=
  "✓ Converted: " +:+ name image_path +:+ " -> " +:+ output_filename image_path.

Definition failure_line (image_path : Path) (e : exn) : string :=
  "✗ Failed to convert " +:+ name image_path +:+ ": " +:+ exn_str e.

(** Standard output takes [line]: its encoding has every character of it
    and the stream accepts the write. *)
Definition printable (line : string) : Prop :=
  encode_error line = None ∧ ∀ v, fault_of (sys_print line) v = None.

(** The conversion of [p] meets no fault: neither folder creation, nor the
    reading of the input, nor the opening, writing and closing of the output,
    nor the printing of the success line. *)
Definition untroubled (self : ImageConverter) (p : Path) : Prop :=
  unhindered (output_folder self) ∧
  (∀ v, fault_of (sys_open_read p) v = None) ∧
  (∀ v, fault_of (sys_open_write (output_path self p)) v = None) ∧
  (∀ data v, fault_of (sys_write (output_path self p) data) v = None) ∧
  (∀ v, fault_of (sys_close (output_path self p)) v = None) ∧
  printable (success_line p).

Definition header_lines (self : ImageConverter) (images : list Path) : list string :=
  [ "Found " +:+ pretty (length images) +:+ " image(s) to convert...";
    "Input folder: " +:+ str (input_folder self);
    "Output folder: " +:+ str (output_folder self);
    "Quality: " +:+ pretty (quality self) +:+ "%";
    dashes 50 ].

(** What [convert_all] prints before its loop. *)
Definition announcement (self : ImageConverter) (images : list Path) : list string :=
  match images with
  | [] => ["No supported image files found in: " +:+ str (input_folder self)]
  | _ => header_lines self images
  end.

(** The last of the images, in batch order, whose output path is [q]: the
    one whose output a batch of successful conversions leaves at [q]. *)
Fixpoint last_writer (self : ImageConverter) (images : list Path) (q : Path)
    : option Path :=
  match images with
  | [] => None
  | image_path :: rest =>
      match last_writer self rest q with
      | Some later => Some later
      | None =>
          if bool_decide (output_path self image_path = q) then Some image_path
          else None
      end
  end.

(** The output folder [__init__] settles on. *)
Definition chosen_output (inp : Path) (output : option string) : Path :=
  match output with
  | Some o => if String.eqb o "" then joinpath (parent inp) "webp"
              else Path_of_string o
  | None => joinpath (parent inp) "webp"
  end.

(** The line reporting outcome [ok] for an image. *)
Definition reports (image_path : Path) (ok : bool) (line : string) : Prop :=
  if ok then line = success_line image_path
  else ∃ e, is_Exception e = true ∧ line = failure_line image_path e.

End Converter.

(** ** A small codec and directory trees to run the program on *)

Module Demo.

Definition bytes_of (s : string) : list byte := String.list_byte_of_string s.

(** The bytes [mode:payload] decode to pixels [payload] of mode [mode];
    bytes without a colon are not an image. *)
Fixpoint split_colon (acc : string) (s : string) : option (string * string) :=
  match s with
  | EmptyString => None
  | String c s' =>
      if Ascii.eqb c ":"%char then Some (acc, s')
      else split_colon (acc +:+ String c EmptyString) s'
  end.

(** Pixels ["noconv"] cannot be converted, and pixels longer than eight
    characters are too large to encode, as an image beyond the WebP size
    limit is. *)
#[global] Instance demo_codec : Codec := {|
  pixbuf := string;
  decode data :=
    match split_colon "" (String.string_of_list_byte data) with
    | Some (m, px) => inr (m, px)
    | None => inl "cannot identify image file"
    end;
  convertMode src px dst :=
    if String.eqb px "noconv" then inl "conversion not supported" else inr px;
  encodeWebP m px q method :=
    if (8 <? String.length px)%nat then inl "encoding error 5"
    else inr (bytes_of ("WEBP " +:+ m +:+ " " +:+ px +:+ " q" +:+ pretty q))
|}.

Definition world_of (files : list (Path * node)) : World :=
  mkWorld (list_to_map files) [] None.

(** A folder with a palette PNG, an RGB JPEG, an upper-case extension, a
    text file, a corrupt JPEG and a subdirectory named like an image. *)
Definition w_mixed : World :=
  world_of [ (["imgs"], Dir);
             (["imgs"; "b.jpg"], File (bytes_of "RGB:bb"));
             (["imgs"; "a.png"], File (bytes_of "P:aa"));
             (["imgs"; "C.JPEG"], File (bytes_of "L:cc"));
             (["imgs"; "notes.txt"], File (bytes_of "hello"));
             (["imgs"; "bad.jpg"], File (bytes_of "garbage"));
             (["imgs"; "dir.png"], Dir);
             (["imgs"; "dir.png"; "deep.png"], File (bytes_of "RGB:dd")) ].

Definition conv_imgs : ImageConverter :=
  mkImageConverter ["imgs"] ["webp"] 80.

Definition a_png : Path := ["imgs"; "a.png"].
Definition a_jpg : Path := ["imgs"; "a.jpg"].
Definition a_webp : Path := ["webp"; "a.webp"].

(** An input folder that is itself named [webp], holding an image and the
    output of an earlier run. *)
Definition w_webp_folder : World :=
  world_of [ (["photos"], Dir);
             (["photos"; "webp"], Dir);
             (["photos"; "webp"; "a.png"], File (bytes_of "RGB:aa"));
             (["photos"; "webp"; "a.webp"], File (bytes_of "WEBP RGB aa q80")) ].

Definition conv_webp : ImageConverter :=
  mkImageConverter ["photos"; "webp"] ["photos"; "webp"] 80.

(** A folder without images, and no output folder yet. *)
Definition w_empty : World :=
  world_of [ (["imgs"], Dir);
             (["imgs"; "notes.txt"], File (bytes_of "hello")) ].

(** The mixed folder, with Ctrl-C arriving at the next call. *)
Definition w_interrupted : World :=
  mkWorld (fs w_mixed) [] (Some 0%nat).

(** An image too large to encode, and an output of an earlier run standing
    at its output path. *)
Definition w_stale : World :=
  world_of [ (["imgs"], Dir);
             (["imgs"; "a.png"], File (bytes_of "RGB:far too large"));
             (["webp"], Dir);
             (["webp"; "a.webp"], File (bytes_of "WEBP RGB old q80")) ].

(** Two images of one stem. *)
Definition w_twins : World :=
  world_of [ (["imgs"], Dir);
             (["imgs"; "a.jpg"], File (bytes_of "RGB:jpeg"));
             (["imgs"; "a.png"], File (bytes_of "LA:png")) ].

(** Nothing but corrupt images. *)
Definition w_corrupt : World :=
  world_of [ (["imgs"], Dir);
             (["imgs"; "bad.jpg"], File (bytes_of "garbage"));
             (["imgs"; "worse.png"], File (bytes_of "")) ].

(** An image, and a regular file standing where the output folder would
    go. *)
Definition w_blocked : World :=
  world_of [ (["imgs"], Dir);
             (["imgs"; "a.png"], File (bytes_of "RGB:aa"));
             (["webp"], File (bytes_of "not a folder")) ].

(** *** Environments with faults *)

(** A standard output of ASCII encoding, as under the C locale: a line with
    any other character is refused. *)
Definition ascii_only (line : string) : bool :=
  forallb (λ c, (Ascii.N_of_ascii c <? 128)%N) (String.list_ascii_of_string line).

Definition ascii_stdout : Env := {|
  fault_of _ _ := None;
  written _ _ _ := 0%nat;
  encode_error line :=
    if ascii_only line then None
    else Some "'ascii' codec can't encode character"
|}.

(** A stream whose write fails on the success line of [a.png] and on nothing
    else. *)
Definition stalled_stdout : Env := {|
  fault_of c _ :=
    match c with
    | sys_print line =>
        if String.eqb line "✓ Converted: a.png -> a.webp"
        then Some (Failed "write could not complete without blocking")
        else None
    | _ => None
    end;
  written _ _ _ := 0%nat;
  encode_error _ := None
|}.

(** A disk that takes four more bytes and no more. *)
Definition disk_full : Env := {|
  fault_of c _ :=
    match c with
    | sys_write _ _ => Some (Failed "No space left on device")
    | _ => None
    end;
  written _ _ _ := 4%nat;
  encode_error _ := None
|}.

(** A folder [vault] that may not be searched: probing anything below it is
    denied. *)
Definition locked_vault : Env := {|
  fault_of c _ :=
    match c with
    | sys_exists ("vault" :: _ :: _) | sys_is_dir ("vault" :: _ :: _) =>
        Some (Denied "Permission denied")
    | _ => None
    end;
  written _ _ _ := 0%nat;
  encode_error _ := None
|}.

End Demo.

Import Demo.

(** * Properties *)

(** ** The order of paths *)

Section PathOrder.

Lemma ascii_compare_refl (a : ascii) : Ascii.compare a a = Eq.
Proof. unfold Ascii.compare. apply N.compare_refl. Qed.

Lemma ascii_compare_lt_trans (a b c : ascii) :
  Ascii.compare a b = Lt → Ascii.compare b c = Lt → Ascii.compare a c = Lt.
Proof.
  unfold Ascii.compare. rewrite !N.compare_lt_iff. apply N.lt_trans.
Qed.

Lemma string_compare_refl (s : string) : String.compare s s = Eq.
Proof.
  induction s as [|a s IH]; simpl; [done|].
  by rewrite ascii_compare_refl.
Qed.


Lemma string_compare_lt_trans (s t u : string) :
  String.compare s t = Lt → String.compare t u = Lt → String.compare s u = Lt.
Proof.
  revert t u. induction s as [|a s IH]; intros [|b t] [|c u]; simpl; try done.
  destruct (Ascii.compare a b) eqn:Hab; try done;
    destruct (Ascii.compare b c) eqn:Hbc; try done; intros Hst Htu.
  - apply Ascii.compare_eq_iff in Hab, Hbc. subst.
    rewrite ascii_compare_refl. eauto.
  - apply Ascii.compare_eq_iff in Hab. subst. by rewrite Hbc.
  - apply Ascii.compare_eq_iff in Hbc. subst. by rewrite Hab.
  - by rewrite (ascii_compare_lt_trans a b c).
Qed.

(** A common prefix does not take part in the comparison of two strings. *)
Lemma string_compare_app (pre s t : string) :
  String.compare (pre +:+ s) (pre +:+ t) = String.compare s t.
Proof.
  induction pre as [|a pre IH]; simpl; [done|].
  by rewrite ascii_compare_refl.
Qed.

Lemma compare_parts_refl (p : Path) : compare_parts p p = Eq.
Proof.
  induction p as [|x p IH]; simpl; [done|].
  by rewrite string_compare_refl.
Qed.

Lemma compare_parts_eq (p q : Path) : compare_parts p q = Eq → p = q.
Proof.
  revert q. induction p as [|x p IH]; intros [|y q]; simpl; try done.
  destruct (String.compare x y) eqn:Hxy; try done.
  apply String.compare_eq_iff in Hxy. intros Hpq. f_equal; auto.
Qed.

Lemma compare_parts_antisym (p q : Path) :
  compare_parts p q = CompOpp (compare_parts q p).
Proof.
  revert q. induction p as [|x p IH]; intros [|y q]; simpl; try done.
  rewrite String.compare_antisym.
  destruct (String.compare y x); simpl; auto.
Qed.

Lemma compare_parts_lt_trans (p q r : Path) :
  compare_parts p q = Lt → compare_parts q r = Lt → compare_parts p r = Lt.
Proof.
  revert q r. induction p as [|x p IH]; intros [|y q] [|z r]; simpl; try done.
  destruct (String.compare x y) eqn:Hxy; try done;
    destruct (String.compare y z) eqn:Hyz; try done; intros Hpq Hqr.
  - apply String.compare_eq_iff in Hxy, Hyz. subst.
    rewrite string_compare_refl. eauto.
  - apply String.compare_eq_iff in Hxy. subst. by rewrite Hyz.
  - apply String.compare_eq_iff in Hyz. subst. by rewrite Hxy.
  - by rewrite (string_compare_lt_trans x y z).
Qed.

(** Under a common parent, paths compare as their last components do. *)
Lemma compare_parts_app (pre : Path) (p q : Path) :
  compare_parts (pre ++ p) (pre ++ q) = compare_parts p q.
Proof.
  induction pre as [|x pre IH]; simpl; [done|].
  by rewrite string_compare_refl.
Qed.

#[global] Instance path_le_trans : Transitive path_le.
Proof.
  intros p q r. unfold path_le, path_leb.
  destruct (compare_parts p q) eqn:Hpq; try done;
    destruct (compare_parts q r) eqn:Hqr; try done; intros _ _.
  - apply compare_parts_eq in Hpq, Hqr. subst. by rewrite compare_parts_refl.
  - apply compare_parts_eq in Hpq. subst. by rewrite Hqr.
  - apply compare_parts_eq in Hqr. subst. by rewrite Hpq.
  - by rewrite (compare_parts_lt_trans p q r).
Qed.

#[global] Instance path_le_total : Total path_le.
Proof.
  intros p q. unfold path_le, path_leb.
  rewrite (compare_parts_antisym q p).
  destruct (compare_parts p q); simpl; auto.
Qed.

#[global] Instance path_le_antisym : AntiSymm (=) path_le.
Proof.
  intros p q. unfold path_le, path_leb.
  rewrite (compare_parts_antisym q p).
  destruct (compare_parts p q) eqn:Hpq; simpl; try done.
  intros _ _. by apply compare_parts_eq.
Qed.

Lemma sorted_StronglySorted (l : list Path) : StronglySorted path_le (sorted l).
Proof. apply StronglySorted_merge_sort; apply _. Qed.

Lemma sorted_Permutation (l : list Path) : sorted l ≡ₚ l.
Proof. apply merge_sort_Permutation. Qed.

(** The sorted list does not depend on the order the entries came in. *)
Lemma sorted_order_irrelevant (l l' : list Path) : l ≡ₚ l' → sorted l = sorted l'.
Proof.
  intros Hl.
  apply (StronglySorted_unique path_le).
  - apply sorted_StronglySorted.
  - apply sorted_StronglySorted.
  - by rewrite !sorted_Permutation.
Qed.

End PathOrder.

(** ** Running computations step by step *)

Section Monad.

Context {A B : Type}.

Lemma bind_inv (m : M A) (k : A → M B) w r w' :
  bind m k w = (r, w') →
  (∃ a w1, m w = (Ret a, w1) ∧ k a w1 = (r, w')) ∨
  (∃ e, m w = (Raise e, w') ∧ r = Raise e).
Proof.
  unfold bind. destruct (m w) as [[a|e] w1]; intros H.
  - left. eauto.
  - right. inversion H; subst. eauto.
Qed.

Lemma bind_ret_run (m : M A) (k : A → M B) w a w1 :
  m w = (Ret a, w1) → bind m k w = k a w1.
Proof. unfold bind. by intros ->. Qed.

Lemma bind_raise_run (m : M A) (k : A → M B) w e w1 :
  m w = (Raise e, w1) → bind m k w = (Raise e, w1).
Proof. unfold bind. by intros ->. Qed.

Lemma try_except_inv (body : M A) (handler : exn → option (M A)) w r w' :
  try_except body handler w = (r, w') →
  (∃ a, body w = (Ret a, w') ∧ r = Ret a) ∨
  (∃ e w1 k, body w = (Raise e, w1) ∧ handler e = Some k ∧ k w1 = (r, w')) ∨
  (∃ e, body w = (Raise e, w') ∧ handler e = None ∧ r = Raise e).
Proof.
  unfold try_except. destruct (body w) as [[a|e] w1]; intros H.
  - left. inversion H; subst. eauto.
  - destruct (handler e) as [k|] eqn:Hk.
    + right; left. eauto 10.
    + right; right. inversion H; subst. eauto.
Qed.

(** In the calm environment [print] appends its line. *)
Lemma bind_print (line : string) (k : unit → M B) w :
  bind (print (env := calm) line) k w
  = k tt (mkWorld (fs w) (stdout w ++ [line]) (sigint w)).
Proof. done. Qed.

End Monad.

(** [step_in H] opens the first bind of the run [H]; a [print] it meets in
    the calm environment is run on the spot. *)
Ltac step_in H :=
  match type of H with
  | bind (print _) _ _ = _ =>
      rewrite bind_print in H
  | bind _ _ _ = _ =>
      let a := fresh "a" in let w1 := fresh "w" in let e := fresh "e" in
      let H1 := fresh "Hrun" in
      apply bind_inv in H as [(a & w1 & H1 & H)|(e & H1 & H)]
  | ret _ _ = _ => unfold ret in H; simplify_eq
  | raise _ _ = _ => unfold raise in H; simplify_eq
  end.

(** ** What the operations raise, and what they leave alone *)

Create HintDb effects discriminated.

Section Tame.

Context {A B : Type}.

Lemma tame_ret (a : A) : tame (ret a).
Proof. intros w r w' H. step_in H. split; [done|]. by intros. Qed.

Lemma tame_raise (e : exn) : is_Exception e = true → tame (@raise A e).
Proof.
  intros He w r w' H. step_in H. split; [done|].
  intros e' [= <-]. by left.
Qed.

Lemma tame_bind (m : M A) (k : A → M B) :
  tame m → (∀ a, tame (k a)) → tame (bind m k).
Proof.
  intros Hm Hk w r w' H.
  apply bind_inv in H as [(a & w1 & H1 & H)|(e & H1 & ->)].
  - destruct (Hm _ _ _ H1) as [Hs1 _]. destruct (Hk a _ _ _ H) as [Hs2 Hr2].
    split; [auto|].
    intros e He. destruct (Hr2 e He) as [?|[? Hw1]]; [by left|right].
    split; [done|]. intros Hw. apply Hw1. auto.
  - destruct (Hm _ _ _ H1) as [Hs1 Hr1]. split; [done|].
    intros e' [= <-]. by apply Hr1.
Qed.

Lemma tame_try_except (body : M A) (handler : exn → option (M A)) :
  tame body → (∀ e k, handler e = Some k → tame k) →
  tame (try_except body handler).
Proof.
  intros Hb Hh w r w' H.
  apply try_except_inv in H
    as [(a & H1 & ->)|[(e & w1 & k & H1 & Hk & H)|(e & H1 & Hk & ->)]].
  - destruct (Hb _ _ _ H1) as [Hs _]. split; [done|]. by intros.
  - destruct (Hb _ _ _ H1) as [Hs1 _]. destruct (Hh _ _ Hk _ _ _ H) as [Hs2 Hr2].
    split; [auto|].
    intros e' He'. destruct (Hr2 e' He') as [?|[? Hw1]]; [by left|right].
    split; [done|]. intros Hw. apply Hw1. auto.
  - destruct (Hb _ _ _ H1) as [Hs1 Hr1]. split; [done|].
    intros e' [= <-]. by apply Hr1.
Qed.


Lemma tame_if (b : bool) (m1 m2 : M A) : tame m1 → tame m2 → tame (if b then m1 else m2).
Proof. by destruct b. Qed.

End Tame.

#[global] Hint Resolve tame_ret tame_raise tame_bind tame_try_except tame_if : effects.

Lemma fault_exn_Exception (f : fault) : is_Exception (fault_exn f) = true.
Proof. by destruct f. Qed.

Lemma fault_exn_OSError (f : fault) : is_OSError (fault_exn f) = true.
Proof. by destruct f. Qed.

(** What a call that may meet a fault comes to. *)
Lemma attempt_inv `{env : Env} (c : syscall) w r w' :
  attempt c w = (r, w') →
  w' = w ∧
  ((r = Ret tt ∧ fault_of c w = None) ∨
   (∃ f, r = Raise (fault_exn f) ∧ fault_of c w = Some f)).
Proof.
  unfold attempt. destruct (fault_of c w) as [f|] eqn:Hf; intros [= <- <-];
    (split; [done|]); eauto.
Qed.

(** What [print] comes to: the line is appended, or the stream or its
    encoding refuses it and nothing is printed. *)
Lemma print_inv `{env : Env} (line : string) w r w' :
  print line w = (r, w') →
  (r = Ret tt ∧ w' = mkWorld (fs w) (stdout w ++ [line]) (sigint w)) ∨
  (∃ e, r = Raise e ∧ w' = w ∧ is_Exception e = true).
Proof.
  unfold print. destruct (encode_error line) as [msg|].
  { intros [= <- <-]. right. eauto. }
  destruct (fault_of (sys_print line) w) as [f|]; intros [= <- <-].
  - right. eexists. split; [done|]. split; [done|]. apply fault_exn_Exception.
  - by left.
Qed.

Lemma tame_attempt `{env : Env} c : tame (attempt c).
Proof.
  intros w r w' H. apply attempt_inv in H as (-> & [[-> _]|(f & -> & _)]).
  - split; [done|]. by intros.
  - split; [done|]. intros e [= <-]. left. apply fault_exn_Exception.
Qed.

Lemma tame_print `{env : Env} line : tame (print line).
Proof.
  intros w r w' H. apply print_inv in H as [[-> ->]|(e & -> & -> & He)].
  - split; [done|]. by intros.
  - split; [done|]. intros e' [= <-]. by left.
Qed.

Lemma tame_checkpoint : tame checkpoint.
Proof.
  intros w r w'. unfold checkpoint.
  destruct (sigint w) as [[|n]|] eqn:Hs; intros [= <- <-]; simpl.
  - split; [done|]. intros e [= <-]. right. split; congruence.
  - split; [congruence|]. by intros.
  - split; [done|]. by intros.
Qed.

#[global] Hint Resolve tame_attempt tame_print tame_checkpoint : effects.

(** [printed H] runs a [print] that the run [H], which returns, starts
    with. *)
Ltac printed H :=
  step_in H; [|done];
  match goal with
  | Hp : print _ _ = (Ret _, _) |- _ =>
      apply print_inv in Hp as [[_ ->]|(? & [=] & _)];
      cbn [fs stdout sigint] in *
  end.


(** [tame_steps] walks down binds and conditionals. *)
Ltac tame_steps :=
  repeat first
    [ solve [auto with effects]
    | apply tame_raise; reflexivity
    | apply tame_if
    | apply tame_bind; [|intro] ].

Section TameOperations.

Context `{env : Env} `{codec : Codec}.

(** [tame_run] settles a state function that returns or raises in place. *)
Ltac tame_run :=
  let w := fresh "w" in let r := fresh "r" in let w' := fresh "w'" in
  let H := fresh "H" in
  intros w r w' H;
  repeat match type of H with
         | context [match ?x with _ => _ end] => destruct x
         end;
  inversion H; subst; simpl; (split; [done|]);
  let e := fresh "e" in let He := fresh "He" in
  intros e He; inversion He; subst; left;
  first [done | apply fault_exn_Exception].

(** [tame_call] settles a call that asks the environment first. *)
Ltac tame_call :=
  repeat (apply tame_bind; [auto with effects|intros _]); tame_run.

Lemma tame_Path_exists p : tame (Path_exists p).
Proof. unfold Path_exists. tame_call. Qed.

Lemma tame_is_dir p : tame (is_dir p).
Proof. unfold is_dir. tame_call. Qed.

Lemma tame_is_file p : tame (is_file p).
Proof. unfold is_file. tame_call. Qed.

Lemma tame_os_path_exists p : tame (os_path_exists p).
Proof. unfold os_path_exists. tame_run. Qed.

Lemma tame_iterdir p : tame (iterdir p).
Proof. unfold iterdir. tame_call. Qed.

Lemma tame_os_mkdir p : tame (os_mkdir p).
Proof. unfold os_mkdir. tame_call. Qed.

Lemma tame_open_wb p : tame (open_wb p).
Proof. unfold open_wb. tame_call. Qed.

Lemma tame_write_file p data : tame (write_file p data).
Proof. unfold write_file. tame_run. Qed.

Lemma tame_fp_close p : tame (fp_close p).
Proof. unfold fp_close. tame_run. Qed.

Lemma tame_os_remove p : tame (os_remove p).
Proof. unfold os_remove. tame_call. Qed.

Hint Resolve tame_Path_exists tame_is_dir tame_is_file tame_os_path_exists
  tame_iterdir tame_os_mkdir tame_open_wb tame_write_file tame_fp_close
  tame_os_remove : effects.

Lemma tame_Path_mkdir_rec fuel p parents exist_ok :
  tame (Path_mkdir_rec fuel p parents exist_ok).
Proof.
  revert p parents exist_ok.
  induction fuel as [|fuel IH]; intros p parents exist_ok; simpl;
    (apply tame_try_except; [auto with effects|]);
    intros e k Hk; destruct e; simpl in Hk; simplify_eq;
    tame_steps.
Qed.

Lemma tame_Path_mkdir p parents exist_ok : tame (Path_mkdir p parents exist_ok).
Proof. apply tame_Path_mkdir_rec. Qed.

Lemma tame_Image_open p : tame (Image_open p).
Proof.
  unfold Image_open. do 2 (apply tame_bind; [auto with effects|]; intros _).
  intros w r w' H.
  destruct (stat p w) as [[|data]|]; [| destruct (decode data) as [msg|[m px]] |];
    inversion H; subst; (split; [done|]); intros e [= <-]; by left.
Qed.

Lemma tame_Image_convert img target : tame (Image_convert img target).
Proof.
  unfold Image_convert. apply tame_bind; [apply tame_checkpoint|]. intros _.
  destruct (convertMode _ _ _); auto with effects.
Qed.

Lemma tame_webp_save_handler img p q method : tame (webp_save_handler img p q method).
Proof. unfold webp_save_handler. destruct (encodeWebP _ _ _ _); auto with effects. Qed.

Hint Resolve tame_Path_mkdir tame_Image_open tame_Image_convert
  tame_webp_save_handler : effects.

Lemma tame_Image_save img p q method : tame (Image_save img p q method).
Proof.
  unfold Image_save.
  do 3 (apply tame_bind; [auto with effects|]; intro).
  apply tame_bind; [|auto with effects].
  apply tame_try_except; [auto with effects|].
  intros e k Hk. destruct (is_Exception e) eqn:He; simplify_eq.
  apply tame_bind; [auto with effects|]. intros _.
  apply tame_bind; [|intros _; by apply tame_raise].
  apply tame_if; [|auto with effects].
  apply tame_try_except; [auto with effects|].
  intros e' k' Hk'. destruct e'; simplify_eq. auto with effects.
Qed.

Lemma tame_handle_mode img : tame (handle_mode img).
Proof. unfold handle_mode. repeat apply tame_if; auto with effects. Qed.

Hint Resolve tame_Image_save tame_handle_mode : effects.

Lemma tame_convert_image_body self p : tame (convert_image_body self p).
Proof.
  unfold convert_image_body.
  tame_steps.
Qed.

Lemma tame_convert_image self p : tame (convert_image self p).
Proof.
  unfold convert_image. apply tame_try_except; [apply tame_convert_image_body|].
  intros e k Hk. destruct (is_Exception e); simplify_eq.
  tame_steps.
Qed.

Lemma tame_collect_images entries : tame (collect_images entries).
Proof.
  induction entries as [|q entries IH]; simpl; [auto with effects|].
  unfold is_image.
  tame_steps.
Qed.

Hint Resolve tame_convert_image tame_collect_images : effects.

Lemma tame_find_images self : tame (find_images self).
Proof.
  unfold find_images.
  tame_steps.
Qed.

Lemma tame_convert_loop self images c f : tame (convert_loop self images c f).
Proof.
  revert c f. induction images as [|p images IH]; intros c f; simpl;
    [auto with effects|].
  apply tame_bind; [auto with effects|]. intros []; auto.
Qed.

Lemma tame_convert_each self images : tame (convert_each self images).
Proof.
  induction images as [|p images IH]; simpl; [auto with effects|].
  tame_steps.
Qed.

Hint Resolve tame_find_images tame_convert_loop tame_convert_each : effects.

Lemma tame_convert_all self : tame (convert_all self).
Proof.
  unfold convert_all. apply tame_bind; [auto with effects|].
  intros [|p images];
    tame_steps.
Qed.

Lemma tame_ImageConverter_init inp out q : tame (ImageConverter_init inp out q).
Proof.
  unfold ImageConverter_init.
  tame_steps.
Qed.

(** What comes out of [convert_image]: its flag; or the user's interrupt,
    when one is pending; or, when the block has failed and the failure line
    itself cannot be printed, the exception of that [print]. *)
Lemma convert_image_outcome self p w r w' :
  convert_image self p w = (r, w') →
  (∃ b, r = Ret b) ∨
  (r = Raise KeyboardInterrupt ∧ sigint w ≠ None) ∨
  (∃ e0 w1 e, convert_image_body self p w = (Raise e0, w1) ∧
              is_Exception e0 = true ∧
              print (failure_line p e0) w1 = (Raise e, w') ∧
              w' = w1 ∧ is_Exception e = true ∧ r = Raise e).
Proof.
  intros H. unfold convert_image in H.
  apply try_except_inv in H
    as [(a & H1 & ->)|[(e & w1 & k & H1 & Hk & H)|(e & H1 & Hk & ->)]].
  - left. eauto.
  - destruct (is_Exception e) eqn:He; simplify_eq.
    step_in H; [step_in H; left; eauto|]. subst.
    right; right. exists e, w1, e0.
    destruct (print_inv _ _ _ _ Hrun) as [[[=] _]|(e' & [= <-] & -> & He')].
    by repeat split.
  - destruct (is_Exception e) eqn:He; simplify_eq.
    destruct (tame_convert_image_body _ _ _ _ _ H1) as [_ Hr].
    destruct (Hr e eq_refl) as [?|[-> ?]]; [congruence|]. right; by left.
Qed.

End TameOperations.

#[global] Hint Resolve tame_Path_exists tame_is_dir tame_is_file
  tame_os_path_exists tame_iterdir
  tame_os_mkdir tame_open_wb tame_write_file tame_fp_close tame_os_remove
  tame_Path_mkdir tame_Image_open tame_Image_convert tame_webp_save_handler
  tame_Image_save tame_handle_mode tame_convert_image tame_collect_images
  tame_find_images tame_convert_loop tame_convert_each tame_convert_all
  tame_ImageConverter_init : effects.

(** ** Discovery *)

Section Discovery.

Context `{env : Env} `{codec : Codec}.

Lemma checkpoint_inv w r w1 :
  checkpoint w = (r, w1) →
  ∃ s, w1 = mkWorld (fs w) (stdout w) s ∧
       (r = Ret tt ∨ (r = Raise KeyboardInterrupt ∧ sigint w ≠ None)) ∧
       (sigint w = None → s = None ∧ r = Ret tt).
Proof.
  unfold checkpoint. destruct w as [f o [[|n]|]]; simpl; intros [= <- <-];
    eexists; (split; [done|]); split; auto; try done.
Qed.

Lemma stat_fs p w w' : fs w = fs w' → stat p w = stat p w'.
Proof. unfold stat. by intros ->. Qed.


(** The probes only read; when they return, they tell what is there. *)
Lemma Path_exists_inv p w r w' :
  Path_exists p w = (r, w') →
  w' = w ∧
  ((r = Ret (bool_decide (is_Some (stat p w))) ∧ fault_of (sys_exists p) w = None) ∨
   (∃ f, r = Raise (fault_exn f) ∧ fault_of (sys_exists p) w = Some f)).
Proof.
  unfold Path_exists. intros H. step_in H.
  - apply attempt_inv in Hrun as (-> & [[_ Hf]|(f & [=] & _)]). simplify_eq. auto.
  - apply attempt_inv in Hrun as (-> & [[[=] _]|(f & [= ->] & Hf)]). subst. eauto.
Qed.

Lemma is_dir_inv p w r w' :
  is_dir p w = (r, w') →
  w' = w ∧
  ((r = Ret (match stat p w with Some Dir => true | _ => false end) ∧
    fault_of (sys_is_dir p) w = None) ∨
   (∃ f, r = Raise (fault_exn f) ∧ fault_of (sys_is_dir p) w = Some f)).
Proof.
  unfold is_dir. intros H. step_in H.
  - apply attempt_inv in Hrun as (-> & [[_ Hf]|(f & [=] & _)]). simplify_eq. auto.
  - apply attempt_inv in Hrun as (-> & [[[=] _]|(f & [= ->] & Hf)]). subst. eauto.
Qed.

Lemma is_file_inv p w r w' :
  is_file p w = (r, w') →
  w' = w ∧
  ((r = Ret (match stat p w with Some (File _) => true | _ => false end) ∧
    fault_of (sys_is_file p) w = None) ∨
   (∃ f, r = Raise (fault_exn f) ∧ fault_of (sys_is_file p) w = Some f)).
Proof.
  unfold is_file. intros H. step_in H.
  - apply attempt_inv in Hrun as (-> & [[_ Hf]|(f & [=] & _)]). simplify_eq. auto.
  - apply attempt_inv in Hrun as (-> & [[[=] _]|(f & [= ->] & Hf)]). subst. eauto.
Qed.

(** The loop of [find_images] only reads, and what it returns are the
    entries that pass the test. *)
Lemma collect_images_inv entries w r w' :
  collect_images entries w = (r, w') →
  w' = w ∧ (∀ images, r = Ret images → images = List.filter (discovered w) entries).
Proof.
  revert r w'. induction entries as [|q entries IH]; intros r w' H; simpl in H.
  - step_in H. split; [done|]. by intros ? [= <-].
  - unfold is_image in H. step_in H.
    2:{ subst. step_in Hrun; [by step_in Hrun|]. subst.
        by apply is_file_inv in Hrun0 as (-> & _). }
    step_in Hrun; [|done]. step_in Hrun.
    apply is_file_inv in Hrun0 as (-> & [[[= ->] _]|(f & [=] & _)]).
    step_in H.
    2:{ subst. by apply IH in Hrun as [-> _]. }
    apply IH in Hrun as [-> Himg]. step_in H. split; [done|].
    intros images [= <-]. by rewrite (Himg a eq_refl).
Qed.

(** [iterdir], case by case. *)
Lemma iterdir_inv p w r w' :
  iterdir p w = (r, w') →
  fs w' = fs w ∧ stdout w' = stdout w ∧ (sigint w = None → sigint w' = None) ∧
  (∀ entries, r = Ret entries →
     stat p w = Some Dir ∧ entries = List.map (joinpath p) (listdir p w)).
Proof.
  unfold iterdir. intros H. step_in H.
  2:{ subst. apply checkpoint_inv in Hrun as (s & -> & _ & Hs).
      repeat split; try done. intros Hw. by apply Hs. }
  apply checkpoint_inv in Hrun as (s & -> & _ & Hs).
  assert (Hsig : sigint w = None → s = None) by (intros Hw; by apply Hs).
  step_in H.
  2:{ subst. apply attempt_inv in Hrun as (-> & _). by repeat split. }
  apply attempt_inv in Hrun as (-> & _).
  rewrite (stat_fs p (mkWorld (fs w) (stdout w) s) w eq_refl) in H.
  destruct (stat p w) as [[|?]|] eqn:Hst; simplify_eq;
    (split; [done|]); (split; [done|]); (split; [done|]); [|done|done].
  by intros ? [= <-].
Qed.

(** What [find_images] computes, and that it only reads. *)
Lemma find_images_inv self w images w' :
  find_images self w = (Ret images, w') →
  stat (input_folder self) w = Some Dir ∧
  images = sorted (List.filter (discovered w)
                     (List.map (joinpath (input_folder self))
                        (listdir (input_folder self) w))) ∧
  fs w' = fs w ∧ stdout w' = stdout w ∧ (sigint w = None → sigint w' = None).
Proof.
  unfold find_images. intros H.
  step_in H; [|done].
  apply iterdir_inv in Hrun as (Hf & Ho & Hs & Hent).
  destruct (Hent a eq_refl) as [Hdir ->].
  step_in H; [|done]. apply collect_images_inv in Hrun as [-> Himg].
  step_in H. rewrite (Himg a eq_refl). split; [done|]. split; [|done].
  f_equal. unfold discovered.
  apply List.filter_ext. intros q. by rewrite (stat_fs q w' w Hf).
Qed.

(** [find_images] only reads, whatever comes of it. *)
Lemma find_images_reads self w r w1 :
  find_images self w = (r, w1) → fs w1 = fs w ∧ stdout w1 = stdout w.
Proof.
  unfold find_images. intros H. step_in H.
  - apply iterdir_inv in Hrun as (Hf & Ho & _).
    step_in H.
    + apply collect_images_inv in Hrun as [-> _]. by step_in H.
    + subst. by apply collect_images_inv in Hrun as [-> _].
  - subst. by apply iterdir_inv in Hrun as (Hf & Ho & _).
Qed.

Lemma is_child_join p q : is_child p q = true → joinpath p (name q) = q.
Proof.
  unfold is_child, joinpath, name. intros H.
  apply andb_true_iff in H as [H Hp]. apply andb_true_iff in H as [Hnil Hroot].
  apply negb_true_iff in Hroot. rewrite Hroot.
  apply bool_decide_eq_true in Hp. subst p.
  apply negb_true_iff, bool_decide_eq_false in Hnil.
  symmetry. by apply app_removelast_last.
Qed.

Lemma join_is_child p n : is_root (joinpath p n) = false → is_child p (joinpath p n) = true.
Proof.
  unfold is_child, joinpath. intros ->. simpl.
  rewrite removelast_last.
  rewrite (bool_decide_eq_true_2 (p = p)) by done.
  rewrite bool_decide_eq_false_2 by (by destruct p). done.
Qed.

(** The entries [iterdir] yields are the keys of the tree that are entries
    of the folder, each once. *)
Lemma entries_listdir p w :
  List.map (joinpath p) (listdir p w)
  = List.filter (is_child p) (List.map fst (map_to_list (fs w))).
Proof.
  unfold listdir. rewrite List.map_map.
  induction (List.map fst (map_to_list (fs w))) as [|q l IH]; simpl; [done|].
  destruct (is_child p q) eqn:Hq; simpl; [|done].
  by rewrite is_child_join, IH.
Qed.

Lemma NoDup_List_filter {X} (f : X → bool) (l : list X) :
  NoDup l → NoDup (List.filter f l).
Proof.
  induction 1 as [|x l Hx Hl IH]; simpl; [constructor|].
  destruct (f x); [|done]. constructor; [|done].
  rewrite list_elem_of_In, filter_In, <- list_elem_of_In. tauto.
Qed.

Lemma entries_NoDup p w : NoDup (List.map (joinpath p) (listdir p w)).
Proof.
  rewrite entries_listdir. apply NoDup_List_filter.
  apply (NoDup_fst_map_to_list (fs w)).
Qed.

Lemma elem_of_entries p w q :
  q ∈ List.map (joinpath p) (listdir p w)
  ↔ is_child p q = true ∧ is_Some (fs w !! q).
Proof.
  rewrite entries_listdir, list_elem_of_In, filter_In, <- list_elem_of_In.
  change (List.map fst (map_to_list (fs w))) with (fst <$> map_to_list (fs w)).
  rewrite list_elem_of_fmap. split.
  - intros [[[q' x] [-> Hx]] Hq]. apply elem_of_map_to_list in Hx. simpl. eauto.
  - intros [Hq [x Hx]]. split; [|done].
    exists (q, x). split; [done|]. by apply elem_of_map_to_list.
Qed.

End Discovery.

(** ** The order by full path string *)

Section FullPathOrder.

Lemma string_app_assoc (s t u : string) : (s +:+ t) +:+ u = s +:+ (t +:+ u).
Proof.
  induction s as [|a s IH]; [done|].
  change (String a ((s +:+ t) +:+ u) = String a (s +:+ (t +:+ u))).
  by rewrite IH.
Qed.

Lemma join_parts_snoc (l : list string) :
  ∃ pre, ∀ n, join_parts (l ++ [n]) = pre +:+ n.
Proof.
  induction l as [|x l [pre IH]].
  - by exists "".
  - exists (x +:+ "/" +:+ pre). intros n. simpl.
    rewrite IH. destruct (l ++ [n]) eqn:Hl; [by destruct l|].
    by rewrite !string_app_assoc.
Qed.

(** The full path strings of a folder's entries share a prefix, and then
    spell the entry's name. *)
Lemma str_child (p : Path) :
  ∃ pre, ∀ n, is_root (joinpath p n) = false → str (joinpath p n) = pre +:+ n.
Proof.
  unfold joinpath. destruct p as [|x p].
  - exists "". intros n Hn. unfold is_root in Hn. simpl in *.
    apply orb_false_iff in Hn as [H1 H2].
    apply bool_decide_eq_false in H1, H2.
    destruct (String.eqb n "/") eqn:Hs1;
      [apply String.eqb_eq in Hs1; by subst|].
    destruct (String.eqb n "//") eqn:Hs2;
      [apply String.eqb_eq in Hs2; by subst|]. done.
  - destruct (join_parts_snoc p) as [pre1 H1].
    destruct (join_parts_snoc (x :: p)) as [pre2 H2].
    exists (if (String.eqb x "/" || String.eqb x "//")%bool then x +:+ pre1 else pre2).
    intros n _. change ((x :: p) ++ [n]) with (x :: (p ++ [n])). unfold str.
    destruct (String.eqb x "/" || String.eqb x "//")%bool.
    + by rewrite H1, string_app_assoc.
    + apply (H2 n).
Qed.

Lemma compare_parts_singleton (n m : string) :
  compare_parts [n] [m] = String.compare n m.
Proof. simpl. by destruct (String.compare n m). Qed.

(** On the entries of one folder, the order of paths is the order of their
    full path strings. *)
Lemma path_le_str_le (p q1 q2 : Path) :
  is_child p q1 = true → is_child p q2 = true → path_le q1 q2 → str_le q1 q2.
Proof.
  intros H1 H2.
  assert (Hr1 : is_root q1 = false).
  { unfold is_child in H1.
    by destruct (bool_decide (q1 = [])), (is_root q1). }
  assert (Hr2 : is_root q2 = false).
  { unfold is_child in H2.
    by destruct (bool_decide (q2 = [])), (is_root q2). }
  apply is_child_join in H1, H2. revert Hr1 Hr2. rewrite <- H1, <- H2.
  intros Hr1 Hr2. destruct (str_child p) as [pre Hpre].
  unfold path_le, path_leb, str_le, String.leb.
  rewrite !Hpre by done. rewrite string_compare_app.
  unfold joinpath. rewrite compare_parts_app, compare_parts_singleton.
  by destruct (String.compare (name q1) (name q2)).
Qed.

Lemma StronglySorted_weaken {X} (R R' : relation X) (l : list X) :
  (∀ x y, x ∈ l → y ∈ l → R x y → R' x y) →
  StronglySorted R l → StronglySorted R' l.
Proof.
  intros HR Hl. induction Hl as [|x l Hl IH Hx]; constructor.
  - apply IH. intros y z Hy Hz. apply HR; by constructor.
  - rewrite List.Forall_forall in *. intros y Hy.
    apply HR; [by constructor| |by apply Hx].
    constructor. by apply list_elem_of_In.
Qed.

End FullPathOrder.

(** ** File discovery (claim C5) *)

Section FindImages.

Context `{env : Env} `{codec : Codec}.

Lemma elem_of_SUPPORTED_FORMATS (s : string) :
  s ∈ SUPPORTED_FORMATS ↔ s = ".jpg" ∨ s = ".jpeg" ∨ s = ".png".
Proof.
  unfold SUPPORTED_FORMATS.
  rewrite !elem_of_union, !elem_of_singleton. tauto.
Qed.

Lemma discovered_true w q :
  discovered w q = true ↔
  (∃ data, stat q w = Some (File data)) ∧ lower (suffix q) ∈ SUPPORTED_FORMATS.
Proof.
  unfold discovered. rewrite andb_true_iff, bool_decide_eq_true.
  apply and_iff_compat_r. destruct (stat q w) as [[|data]|]; split; try done.
  - by intros [? ?].
  - eauto.
  - by intros [? ?].
Qed.

Lemma stat_File_lookup q w data :
  stat q w = Some (File data) → is_root q = false ∧ fs w !! q = Some (File data).
Proof.
  unfold stat. destruct (bool_decide (q = [])), (is_root q); simpl; done.
Qed.

(** What the list [find_images] returns is. *)
Lemma find_images_props self w images w' :
  find_images self w = (Ret images, w') →
  (∀ q, q ∈ images ↔
        (∃ n, q = joinpath (input_folder self) n) ∧
        (∃ data, stat q w = Some (File data)) ∧
        lower (suffix q) ∈ SUPPORTED_FORMATS) ∧
  NoDup images ∧
  StronglySorted path_le images ∧
  StronglySorted str_le images.
Proof.
  intros H. apply find_images_inv in H as (Hdir & -> & _).
  set (inp := input_folder self).
  set (entries := List.map (joinpath inp) (listdir inp w)).
  assert (Hmem : ∀ q, q ∈ sorted (List.filter (discovered w) entries) ↔
                      is_child inp q = true ∧ is_Some (fs w !! q) ∧ discovered w q = true).
  { intros q. rewrite sorted_Permutation.
    rewrite list_elem_of_In, filter_In, <- list_elem_of_In.
    unfold entries. rewrite elem_of_entries. tauto. }
  split; [|split; [|split]].
  - intros q. rewrite Hmem, discovered_true. split.
    + intros (Hc & _ & Hf & Hs). split; [|done].
      exists (name q). symmetry. by apply is_child_join.
    + intros ([n ->] & [data Hf] & Hs).
      destruct (stat_File_lookup _ _ _ Hf) as [Hr Hl].
      split; [by apply join_is_child|]. split; [by rewrite Hl|]. eauto.
  - rewrite sorted_Permutation. apply NoDup_List_filter, entries_NoDup.
  - apply sorted_StronglySorted.
  - apply (StronglySorted_weaken path_le); [|apply sorted_StronglySorted].
    intros p q Hp Hq. apply Hmem in Hp as [Hp _], Hq as [Hq _].
    by apply (path_le_str_le inp).
Qed.

End FindImages.

(** In the calm environment discovery returns. *)

Section FindImagesReturns.

Context `{codec : Codec}.

Existing Instance calm.

Lemma collect_images_run entries w :
  collect_images entries w = (Ret (List.filter (discovered w) entries), w).
Proof.
  induction entries as [|q entries IH]; simpl; [done|].
  unfold bind at 1. unfold is_image, bind, is_file, ret. simpl. rewrite IH.
  unfold discovered.
  by destruct (stat q w) as [[|?]|]; simpl;
    destruct (bool_decide (lower (suffix q) ∈ SUPPORTED_FORMATS)).
Qed.

(** With the folder in place, [find_images] returns unless the interrupt
    arrives at once. *)
Lemma find_images_outcome self w :
  stat (input_folder self) w = Some Dir →
  (∃ images w', find_images self w = (Ret images, w')) ∨
  (sigint w ≠ None ∧ ∃ w', find_images self w = (Raise KeyboardInterrupt, w')).
Proof.
  intros Hdir. unfold find_images, iterdir.
  destruct (checkpoint w) as [r w1] eqn:Hc.
  destruct (checkpoint_inv _ _ _ Hc) as (s & -> & [->|[-> Hs]] & _).
  - left.
    assert (Hit : iterdir (input_folder self) w
                  = (Ret (List.map (joinpath (input_folder self))
                            (listdir (input_folder self) w)),
                     mkWorld (fs w) (stdout w) s)).
    { unfold iterdir. rewrite (bind_ret_run _ _ _ _ _ Hc).
      unfold bind, attempt. simpl.
      rewrite (stat_fs (input_folder self) (mkWorld (fs w) (stdout w) s) w eq_refl).
      by rewrite Hdir. }
    fold (iterdir (input_folder self)).
    rewrite (bind_ret_run _ _ _ _ _ Hit).
    rewrite (bind_ret_run _ _ _ _ _ (collect_images_run _ _)).
    unfold ret. eauto.
  - right. split; [done|]. unfold bind. rewrite Hc. eauto.
Qed.

(** C5. [find_images] returns exactly the immediate entries of the input
    folder that are regular files with a lower-cased extension among
    [.jpg], [.jpeg], [.png], each once and sorted ascending by full path
    string, reading the tree without changing it; so a file with another
    extension, such as [.txt] or [.gif], is not discovered and is not counted
    in [total].  The one way it does not return from an existing folder is
    the user's interrupt.  Stated of the
    environment in which no call meets a fault ([calm]). *)
Theorem find_images_exact (self : ImageConverter) (w : World) :
  stat (input_folder self) w = Some Dir →
  (∃ images w',
     find_images self w = (Ret images, w') ∧
     fs w' = fs w ∧ stdout w' = stdout w ∧
     (∀ q, q ∈ images ↔
           (∃ n, q = joinpath (input_folder self) n) ∧
           (∃ data, stat q w = Some (File data)) ∧
           (lower (suffix q) = ".jpg" ∨ lower (suffix q) = ".jpeg"
            ∨ lower (suffix q) = ".png")) ∧
     NoDup images ∧
     StronglySorted str_le images ∧
     (∀ q, lower (suffix q) = ".txt" ∨ lower (suffix q) = ".gif" → q ∉ images) ∧
     (∀ st w'', convert_all self w = (Ret st, w'') →
                total st = Z.of_nat (length images))) ∨
  (sigint w ≠ None ∧ ∃ w', find_images self w = (Raise KeyboardInterrupt, w')).
Proof.
  intros Hdir.
  destruct (find_images_outcome self w Hdir) as [(images & w' & H)|?]; [left|by right].
  exists images, w'. split; [done|].
  destruct (find_images_inv _ _ _ _ H) as (_ & _ & Hfs & Hout & _).
  destruct (find_images_props _ _ _ _ H) as (Hmem & Hnd & _ & Hsorted).
  assert (Hmem' : ∀ q, q ∈ images ↔
           (∃ n, q = joinpath (input_folder self) n) ∧
           (∃ data, stat q w = Some (File data)) ∧
           (lower (suffix q) = ".jpg" ∨ lower (suffix q) = ".jpeg"
            ∨ lower (suffix q) = ".png")).
  { intros q. rewrite Hmem, elem_of_SUPPORTED_FORMATS. tauto. }
  do 2 (split; [done|]). split; [exact Hmem'|]. do 2 (split; [done|]). split.
  - intros q Hq Hin. apply Hmem' in Hin as (_ & _ & Hs).
    destruct Hq as [Hq|Hq]; rewrite Hq in Hs;
      destruct Hs as [?|[?|?]]; discriminate.
  - intros st w'' Hall. unfold convert_all in Hall.
    rewrite (bind_ret_run _ _ _ _ _ H) in Hall.
    destruct images as [|p images].
    + repeat step_in Hall. done.
    + repeat step_in Hall; done.
Qed.

End FindImagesReturns.

(** ** Construction (claim C8) *)

Section Construction.

Context `{env : Env} `{codec : Codec}.

(** [__init__], case by case: the probe [exists] fails; the folder is not
    there; the probe [is_dir] fails; the path is a regular file; the path is
    a directory. *)
Lemma ImageConverter_init_inv input output q w r w' :
  let inp := Path_of_string input in
  ImageConverter_init input output q w = (r, w') →
  w' = w ∧
  ((∃ f, fault_of (sys_exists inp) w = Some f ∧ r = Raise (fault_exn f)) ∨
   (fault_of (sys_exists inp) w = None ∧ stat inp w = None ∧
    r = Raise (FileNotFoundError ("Input folder does not exist: " +:+ str inp))) ∨
   (∃ f, fault_of (sys_exists inp) w = None ∧ stat inp w ≠ None ∧
         fault_of (sys_is_dir inp) w = Some f ∧ r = Raise (fault_exn f)) ∨
   (fault_of (sys_exists inp) w = None ∧ fault_of (sys_is_dir inp) w = None ∧
    (∃ data, stat inp w = Some (File data)) ∧
    r = Raise (NotADirectoryError ("Input path is not a directory: " +:+ str inp))) ∨
   (fault_of (sys_exists inp) w = None ∧ fault_of (sys_is_dir inp) w = None ∧
    stat inp w = Some Dir ∧
    r = Ret (mkImageConverter inp (chosen_output inp output) q))).
Proof.
  intros inp. unfold ImageConverter_init. fold inp. intros H.
  step_in H.
  2:{ subst. apply Path_exists_inv in Hrun as (-> & [[[=] _]|(f & [= ->] & Hf)]).
      split; [done|]. left. eauto. }
  apply Path_exists_inv in Hrun as (-> & [[[= ->] Hex]|(f & [=] & _)]).
  destruct (stat inp w) as [x|] eqn:Hst.
  2:{ rewrite bool_decide_eq_false_2 in H by (by intros [? ?]). simpl in H.
      step_in H. split; [done|]. right; left. done. }
  rewrite bool_decide_eq_true_2 in H by eauto. simpl in H.
  step_in H.
  2:{ subst. apply is_dir_inv in Hrun as (-> & [[[=] _]|(f & [= ->] & Hf)]).
      split; [done|]. do 2 right; left. exists f. by repeat split. }
  apply is_dir_inv in Hrun as (-> & [[[= ->] Hd]|(f & [=] & _)]).
  rewrite Hst in H. destruct x as [|data]; simpl in H; step_in H; (split; [done|]).
  - do 4 right. done.
  - do 3 right; left. eauto 10.
Qed.

(** C8, as the code has it. Constructing the converter fails with
    [FileNotFoundError] when the input folder does not exist and with
    [NotADirectoryError] when it exists and is not a directory, and succeeds
    when it is a directory, whatever the quality and whether or not the
    output folder exists, provided the probes [exists] and [is_dir] themselves
    answer.  These are not the only failures: when a probe fails for another
    reason than the path not being there (a name that is too long, a parent
    that may not be searched), its [OSError] comes out of the constructor as
    it is.  In every case nothing is touched. *)
Theorem ImageConverter_init_failures (input : string) (output : option string)
    (q : Z) (w : World) :
  let inp := Path_of_string input in
  let init := ImageConverter_init input output q w in
  (fault_of (sys_exists inp) w = None → stat inp w = None →
     ∃ msg, init = (Raise (FileNotFoundError msg), w)) ∧
  (fault_of (sys_exists inp) w = None → fault_of (sys_is_dir inp) w = None →
     (∃ data, stat inp w = Some (File data)) →
     ∃ msg, init = (Raise (NotADirectoryError msg), w)) ∧
  (fault_of (sys_exists inp) w = None → fault_of (sys_is_dir inp) w = None →
     stat inp w = Some Dir →
     ∃ self, init = (Ret self, w) ∧
             input_folder self = inp ∧ quality self = q ∧
             (output = None → output_folder self = joinpath (parent inp) "webp")) ∧
  (∀ f, fault_of (sys_exists inp) w = Some f → init = (Raise (fault_exn f), w)) ∧
  (∀ f, fault_of (sys_exists inp) w = None → stat inp w ≠ None →
        fault_of (sys_is_dir inp) w = Some f → init = (Raise (fault_exn f), w)) ∧
  (∀ e w', init = (Raise e, w') →
     w' = w ∧
     ((∃ msg, e = FileNotFoundError msg) ∧ stat inp w = None ∨
      (∃ msg, e = NotADirectoryError msg) ∧ (∃ data, stat inp w = Some (File data)) ∨
      (∃ f, e = fault_exn f ∧
            (fault_of (sys_exists inp) w = Some f ∨
             fault_of (sys_is_dir inp) w = Some f)))).
Proof.
  intros inp init.
  destruct init as [r w'] eqn:Hinit. unfold init in Hinit.
  apply ImageConverter_init_inv in Hinit as (-> & Hcases). fold inp in Hcases.
  destruct Hcases
    as [(f & Hex & ->)|[(Hex & Hst & ->)|[(f & Hex & Hst & Hd & ->)
       |[(Hex & Hd & [data Hst] & ->)|(Hex & Hd & Hst & ->)]]]].
  - split; [congruence|]. split; [congruence|]. split; [congruence|].
    split; [intros f' Hf'; congruence|]. split; [congruence|].
    intros e w' [= <- <-]. split; [done|]. do 2 right. eauto.
  - split; [eauto|]. split; [by intros _ _ [? ?]; congruence|].
    split; [congruence|]. split; [congruence|]. split; [congruence|].
    intros e w' [= <- <-]. split; [done|]. left. eauto.
  - split; [congruence|]. split; [congruence|]. split; [congruence|].
    split; [congruence|]. split; [intros f' _ _ Hf'; congruence|].
    intros e w' [= <- <-]. split; [done|]. do 2 right. eauto.
  - split; [congruence|]. split; [eauto|]. split; [congruence|].
    split; [congruence|]. split; [congruence|].
    intros e w' [= <- <-]. split; [done|]. right; left. eauto.
  - split; [congruence|]. split; [by intros _ _ [? ?]; congruence|].
    split.
    { intros _ _ _. eexists. split; [done|]. simpl. split; [done|]. split; [done|].
      by intros ->. }
    split; [congruence|]. split; [congruence|]. by intros e w' [=].
Qed.

End Construction.

(** In the calm environment the constructor goes by the tree alone. *)

Section ConstructionCalm.

Context `{codec : Codec}.

Existing Instance calm.

Lemma ImageConverter_init_run input output q w :
  ImageConverter_init input output q w =
  let inp := Path_of_string input in
  match stat inp w with
  | None =>
      (Raise (FileNotFoundError ("Input folder does not exist: " +:+ str inp)), w)
  | Some (File _) =>
      (Raise (NotADirectoryError ("Input path is not a directory: " +:+ str inp)), w)
  | Some Dir =>
      (Ret (mkImageConverter inp
              match output with
              | Some o => if String.eqb o "" then joinpath (parent inp) "webp"
                          else Path_of_string o
              | None => joinpath (parent inp) "webp"
              end q), w)
  end.
Proof.
  unfold ImageConverter_init, bind, Path_exists, is_dir, attempt, raise, ret. simpl.
  destruct (stat (Path_of_string input) w) as [[|data]|] eqn:Hst; simpl;
    rewrite ?Hst; done.
Qed.

End ConstructionCalm.

(** ** The batch and its statistics (claims C7, C1, C2) *)

Section Batch.

Context `{env : Env} `{codec : Codec}.

Lemma count_cons (b x : bool) (l : list bool) :
  count b (x :: l) = (if Bool.eqb b x then 1 else 0) + count b l.
Proof.
  unfold count. simpl. destruct (Bool.eqb b x); simpl; lia.
Qed.

Lemma count_nonneg (b : bool) (l : list bool) : 0 ≤ count b l.
Proof. unfold count. lia. Qed.

Lemma count_total (l : list bool) :
  count true l + count false l = Z.of_nat (length l).
Proof.
  induction l as [|x l IH]; [done|].
  rewrite !count_cons. destruct x; simpl length; simpl Bool.eqb; lia.
Qed.

(** The loop adds to its counters the outcomes of the files, one by one. *)
Lemma convert_loop_each self images c f w :
  convert_loop self images c f w =
  match convert_each self images w with
  | (Ret outcomes, w') => (Ret (c + count true outcomes, f + count false outcomes), w')
  | (Raise e, w') => (Raise e, w')
  end.
Proof.
  revert c f w. induction images as [|p images IH]; intros c f w; simpl.
  - unfold ret. f_equal. f_equal. unfold count. simpl. f_equal; lia.
  - unfold bind.
    destruct (convert_image self p w) as [[[|]|e] w1]; [| |done]; rewrite IH;
      (destruct (convert_each self images w1) as [[bs|e] w2]; [|done]);
      unfold ret; rewrite !count_cons; simpl; do 3 f_equal; lia.
Qed.

(** One outcome per file, unless the batch is cut short: by the interrupt,
    or by a failure line that cannot be printed. *)
Lemma convert_each_outcome self images w r w' :
  convert_each self images w = (r, w') →
  (∃ outcomes, r = Ret outcomes ∧ length outcomes = length images) ∨
  (r = Raise KeyboardInterrupt ∧ sigint w ≠ None) ∨
  (∃ e line v, r = Raise e ∧ is_Exception e = true ∧ print line v = (Raise e, v)).
Proof.
  revert w r w'. induction images as [|p images IH]; intros w r w' H; simpl in H.
  - step_in H. left. by exists [].
  - step_in H.
    + destruct (tame_convert_image self p _ _ _ Hrun) as [Hs _].
      step_in H.
      * step_in H.
        destruct (IH _ _ _ Hrun0) as [(bs & [= ->] & Hlen)|[[? ?]|(? & ? & ? & ? & _)]];
          [|done|done].
        left. exists (a :: bs). simpl. by rewrite Hlen.
      * subst.
        destruct (IH _ _ _ Hrun0) as [(bs & ? & _)|[[[= ->] Hw]|(e' & l & v & [= ->] & ?)]];
          [done| |].
        -- right; left. split; [done|]. intros Hw0. apply Hw. auto.
        -- right; right. eauto.
    + subst.
      destruct (convert_image_outcome _ _ _ _ _ Hrun)
        as [[b ?]|[[[= ->] ?]|(e0 & w1 & e' & _ & _ & Hp & -> & He' & [= ->])]];
        [done| |].
      * right; by left.
      * right; right. eauto 10.
Qed.

(** C2, as the code has it. [convert_image] catches every [Exception] of its
    block: a failure of folder creation, decoding, mode conversion, encoding
    or writing makes it print the failure line and return false.  Two things
    do come out of it: the user's interrupt, which [except Exception] lets
    through to [main]; and, since the failure line is printed in the handler,
    outside the block, the exception of that [print] when the stream refuses
    the line.  With no interrupt pending and a stream that takes the failure
    line, it returns its flag. *)
Theorem convert_image_catches (self : ImageConverter) (p : Path) (w : World) :
  (∀ r w', convert_image self p w = (r, w') →
     (∃ b, r = Ret b) ∨
     (r = Raise KeyboardInterrupt ∧ sigint w ≠ None) ∨
     (∃ e0 w1 e, convert_image_body self p w = (Raise e0, w1) ∧
                 is_Exception e0 = true ∧
                 print (failure_line p e0) w1 = (Raise e, w') ∧
                 is_Exception e = true ∧ r = Raise e)) ∧
  (∀ e w1 w', convert_image_body self p w = (Raise e, w1) →
              e ≠ KeyboardInterrupt →
              print (failure_line p e) w1 = (Ret tt, w') →
              convert_image self p w = (Ret false, w') ∧
              w' = mkWorld (fs w1) (stdout w1 ++ [failure_line p e]) (sigint w1)) ∧
  (∀ e w1 e' w', convert_image_body self p w = (Raise e, w1) →
                 e ≠ KeyboardInterrupt →
                 print (failure_line p e) w1 = (Raise e', w') →
                 convert_image self p w = (Raise e', w')) ∧
  (∀ w1, convert_image_body self p w = (Ret true, w1) →
         convert_image self p w = (Ret true, w1)) ∧
  (sigint w = None →
   (∀ e v, is_Exception e = true → ∃ v', print (failure_line p e) v = (Ret tt, v')) →
   ∃ b w', convert_image self p w = (Ret b, w')).
Proof.
  assert (Hcaught : ∀ e w1, convert_image_body self p w = (Raise e, w1) →
            e ≠ KeyboardInterrupt →
            is_Exception e = true ∧
            convert_image self p w
            = (print (failure_line p e) ;; ret false) w1).
  { intros e w1 Hbody He. unfold convert_image, try_except. rewrite Hbody.
    destruct (tame_convert_image_body _ _ _ _ _ Hbody) as [_ Hr].
    destruct (Hr e eq_refl) as [Hex|[? _]]; [|done].
    by rewrite Hex. }
  split; [|split; [|split; [|split]]].
  - intros r w' H.
    destruct (convert_image_outcome _ _ _ _ _ H)
      as [?|[?|(e0 & w1 & e & Hb & He0 & Hp & _ & He & ->)]]; auto.
    right; right. eauto 10.
  - intros e w1 w' Hbody He Hp. destruct (Hcaught e w1 Hbody He) as [_ ->].
    rewrite (bind_ret_run _ _ _ _ _ Hp). split; [done|].
    by apply print_inv in Hp as [[_ ->]|(? & [=] & _)].
  - intros e w1 e' w' Hbody He Hp. destruct (Hcaught e w1 Hbody He) as [_ ->].
    by rewrite (bind_raise_run _ _ _ _ _ Hp).
  - intros w1 Hbody. unfold convert_image, try_except. by rewrite Hbody.
  - intros Hw Hprint. destruct (convert_image self p w) as [r w'] eqn:H.
    destruct (convert_image_outcome _ _ _ _ _ H)
      as [[b ->]|[[_ ?]|(e0 & w1 & e & _ & He0 & Hp & _)]]; [eauto|done|].
    destruct (Hprint e0 w1 He0) as [v' Hv']. congruence.
Qed.

End Batch.

(** In the calm environment nothing but the interrupt ends a batch. *)

Section BatchCalm.

Context `{codec : Codec}.

Existing Instance calm.

Lemma print_calm (line : string) (w : World) :
  print line w = (Ret tt, mkWorld (fs w) (stdout w ++ [line]) (sigint w)).
Proof. done. Qed.

Lemma convert_image_outcome_calm self p w r w' :
  convert_image self p w = (r, w') →
  (∃ b, r = Ret b) ∨ (r = Raise KeyboardInterrupt ∧ sigint w ≠ None).
Proof.
  intros H.
  destruct (convert_image_outcome _ _ _ _ _ H)
    as [?|[?|(e0 & w1 & e & _ & _ & Hp & _)]]; auto.
  by rewrite print_calm in Hp.
Qed.

Lemma convert_each_outcome_calm self images w r w' :
  convert_each self images w = (r, w') →
  (∃ outcomes, r = Ret outcomes ∧ length outcomes = length images) ∨
  (r = Raise KeyboardInterrupt ∧ sigint w ≠ None).
Proof.
  intros H.
  destruct (convert_each_outcome _ _ _ _ _ H)
    as [?|[?|(e & line & v & _ & _ & Hp)]]; auto.
  by rewrite print_calm in Hp.
Qed.


(** C1. When discovery finds a non-empty list of images, the statistics
    [convert_all] returns have [total] the number of files found, and
    [converted] and [failed] the numbers of files whose conversion returned
    true and false, each file counted once in one of the two; so
    [total = converted + failed].  [convert_all] does return them, unless
    the user's interrupt ends the batch.  Stated of the
    environment in which no call meets a fault ([calm]). *)
Theorem convert_all_counts (self : ImageConverter) (w w1 : World) (images : list Path) :
  find_images self w = (Ret images, w1) →
  images ≠ [] →
  (∃ st w' w2 outcomes,
     convert_all self w = (Ret st, w') ∧
     fs w2 = fs w1 ∧ sigint w2 = sigint w1 ∧
     convert_each self images w2 = (Ret outcomes, w') ∧
     length outcomes = length images ∧
     total st = Z.of_nat (length images) ∧
     converted st = count true outcomes ∧
     failed st = count false outcomes ∧
     total st = converted st + failed st) ∨
  (sigint w ≠ None ∧ ∃ w', convert_all self w = (Raise KeyboardInterrupt, w')).
Proof.
  intros H Hne. unfold convert_all. rewrite (bind_ret_run _ _ _ _ _ H).
  destruct (find_images_inv _ _ _ _ H) as (_ & _ & _ & _ & Hsig).
  destruct images as [|p images]; [done|]. clear Hne.
  rewrite !bind_print.
  match goal with |- context [bind (convert_loop _ _ _ _) _ ?w] => set (w2 := w) end.
  unfold bind. rewrite convert_loop_each.
  destruct (convert_each self (p :: images) w2) as [r w'] eqn:Heach.
  destruct (convert_each_outcome_calm _ _ _ _ _ Heach) as [(bs & -> & Hlen)|[-> Hw2]].
  - left. exists (mkStats (Z.of_nat (length (p :: images)))
                    (0 + count true bs) (0 + count false bs)), w', w2, bs.
    unfold ret. simpl fst. simpl snd. simpl total. simpl converted. simpl failed.
    repeat split; try done; try lia.
    all: pose proof (count_total bs) as Hc; rewrite Hlen in Hc; simpl in *; lia.
  - right. split; [|eauto]. intros Hw. apply Hw2. simpl. auto.
Qed.

End BatchCalm.

(** ** The exit status (claim C6) *)

Section Main.

Context `{env : Env} `{codec : Codec}.

(** What [convert_all] returns, read back from its result. *)
Lemma convert_all_inv self w st w' :
  convert_all self w = (Ret st, w') →
  ∃ images w1 w2 outcomes,
    find_images self w = (Ret images, w1) ∧
    fs w2 = fs w1 ∧
    convert_each self images w2 = (Ret outcomes, w') ∧
    length outcomes = length images ∧
    st = mkStats (Z.of_nat (length images)) (count true outcomes) (count false outcomes).
Proof.
  unfold convert_all. intros H. step_in H; [|done].
  rename a into images. exists images, w0.
  destruct images as [|p images].
  - printed H. step_in H.
    match goal with |- ∃ _ _, _ ∧ _ ∧ _ = (_, ?w) ∧ _ => exists w, [] end.
    repeat split; done.
  - do 5 printed H.
    match type of H with bind _ _ ?w = _ => set (w2 := w) in * end.
    step_in H; [|done]. step_in H.
    rewrite convert_loop_each in Hrun0.
    destruct (convert_each self (p :: images) w2) as [r w3] eqn:Heach.
    destruct (convert_each_outcome _ _ _ _ _ Heach)
      as [(bs & -> & Hlen)|[[-> _]|(? & ? & ? & -> & _)]]; [|done|done].
    simplify_eq. exists w2, bs. repeat split; done.
Qed.

Lemma convert_all_stats self w st w' :
  convert_all self w = (Ret st, w') →
  total st = converted st + failed st ∧ 0 ≤ converted st ∧ 0 ≤ failed st.
Proof.
  intros H. apply convert_all_inv in H as (images & w1 & w2 & bs & _ & _ & _ & Hlen & ->).
  simpl. pose proof (count_total bs). pose proof (count_nonneg true bs).
  pose proof (count_nonneg false bs). lia.
Qed.

End Main.

(** In the calm environment [main] goes by what its block comes to. *)

Section MainCalm.

Context `{codec : Codec}.

Existing Instance calm.

(** The [try] block of [main], step by step. *)
Lemma main_body_run args w :
  main_body args w =
  match ImageConverter_init (arg_input_folder args) (arg_output args)
          (arg_quality args) w with
  | (Raise e, w1) => (Raise e, w1)
  | (Ret self, w1) =>
      match convert_all self w1 with
      | (Raise e, w2) => (Raise e, w2)
      | (Ret st, w2) =>
          let w3 := mkWorld (fs w2)
                      (stdout w2 ++ [dashes 50] ++ ["Conversion complete!"]
                         ++ ["Total files: " +:+ pretty (total st)]
                         ++ ["Successfully converted: " +:+ pretty (converted st)]
                         ++ ["Failed: " +:+ pretty (failed st)])
                      (sigint w2) in
          if 0 <? failed st then (Raise (SystemExit 1), w3) else (Ret tt, w3)
      end
  end.
Proof.
  unfold main_body. unfold bind at 1.
  destruct (ImageConverter_init _ _ _ w) as [[self|e] w1]; [|done].
  unfold bind at 1. destruct (convert_all self w1) as [[st|e] w2]; [|done].
  rewrite !bind_print. simpl. rewrite <- !app_assoc. simpl.
  by destruct (0 <? failed st).
Qed.

(** The [except] clauses of [main] take every [Exception] and the
    interrupt, print one line and exit with status 1. *)
Lemma main_handles (e : exn) ret_ty :
  is_Exception e = true ∨ e = KeyboardInterrupt →
  ∃ line,
    (match e with
     | FileNotFoundError _ | NotADirectoryError _ =>
         Some (print ("Error: " +:+ exn_str e) ;; sys_exit 1)
     | KeyboardInterrupt =>
         Some (print "
Conversion cancelled by user." ;; sys_exit 1)
     | _ =>
         if is_Exception e
         then Some (print ("Unexpected error: " +:+ exn_str e) ;; sys_exit 1)
         else None
     end : option (M ret_ty)) = Some (print line ;; sys_exit 1) ∧
    (e = KeyboardInterrupt → line = "
Conversion cancelled by user.").
Proof.
  intros [He| ->]; [|eauto].
  destruct e; simpl in *; try done; eexists; split; done.
Qed.

Lemma main_quality_ok args w :
  0 ≤ arg_quality args ≤ 100 →
  main args w = try_except (main_body args) (fun e =>
      match e with
      | FileNotFoundError _ | NotADirectoryError _ =>
          Some (print ("Error: " +:+ exn_str e) ;; sys_exit 1)
      | KeyboardInterrupt =>
          Some (print "
Conversion cancelled by user." ;; sys_exit 1)
      | _ =>
          if is_Exception e
          then Some (print ("Unexpected error: " +:+ exn_str e) ;; sys_exit 1)
          else None
      end) w.
Proof.
  intros Hq. unfold main.
  replace ((0 <=? arg_quality args) && (arg_quality args <=? 100)) with true; [done|].
  symmetry. apply andb_true_iff. split; apply Z.leb_le; lia.
Qed.

Lemma tame_main_body_raise args w e w1 :
  main_body args w = (Raise e, w1) →
  e = SystemExit 1 ∨ is_Exception e = true ∨ e = KeyboardInterrupt.
Proof.
  rewrite main_body_run.
  destruct (ImageConverter_init _ _ _ w) as [[self|e0] w0] eqn:Hinit.
  - destruct (convert_all self w0) as [[st|e1] w2] eqn:Hall.
    + simpl. destruct (0 <? failed st); intros [= <- <-]. by left.
    + intros [= <- <-].
      destruct (tame_convert_all _ _ _ _ Hall) as [_ Hr].
      destruct (Hr _ eq_refl) as [?|[? _]]; auto.
  - intros [= <- <-].
    destruct (tame_ImageConverter_init _ _ _ _ _ _ Hinit) as [_ Hr].
    destruct (Hr _ eq_refl) as [?|[? _]]; auto.
Qed.

(** With the quality in range, [main] ends with status 0 when its block
    returns and with status 1 when anything is raised in it. *)
Lemma run_main_status args w :
  0 ≤ arg_quality args ≤ 100 →
  match main_body args w with
  | (Ret _, w1) => run_main args w = (0, w1)
  | (Raise e, w1) =>
      fst (run_main args w) = 1 ∧ fs (snd (run_main args w)) = fs w1 ∧
      (e = KeyboardInterrupt →
       stdout (snd (run_main args w)) = stdout w1 ++ ["
Conversion cancelled by user."])
  end.
Proof.
  intros Hq. unfold run_main. rewrite (main_quality_ok _ _ Hq). unfold try_except.
  destruct (main_body args w) as [[[]|e] w1] eqn:Hbody; [done|].
  destruct (tame_main_body_raise _ _ _ _ Hbody) as [->|He]; [done|].
  destruct (main_handles e unit He) as (line & -> & Hline).
  rewrite bind_print. simpl. repeat split; try done.
  intros Hki. by rewrite (Hline Hki).
Qed.

End MainCalm.

Section ExitStatus.

Context `{codec : Codec}.

Existing Instance calm.

Lemma run_main_bad_quality args w :
  ¬ (0 ≤ arg_quality args ≤ 100) →
  run_main args w =
    (1, mkWorld (fs w) (stdout w ++ ["Error: Quality must be between 0 and 100"])
          (sigint w)).
Proof.
  intros Hq. unfold run_main, main.
  replace ((0 <=? arg_quality args) && (arg_quality args <=? 100)) with false; [done|].
  symmetry. apply andb_false_iff.
  destruct (Z.leb_spec 0 (arg_quality args)); [|by left].
  destruct (Z.leb_spec (arg_quality args) 100); [|by right]. lia.
Qed.


End ExitStatus.

(** ** Making the output folder *)

Section Mkdir.

Context `{env : Env}.

Lemma stat_None_lookup p w : stat p w = None → fs w !! p = None ∧ p ≠ [] ∧ is_root p = false.
Proof.
  unfold stat. destruct (bool_decide (p = [])) eqn:Hn, (is_root p); simpl; try done.
  intros ->. apply bool_decide_eq_false in Hn. done.
Qed.

Lemma stat_lookup p w :
  p ≠ [] → is_root p = false → stat p w = fs w !! p.
Proof.
  intros Hn Hr. unfold stat. rewrite Hr.
  by rewrite bool_decide_eq_false_2.
Qed.

Lemma stat_special p w : p = [] ∨ is_root p = true → stat p w = Some Dir.
Proof.
  unfold stat. intros [->| ->]; [done|]. by rewrite orb_true_r.
Qed.

(** If the tree agrees at [p], so does [stat]. *)
Lemma stat_agree p w w' : fs w' !! p = fs w !! p → stat p w' = stat p w.
Proof. unfold stat. by intros ->. Qed.

Lemma parent_prefix p : parent p `prefix_of` p.
Proof.
  unfold parent. destruct (is_root p); [done|].
  destruct (decide (p = [])) as [->|Hp]; [done|].
  exists [List.last p ""]. by apply app_removelast_last.
Qed.


Lemma parent_length p : p ≠ [] → is_root p = false → S (length (parent p)) = length p.
Proof.
  intros Hn Hr. unfold parent. rewrite Hr.
  rewrite (app_removelast_last "" Hn) at 2. rewrite length_app. simpl. lia.
Qed.

Lemma new_dirs_only_refl p w w' :
  fs w' = fs w → stdout w' = stdout w → new_dirs_only p w w'.
Proof. intros Hf Ho. split; [done|]. intros q. left. by rewrite Hf. Qed.

Lemma new_dirs_only_trans p p' w w1 w2 :
  p `prefix_of` p' →
  new_dirs_only p w w1 → new_dirs_only p' w1 w2 → new_dirs_only p' w w2.
Proof.
  intros Hp [Ho1 H1] [Ho2 H2]. split; [congruence|]. intros q.
  destruct (H1 q) as [E1|(N1 & D1 & P1)], (H2 q) as [E2|(N2 & D2 & P2)].
  - left. congruence.
  - right. repeat split; congruence.
  - right. repeat split; [done|congruence|]. by etrans.
  - congruence.
Qed.

(** [os.mkdir], case by case. *)
Lemma os_mkdir_inv p w r w' :
  os_mkdir p w = (r, w') →
  stdout w' = stdout w ∧
  ((r = Raise KeyboardInterrupt ∧ fs w' = fs w) ∨
   (∃ f v, r = Raise (fault_exn f) ∧ fs w' = fs w ∧
           fault_of (sys_mkdir p) v = Some f) ∨
   (∃ x msg, stat p w = Some x ∧ r = Raise (FileExistsError msg) ∧ fs w' = fs w) ∨
   (∃ msg, stat p w = None ∧ stat (parent p) w = None ∧
           r = Raise (FileNotFoundError msg) ∧ fs w' = fs w) ∨
   (∃ msg data, stat p w = None ∧ stat (parent p) w = Some (File data) ∧
                r = Raise (NotADirectoryError msg) ∧ fs w' = fs w) ∨
   (stat p w = None ∧ stat (parent p) w = Some Dir ∧
    r = Ret tt ∧ fs w' = <[p := Dir]> (fs w))).
Proof.
  unfold os_mkdir. intros H. step_in H.
  2:{ apply checkpoint_inv in Hrun as (s & -> & [[=]|[[= ->] _]] & _).
      subst. split; [done|]. by left. }
  apply checkpoint_inv in Hrun as (s & -> & _).
  step_in H.
  2:{ apply attempt_inv in Hrun as (-> & [[[=] _]|(f & [= ->] & Hf)]).
      subst. split; [done|]. right; left. eauto 10. }
  apply attempt_inv in Hrun as (-> & _).
  rewrite !(stat_fs _ (mkWorld (fs w) (stdout w) s) w eq_refl) in H.
  destruct (stat p w) as [x|] eqn:Hp.
  { simplify_eq. split; [done|]. do 2 right; left. eauto. }
  destruct (stat (parent p) w) as [[|data]|] eqn:Hpp; simplify_eq; (split; [done|]).
  + do 5 right. by repeat split.
  + do 4 right. left. eauto 10.
  + do 3 right. left. eauto 10.
Qed.

Lemma new_dirs_only_insert p w w' :
  stat p w = None → fs w' = <[p:=Dir]> (fs w) → stdout w' = stdout w →
  new_dirs_only p w w'.
Proof.
  intros Hp Hf Hout. split; [done|]. intros q.
  destruct (decide (q = p)) as [->|Hq].
  - right. apply stat_None_lookup in Hp as (Hp & _).
    by rewrite Hf, lookup_insert_eq.
  - left. rewrite Hf. by apply lookup_insert_ne.
Qed.

(** The second half of the handler for [OSError]: nothing changes. *)
Lemma exist_ok_clause p exist_ok e w r w' :
  (d <- is_dir p ;;
   if (negb exist_ok || negb d)%bool then raise e else ret tt) w = (r, w') →
  w' = w ∧
  (r = Raise e ∨ (∃ f, r = Raise (fault_exn f) ∧ fault_of (sys_is_dir p) w = Some f) ∨
   (r = Ret tt ∧ exist_ok = true ∧ stat p w = Some Dir)) ∧
  (exist_ok = true → stat p w = Some Dir → fault_of (sys_is_dir p) w = None →
   r = Ret tt).
Proof.
  intros H. step_in H.
  2:{ subst. apply is_dir_inv in Hrun as (-> & [[[=] _]|(f & [= ->] & Hf)]).
      split; [done|]. split; [eauto|]. congruence. }
  apply is_dir_inv in Hrun as (-> & [[[= ->] Hf]|(f & [=] & _)]).
  destruct exist_ok; simpl in H.
  - destruct (stat p w) as [[|?]|]; simpl in H; step_in H;
      (split; [done|]); split; auto; done.
  - step_in H. split; [done|]. split; auto; done.
Qed.

(** [Path.mkdir] adds directories only, at the path or above it. *)
Lemma Path_mkdir_rec_new_dirs fuel p parents exist_ok w r w' :
  Path_mkdir_rec fuel p parents exist_ok w = (r, w') → new_dirs_only p w w'.
Proof.
  revert p parents exist_ok w r w'.
  induction fuel as [|fuel IH]; intros p parents exist_ok w r w' H; simpl in H;
    unfold try_except in H;
    destruct (os_mkdir p w) as [r0 w0] eqn:Hos;
    apply os_mkdir_inv in Hos
      as (Ho & [[-> Hf]|[(f & v & -> & Hf & Hv)|[(x & msg & Hp & -> & Hf)
               |[(msg & Hp & Hpp & -> & Hf)
               |[(msg & data & Hp & Hpp & -> & Hf)|(Hp & Hpp & -> & Hf)]]]]]);
    simpl in H;
    try rewrite fault_exn_OSError in H;
    try (destruct f; simpl in H);
    try (apply exist_ok_clause in H as (-> & _ & _); by apply new_dirs_only_refl);
    try (simplify_eq; by apply new_dirs_only_refl);
    try (simplify_eq; by apply new_dirs_only_insert).
  - destruct (_ || _)%bool; step_in H; by apply new_dirs_only_refl.
  - destruct (_ || _)%bool; [step_in H; by apply new_dirs_only_refl|].
    apply (new_dirs_only_trans p p w w0 w'); [done|by apply new_dirs_only_refl|].
    step_in H.
    + apply IH in Hrun. apply IH in H.
      apply (new_dirs_only_trans (parent p) p w0 w1 w');
        [apply parent_prefix|done|done].
    + subst. apply IH in Hrun.
      apply (new_dirs_only_trans (parent p) p w0 w' w');
        [apply parent_prefix|done|]. by apply new_dirs_only_refl.
Qed.

Lemma creatable_fs p w w' : fs w' = fs w → creatable p w → creatable p w'.
Proof.
  intros Hf Hc q data Hq. rewrite (stat_fs q w' w Hf). by apply Hc.
Qed.

Lemma creatable_prefix p p' w : p' `prefix_of` p → creatable p w → creatable p' w.
Proof. intros Hp Hc q data Hq. apply Hc. by etrans. Qed.

Lemma unhindered_prefix p p' : p' `prefix_of` p → unhindered p → unhindered p'.
Proof. intros Hp Hu q v Hq. apply Hu. by etrans. Qed.

Lemma stat_insert_Dir p w w' :
  fs w' = <[p:=Dir]> (fs w) → stat p w' = Some Dir.
Proof.
  intros Hf. unfold stat. destruct (_ || _)%bool; [done|].
  by rewrite Hf, lookup_insert_eq.
Qed.

(** Without [parents], under an existing directory. *)
Lemma Path_mkdir_rec_leaf fuel p exist_ok w r w' :
  (∀ v, fault_of (sys_mkdir p) v = None) →
  stat p w = None → stat (parent p) w = Some Dir →
  Path_mkdir_rec fuel p false exist_ok w = (r, w') →
  (r = Ret tt ∧ stat p w' = Some Dir) ∨ r = Raise KeyboardInterrupt.
Proof.
  intros Hu Hp Hpp H.
  destruct fuel; simpl in H; unfold try_except in H;
    destruct (os_mkdir p w) as [r0 w0] eqn:Hos;
    apply os_mkdir_inv in Hos
      as (Ho & [[-> Hf]|[(f & v & -> & Hf & Hv)|[(x & msg & Hp' & -> & Hf)
               |[(msg & Hp' & Hpp' & -> & Hf)
               |[(msg & data & Hp' & Hpp' & -> & Hf)|(Hp' & Hpp' & -> & Hf)]]]]]);
    simpl in H; try (by rewrite Hu in Hv); simplify_eq; auto.
  all: left; split; [done|]; by eapply stat_insert_Dir.
Qed.

(** Where a directory can be made and folder creation meets no fault,
    [Path.mkdir(parents=True, exist_ok=True)] makes it, with fuel for the
    length of the path; only the interrupt stops it. *)
Lemma Path_mkdir_rec_creates fuel p w r w' :
  (length p ≤ fuel)%nat → unhindered p → creatable p w →
  Path_mkdir_rec fuel p true true w = (r, w') →
  (r = Ret tt ∧ stat p w' = Some Dir) ∨ r = Raise KeyboardInterrupt.
Proof.
  revert p w r w'.
  induction fuel as [|fuel IH]; intros p w r w' Hlen Hu Hc H; simpl in H;
    unfold try_except in H;
    destruct (os_mkdir p w) as [r0 w0] eqn:Hos;
    apply os_mkdir_inv in Hos
      as (Ho & [[-> Hf]|[(f & v & -> & Hf & Hv)|[(x & msg & Hp & -> & Hf)
               |[(msg & Hp & Hpp & -> & Hf)
               |[(msg & data & Hp & Hpp & -> & Hf)|(Hp & Hpp & -> & Hf)]]]]]);
    simpl in H.
  all: try (exfalso; destruct (Hu p v) as [Hm _]; [done|]; congruence).
  all: try (simplify_eq; by right).
  all: try (simplify_eq; left; split; [done|]; by eapply stat_insert_Dir).
  all: try (exfalso; by apply (Hc (parent p) data (parent_prefix p))).
  all: try (assert (Hx : x = Dir)
              by (destruct x as [|data]; [done|]; exfalso; by apply (Hc p data));
            subst x;
            apply (exist_ok_clause p true (FileExistsError msg) w0 r w') in H
              as (-> & _ & Hret);
            rewrite Hret;
            [left; split; [done|]; by rewrite (stat_fs p w0 w Hf)
            |done|by rewrite (stat_fs p w0 w Hf)|by apply (Hu p w0)]).
  - (* no fuel: the path is empty, and the working directory is there *)
    apply stat_None_lookup in Hp as (_ & Hn & _).
    destruct p; [done|]. simpl in Hlen. lia.
  - destruct (stat_None_lookup _ _ Hp) as (_ & Hn & Hr).
    pose proof (parent_length p Hn Hr) as Hpl.
    rewrite bool_decide_eq_false_2 in H by (intros Heq; rewrite Heq in Hpl; lia).
    simpl in H.
    assert (Hcp : creatable (parent p) w0).
    { apply (creatable_fs _ w); [done|].
      apply (creatable_prefix p); [apply parent_prefix|done]. }
    assert (Hup : unhindered (parent p))
      by (apply (unhindered_prefix p); [apply parent_prefix|done]).
    step_in H.
    + pose proof (Path_mkdir_rec_new_dirs _ _ _ _ _ _ _ Hrun) as [_ Hnew].
      apply IH in Hrun as [[_ Hdir]|[=]]; [|lia|done|done].
      apply (Path_mkdir_rec_leaf fuel p true w1 r w'); [|  |done|done].
      { intros v. by apply (Hu p v). }
      (* making the parent left [p] itself absent *)
      rewrite <- Hp. rewrite <- (stat_fs p w0 w Hf). apply stat_agree.
      destruct (Hnew p) as [?|(_ & _ & Hpre)]; [done|].
      apply prefix_length in Hpre. lia.
    + subst. apply IH in Hrun as [[[=] _]| ->]; [by right|lia|done|done].
Qed.

End Mkdir.

(** ** One conversion, stage by stage *)

Section Pipeline.

Context `{env : Env} `{codec : Codec}.

Lemma Image_open_inv p w r w' :
  Image_open p w = (r, w') →
  fs w' = fs w ∧ stdout w' = stdout w ∧
  (∀ img, r = Ret img →
     ∃ data, stat p w = Some (File data) ∧ decode data = inr (mode img, pixels img)) ∧
  (∀ data msg, stat p w = Some (File data) → decode data = inl msg →
     ∀ img, r ≠ Ret img).
Proof.
  unfold Image_open. intros H. step_in H.
  2:{ apply checkpoint_inv in Hrun as (s & -> & [[=]|[[= ->] _]] & _). subst.
      repeat split; try done. }
  apply checkpoint_inv in Hrun as (s & -> & _).
  step_in H.
  2:{ apply attempt_inv in Hrun as (-> & _). subst. repeat split; try done. }
  apply attempt_inv in Hrun as (-> & _).
  rewrite (stat_fs p (mkWorld (fs w) (stdout w) s) w eq_refl) in H.
  destruct (stat p w) as [[|data]|] eqn:Hp;
    [|destruct (decode data) as [msg|[m px]] eqn:Hd|]; simplify_eq;
    repeat split; try done.
  - intros img [= <-]. eauto.
  - intros ? ? [= <-]. by rewrite Hd.
Qed.

Lemma Image_convert_inv img target w r w' :
  Image_convert img target w = (r, w') →
  fs w' = fs w ∧ stdout w' = stdout w ∧
  (∀ img', r = Ret img' →
     ∃ px, convertMode (mode img) (pixels img) target = inr px ∧
           img' = mkImage target px).
Proof.
  unfold Image_convert. intros H. step_in H.
  - apply checkpoint_inv in Hrun as (s & -> & _).
    destruct (convertMode _ _ _) as [msg|px]; step_in H; repeat split; try done.
    intros img' [= <-]. eauto.
  - apply checkpoint_inv in Hrun as (s & -> & _). subst. repeat split; done.
Qed.

(** The mode handling of the code does what the specification's table
    says. *)
Lemma handle_mode_inv img w r w' :
  handle_mode img w = (r, w') →
  fs w' = fs w ∧ stdout w' = stdout w ∧
  (∀ img', r = Ret img' → spec_normalize img = inr img').
Proof.
  unfold handle_mode, spec_normalize, spec_target_mode. intros H.
  destruct (String.eqb (mode img) "P");
    [|destruct (String.eqb (mode img) "LA");
      [|destruct (String.eqb (mode img) "RGB");
        [|destruct (String.eqb (mode img) "RGBA")]]].
  all: try (apply Image_convert_inv in H as (Hf & Ho & Himg);
            repeat split; try done;
            intros img' Hr; destruct (Himg img' Hr) as (px & -> & ->); done).
  all: step_in H; repeat split; try done; by intros ? [= <-].
Qed.

(** [open(p, "w+b")], case by case. *)
Lemma open_wb_inv p w r w' :
  open_wb p w = (r, w') →
  stdout w' = stdout w ∧ sigint w' = sigint w ∧
  ((∃ e, r = Raise e ∧ fs w' = fs w) ∨
   (r = Ret tt ∧ stat p w ≠ Some Dir ∧ fs w' = <[p := File []]> (fs w))).
Proof.
  unfold open_wb. intros H. step_in H.
  2:{ apply attempt_inv in Hrun as (-> & _). subst. eauto 10. }
  apply attempt_inv in Hrun as (-> & _).
  destruct (stat p w) as [[|old]|] eqn:Hp;
    [simplify_eq; eauto 10| |];
    (destruct (stat (parent p) w) as [[|?]|]; simplify_eq;
     (split; [done|]); (split; [done|]); [right|left; eauto|left; eauto]);
    by repeat split.
Qed.

(** What the handler leaves in the file that was opened. *)
Lemma webp_save_handler_inv img p q method w r w' :
  webp_save_handler img p q method w = (r, w') →
  stdout w' = stdout w ∧ sigint w' = sigint w ∧
  ((r = Ret tt ∧ ∃ data, encodeWebP (mode img) (pixels img) q method = inr data ∧
                         fs w' = <[p := File data]> (fs w)) ∨
   (∃ e, r = Raise e ∧ is_Exception e = true ∧
         ((∃ msg, encodeWebP (mode img) (pixels img) q method = inl msg ∧
                  fs w' = fs w) ∨
          (∃ data n, encodeWebP (mode img) (pixels img) q method = inr data ∧
                     fs w' = <[p := File (take n data)]> (fs w))))).
Proof.
  unfold webp_save_handler. intros H.
  destruct (encodeWebP _ _ _ _) as [msg|data] eqn:He.
  - step_in H. split; [done|]. split; [done|]. right. eauto 10.
  - unfold write_file in H.
    destruct (fault_of _ _) as [f|]; simplify_eq; (split; [done|]); (split; [done|]).
    + right. eexists. split; [done|]. split; [apply fault_exn_Exception|].
      right. eauto.
    + left. eauto.
Qed.

(** [fp.close()] leaves the file as it is, or cut short. *)
Lemma fp_close_inv p w r w' :
  fp_close p w = (r, w') →
  stdout w' = stdout w ∧ sigint w' = sigint w ∧
  ((r = Ret tt ∧ w' = w) ∨
   (∃ e, r = Raise e ∧ is_Exception e = true ∧
         (fs w' = fs w ∨
          ∃ data n, fs w !! p = Some (File data) ∧
                    fs w' = <[p := File (take n data)]> (fs w)))).
Proof.
  unfold fp_close. intros H.
  destruct (fault_of _ _) as [f|]; [|simplify_eq; auto].
  destruct (fs w !! p) as [[|data]|] eqn:Hp; simplify_eq;
    (split; [done|]); (split; [done|]); right;
    (eexists; split; [done|]; split; [apply fault_exn_Exception|]); eauto.
Qed.

Lemma os_remove_inv p w r w' :
  os_remove p w = (r, w') →
  stdout w' = stdout w ∧ sigint w' = sigint w ∧
  ((r = Ret tt ∧ fs w' = delete p (fs w)) ∨
   (∃ f, r = Raise (fault_exn f) ∧ fs w' = fs w)).
Proof.
  unfold os_remove. intros H. step_in H.
  - apply attempt_inv in Hrun as (-> & _). simplify_eq. auto.
  - apply attempt_inv in Hrun as (-> & [[[=] _]|(f & [= ->] & _)]). subst. eauto 10.
Qed.

(** The removal of a file that [save] created. *)
Lemma remove_created_inv p w r w' :
  try_except (os_remove p) (fun e' =>
    match e' with
    | PermissionError _ => Some (ret tt)
    | _ => None
    end) w = (r, w') →
  stdout w' = stdout w ∧ sigint w' = sigint w ∧
  (fs w' = fs w ∨ fs w' = delete p (fs w)) ∧
  (∀ e, r = Raise e → is_Exception e = true).
Proof.
  intros H. apply try_except_inv in H
    as [(a & H1 & ->)|[(e & w1 & k & H1 & Hk & H)|(e & H1 & Hk & ->)]];
    apply os_remove_inv in H1 as (Ho & Hs & [[[=] Hf]|(f & [=] & Hf)]); subst.
  - split; [done|]. split; [done|]. split; [auto|]. by intros.
  - destruct f; simpl in Hk; simplify_eq. step_in H.
    split; [done|]. split; [done|]. split; [auto|]. by intros.
  - split; [done|]. split; [done|]. split; [auto|].
    intros ? [= <-]. apply fault_exn_Exception.
Qed.

Lemma Image_save_inv img p q method w r w' :
  Image_save img p q method w = (r, w') →
  stdout w' = stdout w ∧
  ((r = Ret tt ∧ stat p w ≠ Some Dir ∧
    ∃ data, encodeWebP (mode img) (pixels img) q method = inr data ∧
            fs w' = <[p := File data]> (fs w)) ∨
   (∃ e, r = Raise e ∧
      (fs w' = fs w ∨
       (stat p w ≠ Some Dir ∧ is_Exception e = true ∧
        ((∃ content,
            written_part (encodeWebP (mode img) (pixels img) q method) content ∧
            fs w' = <[p := File content]> (fs w)) ∨
         (fs w' = delete p (fs w) ∧
          (stat p w = None ∨ ∃ f u, fault_of (sys_path_exists p) u = Some f))))))).
Proof.
  unfold Image_save. intros H. step_in H.
  2:{ apply checkpoint_inv in Hrun as (s & -> & _). subst.
      split; [done|]. right. eauto. }
  apply checkpoint_inv in Hrun as (s & -> & _).
  step_in H; [|done]. unfold os_path_exists in Hrun. simplify_eq.
  match type of H with context [negb ?b] => set (present := b) in * end.
  assert (Hpres : present = false →
            stat p w = None ∨ ∃ f u, fault_of (sys_path_exists p) u = Some f).
  { unfold present. destruct (fault_of _ _) as [f|] eqn:Hfault; [eauto|].
    intros Hb. apply bool_decide_eq_false in Hb. left.
    rewrite (stat_fs p (mkWorld (fs w) (stdout w) s) w eq_refl) in Hb.
    destruct (stat p w); [|done]. exfalso. eauto. }
  clearbody present.
  step_in H.
  2:{ subst. apply open_wb_inv in Hrun as (Ho & _ & [(e' & [= <-] & Hf)|([=] & _)]).
      split; [done|]. right. eauto. }
  apply open_wb_inv in Hrun as (Ho1 & Hs1 & [(e' & [=] & _)|(_ & Hdir & Hf1)]).
  simpl in Ho1, Hf1.
  rewrite (stat_fs p (mkWorld (fs w) (stdout w) s) w eq_refl) in Hdir.
  assert (Hcut : ∀ (x : list byte) n m, take n (take m x) = take (n `min` m) x)
    by (intros; apply take_take).
  step_in H.
  - (* the handler returned *)
    apply try_except_inv in Hrun
      as [(ah & H1 & _)|[(eh & wh & k & H1 & Hk & Hh)|(eh & H1 & Hk & [=])]].
    2:{ destruct (is_Exception eh); simplify_eq.
        step_in Hh; [step_in Hh; [step_in Hh|]|]; done. }
    apply webp_save_handler_inv in H1
      as (Ho2 & Hs2 & [(_ & data & Henc & Hf2)|(eh & [=] & _)]).
    assert (Hfw : fs w1 = <[p := File data]> (fs w)).
    { rewrite Hf2, Hf1. by rewrite insert_insert_eq. }
    apply fp_close_inv in H
      as (Ho3 & Hs3 & [[-> ->]|(ec & -> & He & [Hf3|(old & n & Hold & Hf3)])]).
    + split; [congruence|]. left. eauto.
    + split; [congruence|]. right. exists ec. split; [done|]. right.
      split; [done|]. split; [done|]. left. exists data.
      split; [rewrite Henc; exists (length data); by rewrite firstn_all|congruence].
    + rewrite Hfw, lookup_insert_eq in Hold. simplify_eq.
      split; [congruence|]. right. exists ec. split; [done|]. right.
      split; [done|]. split; [done|]. left. eexists.
      split; [rewrite Henc; eexists; reflexivity|].
      by rewrite Hf3, Hfw, insert_insert_eq.
  - (* the handler raised *)
    subst.
    apply try_except_inv in Hrun
      as [(ah & H1 & [=])|[(eh & wh & k & H1 & Hk & Hh)|(eh & H1 & Hk & [= ->])]].
    2:{ apply webp_save_handler_inv in H1
          as (_ & _ & [([=] & _)|(e' & [= <-] & He' & _)]).
        by rewrite He' in Hk. }
    destruct (is_Exception eh) eqn:Heh; simplify_eq.
    apply webp_save_handler_inv in H1
      as (Ho2 & Hs2 & [([=] & _)|(e' & [= <-] & _ & Hleft)]).
    assert (Hpart : ∃ content,
              written_part (encodeWebP (mode img) (pixels img) q method) content ∧
              fs wh = <[p := File content]> (fs w)).
    { destruct Hleft as [(msg & Henc & Hf2)|(data & n & Henc & Hf2)].
      - exists []. rewrite Henc. split; [done|]. by rewrite Hf2, Hf1.
      - exists (take n data). rewrite Henc. split; [simpl; eauto|].
        rewrite Hf2, Hf1. by rewrite insert_insert_eq. }
    clear Hleft. destruct Hpart as (content & Hpart & Hf3).
    step_in Hh.
    2:{ (* closing failed *)
        subst.
        apply fp_close_inv in Hrun
          as (Ho4 & _ & [[[=] _]|(ec & [= <-] & Hec & [Hf4|(old & n & Hold & Hf4)])]).
        - simplify_eq.
          split; [congruence|]. right. eexists. split; [done|]. right.
          split; [done|]. split; [done|]. left. exists content.
          split; [done|congruence].
        - rewrite Hf3, lookup_insert_eq in Hold. simplify_eq.
          split; [congruence|]. right. eexists. split; [done|]. right.
          split; [done|]. split; [done|]. left. eexists.
          split; [|by rewrite Hf4, Hf3, insert_insert_eq].
          unfold written_part in *.
          destruct (encodeWebP _ _ _ _) as [msg|data]; [by subst; rewrite take_nil|].
          destruct Hpart as [m ->]. rewrite Hcut. eauto. }
    apply fp_close_inv in Hrun
      as (Ho4 & _ & [[_ ->]|(ec & [=] & _)]).
    step_in Hh.
    + (* the removal, if any, returned *)
      step_in Hh.
      destruct present; simpl in Hrun.
      * step_in Hrun. split; [congruence|]. right. eexists. split; [done|]. right.
        split; [done|]. split; [done|]. left. eauto.
      * apply remove_created_inv in Hrun as (Ho5 & _ & [Hf5|Hf5] & _).
        -- split; [congruence|]. right. eexists. split; [done|]. right.
           split; [done|]. split; [done|]. left. exists content.
           split; [done|congruence].
        -- split; [congruence|]. right. eexists. split; [done|]. right.
           split; [done|]. split; [done|]. right.
           split; [by rewrite Hf5, Hf3, delete_insert_eq|auto].
    + (* the removal raised *)
      simplify_eq. destruct present; simpl in Hrun; [by step_in Hrun|].
      apply remove_created_inv in Hrun as (Ho5 & _ & [Hf5|Hf5] & Hex).
      * split; [congruence|]. right. eexists. split; [done|]. right.
        split; [done|]. split; [by apply Hex|]. left. exists content.
        split; [done|congruence].
      * split; [congruence|]. right. eexists. split; [done|]. right.
        split; [done|]. split; [by apply Hex|]. right.
        split; [by rewrite Hf5, Hf3, delete_insert_eq|auto].
Qed.

End Pipeline.

Section ConvertImage.

Context `{env : Env} `{codec : Codec}.

(** The [try] block of [convert_image], read back from its result: it
    returns true having written the specification's WebP bytes and printed
    the success line; or it raises with the tree as folder creation left it;
    or it raises after [save] had opened the output. *)
Lemma convert_image_body_inv self p w r w' :
  convert_image_body self p w = (r, w') →
  ∃ r0 w1,
    Path_mkdir (output_folder self) true true w = (r0, w1) ∧
    ((r = Ret true ∧ r0 = Ret tt ∧
      ∃ data bytes,
        stat p w1 = Some (File data) ∧
        spec_webp (quality self) data = inr bytes ∧
        fs w' = <[output_path self p := File bytes]> (fs w1) ∧
        stdout w' = stdout w1 ++ [success_line p] ∧
        stat (output_path self p) w1 ≠ Some Dir) ∨
     (∃ e, r = Raise e ∧ stdout w' = stdout w1 ∧
           (r0 = Ret tt ∨ r0 = Raise e) ∧
           (fs w' = fs w1 ∨
            (r0 = Ret tt ∧ is_Exception e = true ∧ output_touched self p w1 w')))).
Proof.
  unfold convert_image_body. intros H. step_in H.
  2:{ subst. exists (Raise e), w'. split; [done|]. right. exists e. auto 10. }
  destruct a. exists (Ret tt), w0. split; [done|]. clear Hrun.
  step_in H.
  2:{ subst. apply Image_open_inv in Hrun as (Hf & Ho & _).
      right. exists e. auto 10. }
  apply Image_open_inv in Hrun as (Hf1 & Ho1 & Himg & _).
  destruct (Himg a eq_refl) as (data & Hp & Hdec). clear Himg.
  step_in H.
  2:{ subst. apply handle_mode_inv in Hrun as (Hf2 & Ho2 & _).
      right. exists e. split; [done|]. split; [congruence|]. split; [by left|].
      left. congruence. }
  apply handle_mode_inv in Hrun as (Hf2 & Ho2 & Hnorm).
  specialize (Hnorm a0 eq_refl).
  assert (Hspec : spec_webp (quality self) data
                  = encodeWebP (mode a0) (pixels a0) (quality self) 6).
  { unfold spec_webp. rewrite Hdec. destruct a as [m px]. simpl in *.
    by rewrite Hnorm. }
  assert (Hst : ∀ x, stat x w2 = stat x w0) by (intros; apply stat_fs; congruence).
  assert (Htouched : ∀ v,
            stat (output_path self p) w2 ≠ Some Dir →
            ((∃ content,
                written_part (encodeWebP (mode a0) (pixels a0) (quality self) 6) content ∧
                fs v = <[output_path self p := File content]> (fs w2)) ∨
             (fs v = delete (output_path self p) (fs w2) ∧
              (stat (output_path self p) w2 = None ∨
               ∃ f u, fault_of (sys_path_exists (output_path self p)) u = Some f))) →
            output_touched self p w0 v).
  { intros v Hd Hleft. exists data, (mode a), (pixels a), a0.
    split; [done|]. split; [done|]. split; [by destruct a|].
    split; [by rewrite <- Hst|]. by rewrite <- Hst, <- Hf1, <- Hf2. }
  step_in H.
  - apply Image_save_inv in Hrun
      as (Ho3 & [(_ & Hd & bytes & Henc & Hf3)|(e & [=] & _)]).
    step_in H.
    + apply print_inv in Hrun as [[_ ->]|(e & [=] & _)]. step_in H.
      left. split; [done|]. split; [done|].
      exists data, bytes. simpl. rewrite <- (Hst (output_path self p)).
      rewrite Hspec, Hf3, Hf2, Hf1, Ho3, Ho2, Ho1. done.
    + subst. apply print_inv in Hrun as [[[=] _]|(e' & [= <-] & -> & He)].
      right. exists e. split; [done|]. split; [congruence|]. split; [by left|].
      right. split; [done|]. split; [done|]. apply Htouched; [done|].
      left. exists bytes. split; [|done]. rewrite Henc.
      exists (length bytes). by rewrite firstn_all.
  - subst.
    apply Image_save_inv in Hrun
      as (Ho3 & [([=] & _)|(e' & [= <-] & [Hf3|(Hd & He & Hleft)])]).
    + right. exists e. split; [done|]. split; [congruence|]. split; [by left|].
      left. congruence.
    + right. exists e. split; [done|]. split; [congruence|]. split; [by left|].
      right. split; [done|]. split; [done|]. by apply Htouched.
Qed.

(** [convert_image], read back from its result. *)
Lemma convert_image_inv self p w r w' :
  convert_image self p w = (r, w') →
  ∃ r0 w1,
    Path_mkdir (output_folder self) true true w = (r0, w1) ∧
    ((r = Ret true ∧ r0 = Ret tt ∧
      ∃ data bytes,
        stat p w1 = Some (File data) ∧
        spec_webp (quality self) data = inr bytes ∧
        fs w' = <[output_path self p := File bytes]> (fs w1) ∧
        stdout w' = stdout w1 ++ [success_line p] ∧
        stat (output_path self p) w1 ≠ Some Dir) ∨
     (∃ e, ((r = Ret false ∧ is_Exception e = true ∧
             stdout w' = stdout w1 ++ [failure_line p e]) ∨
            (r = Raise KeyboardInterrupt ∧ e = KeyboardInterrupt ∧
             stdout w' = stdout w1) ∨
            (∃ e' v, r = Raise e' ∧ is_Exception e = true ∧
                     is_Exception e' = true ∧ stdout w' = stdout w1 ∧
                     print (failure_line p e) v = (Raise e', v))) ∧
           (r0 = Ret tt ∨ r0 = Raise e) ∧
           (fs w' = fs w1 ∨
            (r0 = Ret tt ∧ is_Exception e = true ∧ output_touched self p w1 w')))).
Proof.
  unfold convert_image. intros H.
  apply try_except_inv in H
    as [(a & H1 & ->)|[(e & w2 & k & H1 & Hk & H)|(e & H1 & Hk & ->)]].
  - apply convert_image_body_inv in H1
      as (r0 & w1 & Hmk & [(-> & Hrest)|(e & [=] & _)]).
    exists r0, w1. split; [done|]. by left.
  - destruct (is_Exception e) eqn:Hex; simplify_eq.
    apply convert_image_body_inv in H1
      as (r0 & w1 & Hmk & [([=] & _)|(e' & [= <-] & Ho & Hr0 & Hfs)]).
    exists r0, w1. split; [done|]. right. exists e.
    assert (Hsame : ∀ v, fs v = fs w2 →
              fs v = fs w1 ∨
              (r0 = Ret tt ∧ is_Exception e = true ∧ output_touched self p w1 v)).
    { intros v Hv. destruct Hfs as [Hf|(-> & _ & Ht)]; [left; congruence|right].
      split; [done|]. split; [done|].
      destruct Ht as (data & m & px & img & Hp & Hdec & Hnorm & Hd & Hleft).
      exists data, m, px, img. rewrite Hv. done. }
    step_in H.
    + apply print_inv in Hrun as [[_ ->]|(? & [=] & _)]. step_in H.
      split; [left; simpl; by rewrite Ho|]. split; [done|]. by apply Hsame.
    + subst. pose proof Hrun as Hp.
      apply print_inv in Hrun as [[[=] _]|(e' & [= <-] & -> & He')].
      split; [do 2 right; exists e0, w2; by repeat split|].
      split; [done|]. by apply Hsame.
  - destruct (is_Exception e) eqn:Hex; simplify_eq.
    destruct (tame_convert_image_body _ _ _ _ _ H1) as [_ Hr].
    destruct (Hr e eq_refl) as [?|[-> _]]; [congruence|].
    apply convert_image_body_inv in H1
      as (r0 & w1 & Hmk & [([=] & _)|(e' & [= <-] & Ho & Hr0 & Hfs)]).
    exists r0, w1. split; [done|]. right. exists KeyboardInterrupt.
    split; [right; by left|]. done.
Qed.

End ConvertImage.

(** ** Names: stem, suffix and the output file name *)

Section Names.

Lemma string_app_nil_r (s : string) : s +:+ "" = s.
Proof.
  induction s as [|a s IH]; [done|].
  change (String a (s +:+ "") = String a s). by rewrite IH.
Qed.

Lemma string_length_app (s t : string) :
  String.length (s +:+ t) = (String.length s + String.length t)%nat.
Proof.
  induction s as [|a s IH]; [done|].
  change (S (String.length (s +:+ t)) = S (String.length s + String.length t)).
  by rewrite IH.
Qed.

Lemma substring_all (s : string) : String.substring 0 (String.length s) s = s.
Proof. induction s as [|a s IH]; [done|]. simpl. by rewrite IH. Qed.

(** Cutting a string at an index and gluing the pieces gives it back. *)
Lemma substring_split (s : string) (i : nat) :
  (i ≤ String.length s)%nat →
  String.substring 0 i s +:+ String.substring i (String.length s - i) s = s.
Proof.
  revert i. induction s as [|a s IH]; intros [|i] Hi; simpl in *; try done; try lia.
  - by rewrite substring_all.
  - change (String a (String.substring 0 i s
                      +:+ String.substring i (String.length s - i) s) = String a s).
    rewrite IH; [done|lia].
Qed.

Lemma substring_app_drop (s t : string) (n : nat) :
  String.substring (String.length s) n (s +:+ t) = String.substring 0 n t.
Proof. induction s as [|a s IH]; [done|]. simpl. exact IH. Qed.

Lemma suffix_index_bound (nm : string) (i : nat) :
  suffix_index nm = Some i → (0 < i ∧ i < String.length nm - 1)%nat.
Proof.
  unfold suffix_index. destruct (rfind dot nm) as [j|]; [|done].
  destruct (0 <? j)%nat eqn:H0; [|done]. destruct (j <? _)%nat eqn:H1; [|done].
  intros [= <-]. apply Nat.ltb_lt in H0, H1. done.
Qed.

(** The last dot of [s.webp] is the one before [webp]. *)
Lemma rfind_dot_webp (s : string) : rfind dot (s +:+ ".webp") = Some (String.length s).
Proof.
  induction s as [|a s IH]; [done|].
  change (rfind dot (String a (s +:+ ".webp")) = Some (S (String.length s))).
  simpl. by rewrite IH.
Qed.

(** A path that ends in an ordinary name is not a root. *)
Lemma is_root_joinpath (d : Path) (n : string) :
  n ≠ "/" → n ≠ "//" → is_root (joinpath d n) = false.
Proof.
  intros H1 H2. unfold joinpath, is_root. apply orb_false_iff.
  split; apply bool_decide_eq_false_2; intros H;
    destruct d as [|x [|y d]]; simpl in H; simplify_eq.
Qed.

Lemma name_joinpath (d : Path) (n : string) :
  n ≠ "/" → n ≠ "//" → name (joinpath d n) = n.
Proof.
  intros H1 H2. unfold name. rewrite is_root_joinpath by done.
  unfold joinpath. by rewrite last_last.
Qed.

Lemma webp_name_not_sep (s : string) : s +:+ ".webp" ≠ "/" ∧ s +:+ ".webp" ≠ "//".
Proof.
  split; intros H; apply (f_equal String.length) in H;
    rewrite string_length_app in H; simpl in H; lia.
Qed.

Lemma name_stem_suffix (p : Path) : name p = stem p +:+ suffix p.
Proof.
  unfold stem, suffix. destruct (suffix_index (name p)) as [i|] eqn:Hi.
  - apply suffix_index_bound in Hi. symmetry. apply substring_split. lia.
  - by rewrite string_app_nil_r.
Qed.

Lemma name_output_path `{codec : Codec} (self : ImageConverter) (p : Path) :
  name (output_path self p) = stem p +:+ ".webp".
Proof.
  unfold output_path, output_filename.
  apply name_joinpath; apply webp_name_not_sep.
Qed.

Lemma is_root_output_path `{codec : Codec} (self : ImageConverter) (p : Path) :
  is_root (output_path self p) = false.
Proof.
  unfold output_path, output_filename.
  apply is_root_joinpath; apply webp_name_not_sep.
Qed.

Lemma parent_output_path `{codec : Codec} (self : ImageConverter) (p : Path) :
  parent (output_path self p) = output_folder self.
Proof.
  unfold parent. rewrite is_root_output_path.
  unfold output_path, joinpath. by rewrite removelast_last.
Qed.

(** X1. The output file keeps the input's name with the extension swapped:
    a name is its stem followed by its suffix, and the output file is named
    by the same stem followed by [.webp], in the output folder. *)
Theorem output_name_swaps_extension `{codec : Codec} (self : ImageConverter) (p : Path) :
  name p = stem p +:+ suffix p ∧
  name (output_path self p) = stem p +:+ ".webp" ∧
  parent (output_path self p) = output_folder self.
Proof.
  split; [apply name_stem_suffix|].
  split; [apply name_output_path|apply parent_output_path].
Qed.

(** The suffix of an output file is [.webp], or nothing when the stem is
    empty. *)
Lemma suffix_output_path `{codec : Codec} (self : ImageConverter) (p : Path) :
  suffix (output_path self p) = ".webp" ∨ suffix (output_path self p) = "".
Proof.
  unfold suffix.
  replace (name (output_path self p)) with (stem p +:+ ".webp")
    by (symmetry; apply name_output_path).
  unfold suffix_index. rewrite rfind_dot_webp.
  destruct (0 <? String.length (stem p))%nat; simpl; [|by right].
  rewrite string_length_app. simpl String.length.
  replace (String.length (stem p) <? (String.length (stem p) + 5 - 1))%nat with true
    by (symmetry; apply Nat.ltb_lt; lia).
  left. replace (String.length (stem p) + 5 - String.length (stem p))%nat with 5%nat by lia.
  by rewrite substring_app_drop.
Qed.

Lemma output_path_unsupported `{codec : Codec} (self : ImageConverter) (p : Path) :
  lower (suffix (output_path self p)) ∉ SUPPORTED_FORMATS.
Proof.
  rewrite elem_of_SUPPORTED_FORMATS.
  destruct (suffix_output_path self p) as [-> | ->]; simpl;
    intros [?|[?|?]]; discriminate.
Qed.

Lemma output_path_ne_image `{codec : Codec} (self : ImageConverter) (p q : Path) :
  lower (suffix q) ∈ SUPPORTED_FORMATS → q ≠ output_path self p.
Proof. intros Hq ->. by apply (output_path_unsupported self p). Qed.

(** X2. What the converter writes is never taken for an input: the suffix
    of an output path is not a supported format, so discovery skips it in
    every state, and no path with a supported suffix is the output path of
    any image. *)
Theorem output_never_discovered `{codec : Codec} (self : ImageConverter) (p : Path) :
  (lower (suffix (output_path self p)) ∉ SUPPORTED_FORMATS) ∧
  (∀ w, discovered w (output_path self p) = false) ∧
  (∀ q, lower (suffix q) ∈ SUPPORTED_FORMATS → output_path self p ≠ q).
Proof.
  pose proof (output_path_unsupported self p) as H.
  split; [done|]. split.
  - intros w. unfold discovered. rewrite (bool_decide_eq_false_2 _ H).
    apply andb_false_r.
  - intros q Hq Heq. symmetry in Heq. by apply (output_path_ne_image self p q).
Qed.

End Names.

(** ** What a conversion leaves at the output path (claims C3, C4, C9) *)

Section Outputs.

Context `{env : Env} `{codec : Codec}.

Lemma output_path_not_prefix self p : ¬ output_path self p `prefix_of` output_folder self.
Proof. unfold output_path, joinpath. apply prefix_snoc_not. Qed.

Lemma output_path_ne_folder self p : output_path self p ≠ output_folder self.
Proof.
  unfold output_path, joinpath. intros H.
  apply (f_equal length) in H. rewrite length_app in H. simpl in H. lia.
Qed.

(** Folder creation does not touch the output path. *)
Lemma new_dirs_output_path self p w w1 :
  new_dirs_only (output_folder self) w w1 →
  fs w1 !! output_path self p = fs w !! output_path self p.
Proof.
  intros [_ H]. destruct (H (output_path self p)) as [?|(_ & _ & Hpre)]; [done|].
  by apply output_path_not_prefix in Hpre.
Qed.

(** A regular file seen after folder creation was there before. *)
Lemma new_dirs_File d q w w1 data :
  new_dirs_only d w w1 → stat q w1 = Some (File data) → stat q w = Some (File data).
Proof.
  intros [_ H] Hq. destruct (stat_File_lookup _ _ _ Hq) as [Hr Hl].
  assert (Hn : q ≠ []) by (intros ->; by rewrite stat_special in Hq by auto).
  rewrite stat_lookup by done.
  destruct (H q) as [<-|(_ & Hd & _)]; [done|congruence].
Qed.

(** What was there before folder creation is there after. *)
Lemma new_dirs_keeps d q w w1 x :
  new_dirs_only d w w1 → stat q w = Some x → stat q w1 = Some x.
Proof.
  intros [_ H]. unfold stat. destruct (_ || _)%bool; [done|].
  destruct (H q) as [->|(-> & _)]; done.
Qed.

Lemma stat_insert_ne p q x w w' :
  q ≠ p → fs w' = <[p:=x]> (fs w) → stat q w' = stat q w.
Proof. intros Hq Hf. apply stat_agree. rewrite Hf. by apply lookup_insert_ne. Qed.

Lemma stat_insert_File p data old w w' :
  stat p w = Some (File old) → fs w' = <[p:=File data]> (fs w) →
  stat p w' = Some (File data).
Proof.
  intros Hp Hf. destruct (stat_File_lookup _ _ _ Hp) as [Hr _].
  assert (Hn : p ≠ []) by (intros ->; by rewrite stat_special in Hp by auto).
  rewrite stat_lookup by done. by rewrite Hf, lookup_insert_eq.
Qed.

Lemma Path_mkdir_new_dirs p w r w' :
  Path_mkdir p true true w = (r, w') → new_dirs_only p w w'.
Proof. apply Path_mkdir_rec_new_dirs. Qed.

Lemma output_path_ordinary self p :
  output_path self p ≠ [] ∧ is_root (output_path self p) = false.
Proof.
  split; [|apply is_root_output_path].
  unfold output_path, joinpath. by destruct (output_folder self).
Qed.

Lemma stat_output_path self p w : stat (output_path self p) w = fs w !! output_path self p.
Proof. apply stat_lookup; apply output_path_ordinary. Qed.

(** A directory seen after folder creation was there before, or was made at
    the folder or above it. *)
Lemma new_dirs_Dir d q w w1 :
  new_dirs_only d w w1 → stat q w1 = Some Dir → stat q w = Some Dir ∨ q `prefix_of` d.
Proof.
  intros [_ H]. unfold stat. destruct (_ || _)%bool; [by left|].
  destruct (H q) as [->|(_ & _ & Hpre)]; auto.
Qed.



(** C4. Before encoding, [convert_image] normalises the decoded mode as the
    specification's table says: a palette image ([P]) and a grayscale image
    with alpha ([LA]) are converted to RGBA, RGB and RGBA images pass through
    unchanged, every other mode is converted to RGB; the image so obtained is
    the one encoded (at the job's quality, method 6) into the bytes written
    at the output path. *)
Theorem convert_image_normalizes (self : ImageConverter) (p : Path) (w w' : World) :
  convert_image self p w = (Ret true, w') →
  ∃ data m px img bytes,
    stat p w = Some (File data) ∧ decode data = inr (m, px) ∧
    (m = "P" ∨ m = "LA" →
       ∃ px', convertMode m px "RGBA" = inr px' ∧ img = mkImage "RGBA" px') ∧
    (m = "RGB" ∨ m = "RGBA" → img = mkImage m px) ∧
    (m ≠ "P" → m ≠ "LA" → m ≠ "RGB" → m ≠ "RGBA" →
       ∃ px', convertMode m px "RGB" = inr px' ∧ img = mkImage "RGB" px') ∧
    encodeWebP (mode img) (pixels img) (quality self) 6 = inr bytes ∧
    fs w' !! output_path self p = Some (File bytes).
Proof.
  intros H.
  apply convert_image_inv in H
    as (r0 & w1 & Hmk & [(_ & _ & data & bytes & Hp & Hspec & Hf & _)
                        |(e & [([=] & _)|[([=] & _)|(? & ? & [=] & _)]] & _)]).
  apply Path_mkdir_new_dirs in Hmk.
  apply (new_dirs_File (output_folder self) p w) in Hp; [|done].
  unfold spec_webp in Hspec.
  destruct (decode data) as [?|[m px]] eqn:Hdec; [done|].
  destruct (spec_normalize (mkImage m px)) as [?|img] eqn:Hnorm; [done|].
  exists data, m, px, img, bytes.
  split; [done|]. split; [done|].
  assert (Htab : ∀ s, String.eqb m s = true ↔ m = s) by (intros; apply String.eqb_eq).
  unfold spec_normalize, spec_target_mode in Hnorm. simpl in Hnorm.
  split; [|split; [|split; [|split; [done|]]]].
  - intros Hm.
    assert (Hif : (if String.eqb m "P" then Some "RGBA"
                   else if String.eqb m "LA" then Some "RGBA"
                   else if String.eqb m "RGB" then None
                   else if String.eqb m "RGBA" then None else Some "RGB")
                  = Some "RGBA").
    { destruct Hm as [->| ->]; done. }
    rewrite Hif in Hnorm.
    destruct (convertMode m px "RGBA") as [?|px']; simplify_eq. eauto.
  - intros Hm.
    assert (Hif : (if String.eqb m "P" then Some "RGBA"
                   else if String.eqb m "LA" then Some "RGBA"
                   else if String.eqb m "RGB" then None
                   else if String.eqb m "RGBA" then None else Some "RGB")
                  = None).
    { destruct Hm as [->| ->]; done. }
    rewrite Hif in Hnorm. by simplify_eq.
  - intros H1 H2 H3 H4.
    rewrite <- Htab in H1, H2, H3, H4.
    apply not_true_is_false in H1, H2, H3, H4.
    rewrite H1, H2, H3, H4 in Hnorm.
    destruct (convertMode m px "RGB") as [?|px']; simplify_eq. eauto.
  - rewrite Hf. apply lookup_insert_eq.
Qed.


End Outputs.



(** * Further properties of the code *)


(** ** What a conversion touches *)

Section Frame.

Context `{env : Env} `{codec : Codec}.

(** What [convert_image] does to the tree: folder creation, and then at
    most one change, at the output path, where no directory stands: a regular
    file is put there, or the file is removed that [save] took for new. *)
Lemma convert_image_changes self p w r w' :
  convert_image self p w = (r, w') →
  ∃ w1, new_dirs_only (output_folder self) w w1 ∧
        (fs w' = fs w1 ∨
         (stat (output_path self p) w1 ≠ Some Dir ∧
          ((∃ bytes, fs w' = <[output_path self p := File bytes]> (fs w1)) ∨
           (fs w' = delete (output_path self p) (fs w1) ∧
            (stat (output_path self p) w1 = None ∨
             ∃ f u, fault_of (sys_path_exists (output_path self p)) u = Some f))))).
Proof.
  intros H.
  apply convert_image_inv in H as (r0 & w1 & Hmk & Hcases).
  apply Path_mkdir_new_dirs in Hmk. exists w1. split; [done|].
  destruct Hcases as [(_ & _ & data & bytes & _ & _ & Hf & _ & Hd)|(e & _ & _ & Hfs)].
  - right. eauto.
  - destruct Hfs as [Hf|(_ & _ & data & m & px & img & _ & _ & _ & Hd & Hleft)];
      [by left|].
    right. split; [done|].
    destruct Hleft as [(content & _ & Hf)|Hf]; eauto.
Qed.

(** What [convert_image] leaves alone, whatever its outcome: directories
    stay directories, every regular file other than the output path keeps its
    bytes and no other appears, and the only directories that appear are the
    output folder and its parents. *)
Lemma convert_image_touches (self : ImageConverter) (p : Path) (w w' : World)
    (r : result bool) :
  convert_image self p w = (r, w') →
  (∀ q, q ≠ output_path self p → is_Some (stat q w) → is_Some (stat q w')) ∧
  (∀ q, stat q w = Some Dir → stat q w' = Some Dir) ∧
  (∀ q data, q ≠ output_path self p →
             (stat q w = Some (File data) ↔ stat q w' = Some (File data))) ∧
  (∀ q, stat q w' = Some Dir →
        stat q w = Some Dir ∨ q `prefix_of` output_folder self).
Proof.
  intros H. apply convert_image_changes in H as (w1 & Hnew & Hfs).
  assert (Hother : ∀ q, q ≠ output_path self p → stat q w' = stat q w1).
  { intros q Hq. destruct Hfs as [Hf|(_ & [(bytes & Hf)|(Hf & _)])].
    - by apply stat_fs.
    - by apply (stat_insert_ne (output_path self p) q (File bytes)).
    - apply stat_agree. rewrite Hf. by apply lookup_delete_ne. }
  assert (Hout : stat (output_path self p) w1 = Some Dir →
                 stat (output_path self p) w' = Some Dir).
  { intros Hd. destruct Hfs as [Hf|(Hnd & _)]; [|done].
    rewrite <- Hd. by apply stat_fs. }
  assert (Hnodir : stat (output_path self p) w' = Some Dir →
                   stat (output_path self p) w1 = Some Dir).
  { intros Hd. destruct Hfs as [Hf|(_ & [(bytes & Hf)|(Hf & _)])].
    - rewrite <- Hd. symmetry. by apply stat_fs.
    - by rewrite stat_output_path, Hf, lookup_insert_eq in Hd.
    - by rewrite stat_output_path, Hf, lookup_delete_eq in Hd. }
  split; [|split; [|split]].
  - intros q Hq [x Hx]. exists x. rewrite (Hother q Hq).
    by apply (new_dirs_keeps _ _ _ _ _ Hnew).
  - intros q Hq. apply (new_dirs_keeps _ _ _ _ _ Hnew) in Hq.
    destruct (decide (q = output_path self p)) as [->|Hne]; [by apply Hout|].
    by rewrite (Hother q Hne).
  - intros q data Hne. rewrite (Hother q Hne). split.
    + by apply (new_dirs_keeps _ _ _ _ _ Hnew).
    + by apply (new_dirs_File (output_folder self) q w w1).
  - intros q Hq. apply (new_dirs_Dir _ _ _ _ Hnew).
    destruct (decide (q = output_path self p)) as [->|Hne]; [by apply Hnodir|].
    by rewrite <- (Hother q Hne).
Qed.

End Frame.

(** In the calm environment nothing is removed. *)

Section FrameCalm.

Context `{codec : Codec}.

Existing Instance calm.


End FrameCalm.

(** ** What a batch touches *)

Section BatchFrame.

Context `{env : Env} `{codec : Codec}.

(** From [w] to [w'] the files that look like images are the same, with the
    same bytes, and the directories are still there. *)
Local Abbreviation images_kept w w' :=
  ((∀ q data, lower (suffix q) ∈ SUPPORTED_FORMATS →
              (stat q w = Some (File data) ↔ stat q w' = Some (File data))) ∧
   (∀ q, stat q w = Some Dir → stat q w' = Some Dir)).

Lemma images_kept_fs w w' : fs w' = fs w → images_kept w w'.
Proof.
  intros Hf. split.
  - intros q data _. by rewrite (stat_fs q w' w Hf).
  - intros q. by rewrite (stat_fs q w' w Hf).
Qed.

Lemma images_kept_trans w w1 w2 :
  images_kept w w1 → images_kept w1 w2 → images_kept w w2.
Proof.
  intros [Ha Hb] [Hc Hd]. split.
  - intros q data Hq. by rewrite (Ha q data Hq), (Hc q data Hq).
  - auto.
Qed.

Lemma convert_image_images_kept self p w r w' :
  convert_image self p w = (r, w') → images_kept w w'.
Proof.
  intros H. apply convert_image_touches in H as (_ & Hdir & Hfile & _).
  split; [|done]. intros q data Hq. apply Hfile. by apply output_path_ne_image.
Qed.

Lemma convert_each_images_kept self images w r w' :
  convert_each self images w = (r, w') → images_kept w w'.
Proof.
  revert w r w'. induction images as [|p images IH]; intros w r w' H; simpl in H.
  - step_in H. by apply images_kept_fs.
  - step_in H.
    + apply convert_image_images_kept in Hrun.
      apply (images_kept_trans w w0 w'); [done|].
      step_in H; [step_in H|subst]; by apply (IH _ _ _ Hrun0).
    + subst. by apply convert_image_images_kept in Hrun.
Qed.

Lemma convert_all_images_kept self w r w' :
  convert_all self w = (r, w') → images_kept w w'.
Proof.
  unfold convert_all. intros H. step_in H.
  2:{ subst. apply find_images_reads in Hrun as [Hf _]. by apply images_kept_fs. }
  apply find_images_reads in Hrun as [Hf _].
  assert (Hprint : ∀ line v r1 v1, print line v = (r1, v1) → fs v1 = fs v).
  { intros line v r1 v1 Hp. by apply print_inv in Hp as [[_ ->]|(? & _ & -> & _)]. }
  destruct a as [|p images].
  - step_in H.
    + apply Hprint in Hrun. step_in H. apply images_kept_fs. congruence.
    + subst. apply Hprint in Hrun. apply images_kept_fs. congruence.
  - repeat (step_in H;
            [apply Hprint in Hrun; rewrite Hf in Hrun; clear Hf; rename Hrun into Hf
            |subst; apply Hprint in Hrun; apply images_kept_fs; congruence]).
    match type of H with bind _ _ ?v = _ =>
      apply (images_kept_trans w v w'); [by apply images_kept_fs|];
      unfold bind in H; rewrite convert_loop_each in H;
      destruct (convert_each self (p :: images) v) as [[bs|e] wz] eqn:Heach
    end;
      unfold ret in H; simplify_eq;
      by apply (convert_each_images_kept _ _ _ _ _ Heach).
Qed.

(** X4. A batch never alters its inputs: whatever [convert_all] comes to,
    an interrupt included, every regular file whose name has a supported
    image extension holds afterwards the bytes it held before, no such file
    appears or disappears, and every directory is still there.  This is so
    even when the output folder is the input folder. *)
Theorem convert_all_keeps_images (self : ImageConverter) (w w' : World)
    (r : result ConversionStats) :
  convert_all self w = (r, w') →
  (∀ q data, lower (suffix q) ∈ SUPPORTED_FORMATS →
             (stat q w = Some (File data) ↔ stat q w' = Some (File data))) ∧
  (∀ q, stat q w = Some Dir → stat q w' = Some Dir).
Proof. apply convert_all_images_kept. Qed.

(** Discovery sees the same images in two states that keep them. *)
Lemma find_images_same self w w' images images' v v' :
  images_kept w w' →
  find_images self w = (Ret images, v) →
  find_images self w' = (Ret images', v') →
  images' = images.
Proof.
  intros [Hkept _] H H'.
  apply find_images_props in H as (Hmem & Hnd & Hs & _).
  apply find_images_props in H' as (Hmem' & Hnd' & Hs' & _).
  apply (StronglySorted_unique path_le); [done|done|].
  apply NoDup_Permutation; [done|done|].
  intros q. rewrite Hmem, Hmem'. split.
  - intros (Hn & [data Hf] & Hq). split; [done|]. split; [|done].
    exists data. by apply (Hkept q data Hq).
  - intros (Hn & [data Hf] & Hq). split; [done|]. split; [|done].
    exists data. by apply (Hkept q data Hq).
Qed.

(** X5. Discovery after a batch finds the list it found before: the batch's
    own outputs are not picked up and no input is lost, so a second run works
    on the same files in the same order. *)
Theorem find_images_after_batch (self : ImageConverter) (w w' v v' : World)
    (r : result ConversionStats) (images images' : list Path) :
  find_images self w = (Ret images, v) →
  convert_all self w = (r, w') →
  find_images self w' = (Ret images', v') →
  images' = images.
Proof.
  intros Hfind Hall Hfind'.
  apply (find_images_same self w w' images images' v v'); [|done|done].
  by apply (convert_all_images_kept self w r w').
Qed.

End BatchFrame.

(** ** The output folder, once more *)

Section FolderFacts.

Context `{env : Env} `{codec : Codec}.

(** Whenever [Path.mkdir] returns, the directory is there. *)
Lemma Path_mkdir_rec_returns fuel p parents exist_ok w w' :
  Path_mkdir_rec fuel p parents exist_ok w = (Ret tt, w') → stat p w' = Some Dir.
Proof.
  revert p parents exist_ok w w'.
  induction fuel as [|fuel IH]; intros p parents exist_ok w w' H; simpl in H;
    unfold try_except in H;
    destruct (os_mkdir p w) as [r0 w0] eqn:Hos;
    apply os_mkdir_inv in Hos
      as (Ho & [[-> Hf]|[(f & v & -> & Hf & Hv)|[(x & msg & Hp & -> & Hf)
               |[(msg & Hp & Hpp & -> & Hf)
               |[(msg & data & Hp & Hpp & -> & Hf)|(Hp & Hpp & -> & Hf)]]]]]);
    simpl in H; try done.
  all: try (simplify_eq; by eapply stat_insert_Dir).
  all: try rewrite fault_exn_OSError in H.
  all: try (destruct f; simpl in H).
  all: try (apply exist_ok_clause in H
              as (-> & [[=]|[(? & [=] & _)|(_ & _ & Hd)]] & _); done).
  - destruct (_ || _)%bool; by step_in H.
  - destruct (_ || _)%bool; [by step_in H|].
    step_in H; [|done]. by apply IH in H.
Qed.

(** On a directory that is there, [Path.mkdir] changes nothing. *)
Lemma Path_mkdir_rec_existing fuel p parents exist_ok w r w' :
  stat p w = Some Dir →
  Path_mkdir_rec fuel p parents exist_ok w = (r, w') → fs w' = fs w.
Proof.
  intros Hdir H.
  destruct fuel; simpl in H; unfold try_except in H;
    destruct (os_mkdir p w) as [r0 w0] eqn:Hos;
    apply os_mkdir_inv in Hos
      as (Ho & [[-> Hf]|[(f & v & -> & Hf & Hv)|[(x & msg & Hp & -> & Hf)
               |[(msg & Hp & Hpp & -> & Hf)
               |[(msg & data & Hp & Hpp & -> & Hf)|(Hp & Hpp & -> & Hf)]]]]]);
    simpl in H; try congruence.
  all: try rewrite fault_exn_OSError in H.
  all: try (destruct f; simpl in H).
  all: by apply exist_ok_clause in H as (-> & _ & _).
Qed.

Lemma convert_image_in_place (self : ImageConverter) (p : Path)
    (w w' : World) (r : result bool) :
  stat (output_folder self) w = Some Dir →
  convert_image self p w = (r, w') →
  ∀ q, q ≠ output_path self p → fs w' !! q = fs w !! q.
Proof.
  intros Hdir H q Hq.
  apply convert_image_inv in H as (r0 & w1 & Hmk & Hcases).
  apply (Path_mkdir_rec_existing _ _ _ _ _ _ _ Hdir) in Hmk. rewrite <- Hmk.
  destruct Hcases as [(_ & _ & data & bytes & _ & _ & Hf & _)|(e & _ & _ & Hfs)].
  - rewrite Hf. by apply lookup_insert_ne.
  - destruct Hfs as [Hf|(_ & _ & data & m & px & img & _ & _ & _ & _ & Hleft)].
    + by rewrite Hf.
    + destruct Hleft as [(content & _ & Hf)|(Hf & _)]; rewrite Hf.
      * by apply lookup_insert_ne.
      * by apply lookup_delete_ne.
Qed.

(** X10. When the output folder already exists, [convert_image] makes no
    directory and leaves every path but the output path exactly as it was. *)
Theorem convert_image_existing_folder (self : ImageConverter) (p : Path)
    (w w' : World) (r : result bool) :
  stat (output_folder self) w = Some Dir →
  convert_image self p w = (r, w') →
  ∀ q, q ≠ output_path self p → fs w' !! q = fs w !! q.
Proof. apply convert_image_in_place. Qed.

(** X12. When [convert_image] returns true, the output folder is a directory
    and the output file is a regular file in it, holding the WebP bytes of
    the input; the success line is the one line printed. *)
Theorem convert_image_success (self : ImageConverter) (p : Path) (w w' : World) :
  convert_image self p w = (Ret true, w') →
  stat (output_folder self) w' = Some Dir ∧
  parent (output_path self p) = output_folder self ∧
  (∃ data bytes, stat p w = Some (File data) ∧
                 spec_webp (quality self) data = inr bytes ∧
                 stat (output_path self p) w' = Some (File bytes)) ∧
  stdout w' = stdout w ++ [success_line p].
Proof.
  intros H.
  apply convert_image_inv in H
    as (r0 & w1 & Hmk & [(_ & -> & data & bytes & Hp & Hspec & Hf & Ho & _)
                        |(e & [([=] & _)|[([=] & _)|(? & ? & [=] & _)]] & _)]).
  pose proof (Path_mkdir_new_dirs _ _ _ _ Hmk) as Hnew.
  apply Path_mkdir_rec_returns in Hmk.
  split; [|split; [apply parent_output_path|split]].
  - rewrite <- Hmk.
    apply (stat_insert_ne (output_path self p) _ (File bytes)); [|done].
    intros Heq. by apply (output_path_ne_folder self p).
  - exists data, bytes.
    split; [by apply (new_dirs_File (output_folder self) p w w1)|].
    split; [done|]. by rewrite stat_output_path, Hf, lookup_insert_eq.
  - destruct Hnew as [Hout _]. by rewrite Ho, Hout.
Qed.

End FolderFacts.

(** ** The output folder after the batch (claim C10) *)

Section OutputFolder.

Context `{env : Env} `{codec : Codec}.

(** From [w] to [w'] the regular files are the same, with the same bytes. *)
Local Abbreviation files_kept w w' :=
  (∀ q data, stat q w' = Some (File data) ↔ stat q w = Some (File data)).

(** Folder creation comes first: when it fails, the input is not opened. *)
Lemma mkdir_failure_first self p w e w1 :
  Path_mkdir (output_folder self) true true w = (Raise e, w1) →
  convert_image_body self p w = (Raise e, w1).
Proof. intros H. unfold convert_image_body. by rewrite (bind_raise_run _ _ _ _ _ H). Qed.

(** What [convert_image] does after folder creation leaves the folder
    alone. *)
Lemma convert_image_folder_after self p w r w' r0 w1 :
  convert_image self p w = (r, w') →
  Path_mkdir (output_folder self) true true w = (r0, w1) →
  stat (output_folder self) w' = stat (output_folder self) w1 ∧
  (r0 ≠ Ret tt → r ≠ Ret true ∧ files_kept w w').
Proof.
  intros H Hmk.
  apply convert_image_inv in H as (r0' & w1' & Hmk' & Hcases).
  rewrite Hmk in Hmk'. simplify_eq.
  pose proof (Path_mkdir_new_dirs _ _ _ _ Hmk) as Hnew.
  assert (Hne : output_folder self ≠ output_path self p)
    by (intros Heq; by apply (output_path_ne_folder self p)).
  destruct Hcases as [(-> & -> & data & bytes & _ & _ & Hf & _)|(e & Hr & Hr0 & Hfs)].
  - split; [|done]. by apply (stat_insert_ne (output_path self p) _ (File bytes)).
  - destruct Hfs as [Hf|(-> & _ & data & m & px & img & _ & _ & _ & _ & Hleft)].
    + split; [by apply stat_fs|]. intros _. split.
      * by destruct Hr as [(-> & _)|[(-> & _)|(? & ? & -> & _)]].
      * intros q data. rewrite (stat_fs q w' w1' Hf). split.
        -- by apply (new_dirs_File _ _ _ _ _ Hnew).
        -- by apply (new_dirs_keeps _ _ _ _ _ Hnew).
    + split; [|done].
      destruct Hleft as [(content & _ & Hf)|(Hf & _)].
      * by apply (stat_insert_ne (output_path self p) _ (File content)).
      * apply stat_agree. rewrite Hf. by apply lookup_delete_ne.
Qed.

(** Once [convert_image] has returned, the output folder is there; or folder
    creation failed, and then the flag is false and no file was touched. *)
Lemma convert_image_folder self p w b w' :
  convert_image self p w = (Ret b, w') →
  stat (output_folder self) w' = Some Dir ∨ (b = false ∧ files_kept w w').
Proof.
  intros H.
  destruct (Path_mkdir (output_folder self) true true w) as [r0 w1] eqn:Hmk.
  destruct (convert_image_folder_after _ _ _ _ _ _ _ H Hmk) as [Hsame Hfail].
  destruct r0 as [[]|e].
  - left. rewrite Hsame. by apply Path_mkdir_rec_returns in Hmk.
  - right. destruct (Hfail ltac:(done)) as [Hb Hkept].
    split; [by destruct b|done].
Qed.

(** Where the folder can be made and its creation meets no fault, it is
    there once [convert_image] has returned, whatever the flag. *)
Lemma convert_image_makes_folder self p w b w' :
  creatable (output_folder self) w → unhindered (output_folder self) →
  convert_image self p w = (Ret b, w') →
  stat (output_folder self) w' = Some Dir.
Proof.
  intros Hc Hu H.
  destruct (Path_mkdir (output_folder self) true true w) as [r0 w1] eqn:Hmk.
  destruct (convert_image_folder_after _ _ _ _ _ _ _ H Hmk) as [Hsame _].
  rewrite Hsame.
  pose proof Hmk as Hmk'. unfold Path_mkdir in Hmk'.
  apply Path_mkdir_rec_creates in Hmk' as [[-> Hdir]| ->]; [done| |lia|done|done].
  apply convert_image_inv in H as (r0' & w1' & Hmk'' & Hcases).
  rewrite Hmk in Hmk''. simplify_eq.
  destruct Hcases
    as [(_ & [=] & _)
       |(e & [([=] & Hex & _)|[([=] & _)|(? & ? & [=] & _)]] & [[=]|[= <-]] & _)].
  done.
Qed.

(** A folder that is there stays there. *)
Lemma convert_image_keeps_folder self p w r w' :
  stat (output_folder self) w = Some Dir →
  convert_image self p w = (r, w') →
  stat (output_folder self) w' = Some Dir.
Proof.
  intros Hdir H. apply convert_image_touches in H as (_ & Hd & _). by apply Hd.
Qed.

Lemma convert_each_keeps_folder self images w r w' :
  stat (output_folder self) w = Some Dir →
  convert_each self images w = (r, w') →
  stat (output_folder self) w' = Some Dir.
Proof.
  intros Hdir H. apply convert_each_images_kept in H as [_ Hd]. by apply Hd.
Qed.

(** What is no image's output path keeps its bytes through a batch. *)
Lemma convert_each_keeps_file self images w r w' q data :
  (∀ p, q ≠ output_path self p) →
  convert_each self images w = (r, w') →
  stat q w = Some (File data) ↔ stat q w' = Some (File data).
Proof.
  intros Hq. revert w r w'.
  induction images as [|p images IH]; intros w r w' H; simpl in H.
  - by step_in H.
  - step_in H.
    + apply convert_image_touches in Hrun as (_ & _ & Hfile & _).
      rewrite (Hfile q data (Hq p)).
      step_in H; [step_in H|subst]; by apply (IH _ _ _ Hrun).
    + subst. apply convert_image_touches in Hrun as (_ & _ & Hfile & _).
      by apply Hfile.
Qed.

(** After a batch the folder is there, or folder creation failed for every
    file: then nothing was converted and no file was touched. *)
Lemma convert_each_folder self images w outcomes w' :
  convert_each self images w = (Ret outcomes, w') →
  stat (output_folder self) w' = Some Dir ∨
  (count true outcomes = 0 ∧ files_kept w w').
Proof.
  revert w outcomes w'.
  induction images as [|p images IH]; intros w outcomes w' H; simpl in H.
  - step_in H. by right.
  - step_in H; [|done]. step_in H; [|done]. step_in H.
    destruct (convert_image_folder _ _ _ _ _ Hrun) as [Hdir|[-> Hkept]].
    + left. by apply (convert_each_keeps_folder _ _ _ _ _ Hdir Hrun0).
    + destruct (IH _ _ _ Hrun0) as [Hdir|[Hcount Hkept']]; [by left|right].
      split; [by rewrite count_cons|].
      intros q data. by rewrite Hkept', Hkept.
Qed.

Lemma convert_each_makes_folder self images w outcomes w' :
  images ≠ [] → creatable (output_folder self) w → unhindered (output_folder self) →
  convert_each self images w = (Ret outcomes, w') →
  stat (output_folder self) w' = Some Dir.
Proof.
  intros Hne Hc Hu H. destruct images as [|p images]; [done|]. simpl in H.
  step_in H; [|done].
  apply (convert_image_makes_folder _ _ _ _ _ Hc Hu) in Hrun.
  step_in H; [|done]. step_in H.
  by apply (convert_each_keeps_folder _ _ _ _ _ Hrun Hrun0).
Qed.

(** An input that does not decode fails without a file being written:
    regular files seen afterwards were there before, unchanged. *)
Lemma convert_image_corrupt self p w r w' :
  (∀ data, stat p w = Some (File data) → ∃ msg, decode data = inl msg) →
  convert_image self p w = (r, w') →
  r ≠ Ret true ∧
  ∀ q data, stat q w' = Some (File data) → stat q w = Some (File data).
Proof.
  intros Hbad H.
  apply convert_image_inv in H as (r0 & w1 & Hmk & Hcases).
  apply Path_mkdir_new_dirs in Hmk.
  assert (Hno : ∀ data m px, stat p w1 = Some (File data) → decode data ≠ inr (m, px)).
  { intros data m px Hp Hdec.
    apply (new_dirs_File (output_folder self) p w) in Hp; [|done].
    destruct (Hbad data Hp) as [msg Hmsg]. congruence. }
  destruct Hcases as [(_ & _ & data & bytes & Hp & Hspec & _)|(e & Hr & _ & Hfs)].
  - exfalso. unfold spec_webp in Hspec.
    destruct (decode data) as [?|[m px]] eqn:Hdec; [done|].
    by apply (Hno data m px).
  - split; [by destruct Hr as [(-> & _)|[(-> & _)|(? & ? & -> & _)]]|].
    destruct Hfs as [Hf|(_ & _ & data & m & px & img & Hp & Hdec & _)].
    + intros q data Hq. apply (new_dirs_File (output_folder self) q w w1); [done|].
      rewrite <- Hq. by apply stat_fs.
    + exfalso. by apply (Hno data m px).
Qed.

Lemma convert_each_corrupt self images w outcomes w' :
  (∀ p data, p ∈ images → stat p w = Some (File data) → ∃ msg, decode data = inl msg) →
  convert_each self images w = (Ret outcomes, w') →
  count true outcomes = 0 ∧
  ∀ q data, stat q w' = Some (File data) → stat q w = Some (File data).
Proof.
  revert w outcomes w'.
  induction images as [|p images IH]; intros w outcomes w' Hbad H; simpl in H.
  - step_in H. done.
  - step_in H; [|done]. step_in H; [|done]. step_in H.
    destruct (convert_image_corrupt self p w _ _ (λ data, Hbad p data ltac:(left)) Hrun)
      as [Hb Hkeep].
    destruct (IH w0 a0 w') as [Hcount Hkeep']; [|done|].
    { intros p' data Hp' Hst. apply (Hbad p' data); [by right|]. by apply Hkeep. }
    split.
    + rewrite count_cons. destruct a; [done|]. simpl. lia.
    + intros q data Hq. by apply Hkeep, Hkeep'.
Qed.

(** C10, as the code has it. [convert_image] makes the output folder, with
    its missing parents, before it opens the input, and when folder creation
    fails the input is not opened at all.  So after a batch that found at
    least one file the output folder exists, even if every input is corrupt,
    in which case nothing was converted and no file was written; unless
    folder creation failed for every file, in which case nothing was
    converted and no file was touched.  It does fail for every file when a
    regular file stands at the output folder's path, which is then still
    there after the batch; it does not fail where no regular file stands at
    the path or above it and folder creation meets no fault. *)
Theorem output_folder_after_batch (self : ImageConverter) (w w1 w' : World)
    (images : list Path) (st : ConversionStats) :
  find_images self w = (Ret images, w1) →
  images ≠ [] →
  convert_all self w = (Ret st, w') →
  (stat (output_folder self) w' = Some Dir ∨
   (converted st = 0 ∧ failed st = total st ∧
    ∀ q data, stat q w' = Some (File data) ↔ stat q w = Some (File data))) ∧
  (creatable (output_folder self) w → unhindered (output_folder self) →
   stat (output_folder self) w' = Some Dir) ∧
  (∀ data, stat (output_folder self) w = Some (File data) →
           stat (output_folder self) w' = Some (File data) ∧
           converted st = 0 ∧ failed st = total st) ∧
  (∀ p w0 e w0', Path_mkdir (output_folder self) true true w0 = (Raise e, w0') →
                 convert_image_body self p w0 = (Raise e, w0')) ∧
  ((∀ p data, p ∈ images → stat p w = Some (File data) → ∃ msg, decode data = inl msg) →
   converted st = 0 ∧ failed st = total st ∧
   ∀ q data, stat q w' = Some (File data) → stat q w = Some (File data)).
Proof.
  intros Hfind Hne Hall.
  apply convert_all_inv in Hall
    as (images' & w1' & w2 & outcomes & Hfind' & Hf2 & Heach & Hlen & ->).
  rewrite Hfind in Hfind'. simplify_eq.
  destruct (find_images_inv _ _ _ _ Hfind) as (_ & _ & Hf1 & _).
  assert (Hfs : fs w2 = fs w) by congruence.
  assert (Hst : ∀ q, stat q w2 = stat q w) by (intros; by apply stat_fs).
  assert (Hnone : count true outcomes = 0 →
                  count false outcomes = Z.of_nat (length images'))
    by (pose proof (count_total outcomes); lia).
  split; [|split; [|split; [|split]]].
  - destruct (convert_each_folder _ _ _ _ _ Heach) as [Hdir|[Hcount Hkept]];
      [by left|right]. simpl.
    split; [done|]. split; [by apply Hnone|].
    intros q data. by rewrite Hkept, Hst.
  - intros Hc Hu.
    apply (convert_each_makes_folder self images' w2 outcomes); [done| |done|done].
    by apply (creatable_fs _ w).
  - intros data Hfile.
    assert (Hfile' : stat (output_folder self) w' = Some (File data)).
    { apply (convert_each_keeps_file self images' w2 (Ret outcomes) w');
        [|done|by rewrite Hst].
      intros p Heq. by apply (output_path_ne_folder self p). }
    split; [done|]. simpl.
    destruct (convert_each_folder _ _ _ _ _ Heach) as [Hdir|[Hcount _]];
      [congruence|].
    split; [done|by apply Hnone].
  - intros p w0 e w0'. apply mkdir_failure_first.
  - intros Hbad. simpl.
    destruct (convert_each_corrupt self images' w2 outcomes w') as [Hcount Hkeep]; [|done|].
    { intros p data Hp Hq. apply (Hbad p data Hp). by rewrite <- Hst. }
    split; [done|]. split; [by apply Hnone|].
    intros q data Hq. apply Hkeep in Hq. by rewrite <- Hst.
Qed.

End OutputFolder.

(** ** A conversion that must succeed *)

Section HappyPath.

Context `{env : Env} `{codec : Codec}.

Lemma checkpoint_quiet w : sigint w = None → checkpoint w = (Ret tt, w).
Proof. unfold checkpoint. destruct w as [f o s]. simpl. by intros ->. Qed.

Lemma attempt_quiet c w : fault_of c w = None → attempt c w = (Ret tt, w).
Proof. unfold attempt. by intros ->. Qed.

Lemma print_run line w :
  encode_error line = None → fault_of (sys_print line) w = None →
  print line w = (Ret tt, mkWorld (fs w) (stdout w ++ [line]) (sigint w)).
Proof. unfold print. by intros -> ->. Qed.

Lemma Image_open_run p w data m px :
  sigint w = None → fault_of (sys_open_read p) w = None →
  stat p w = Some (File data) → decode data = inr (m, px) →
  Image_open p w = (Ret (mkImage m px), w).
Proof.
  intros Hs Hf Hp Hd. unfold Image_open.
  rewrite (bind_ret_run _ _ _ _ _ (checkpoint_quiet w Hs)).
  rewrite (bind_ret_run _ _ _ _ _ (attempt_quiet _ w Hf)).
  by rewrite Hp, Hd.
Qed.

Lemma Image_convert_run img target w px :
  sigint w = None → convertMode (mode img) (pixels img) target = inr px →
  Image_convert img target w = (Ret (mkImage target px), w).
Proof.
  intros Hs Hc. unfold Image_convert.
  rewrite (bind_ret_run _ _ _ _ _ (checkpoint_quiet w Hs)).
  by rewrite Hc.
Qed.

(** The code's mode handling yields the image the table names. *)
Lemma handle_mode_run img img' w :
  sigint w = None → spec_normalize img = inr img' →
  handle_mode img w = (Ret img', w).
Proof.
  intros Hs. unfold handle_mode, spec_normalize, spec_target_mode.
  destruct (String.eqb (mode img) "P");
    [|destruct (String.eqb (mode img) "LA");
      [|destruct (String.eqb (mode img) "RGB");
        [|destruct (String.eqb (mode img) "RGBA")]]].
  all: try (by intros [= <-]).
  all: destruct (convertMode (mode img) (pixels img) _) as [msg|px] eqn:Hc; [done|];
       intros [= <-]; by apply Image_convert_run.
Qed.

Lemma Image_save_run img p q method w data :
  sigint w = None → stat p w ≠ Some Dir → stat (parent p) w = Some Dir →
  (∀ v, fault_of (sys_open_write p) v = None) →
  (∀ d v, fault_of (sys_write p d) v = None) →
  (∀ v, fault_of (sys_close p) v = None) →
  encodeWebP (mode img) (pixels img) q method = inr data →
  ∃ w', Image_save img p q method w = (Ret tt, w') ∧
        fs w' = <[p := File data]> (fs w) ∧ stdout w' = stdout w ∧
        sigint w' = None.
Proof.
  intros Hs Hp Hpp Hopen Hwrite Hclose He. unfold Image_save.
  rewrite (bind_ret_run _ _ _ _ _ (checkpoint_quiet w Hs)).
  unfold bind at 1. unfold os_path_exists at 1.
  assert (Hop : open_wb p w = (Ret tt, set_fs (insert p (File [])) w)).
  { unfold open_wb. rewrite (bind_ret_run _ _ _ _ _ (attempt_quiet _ w (Hopen w))).
    rewrite Hpp. by destruct (stat p w) as [[|?]|]. }
  rewrite (bind_ret_run _ _ _ _ _ Hop).
  unfold bind, try_except, webp_save_handler, write_file, fp_close.
  rewrite He, Hwrite, Hclose.
  eexists; split; [done|]; simpl; by rewrite insert_insert_eq.
Qed.

Lemma convert_image_runs (self : ImageConverter) (p : Path) (w : World)
    (data bytes : list byte) :
  sigint w = None →
  untroubled self p →
  creatable (output_folder self) w →
  stat p w = Some (File data) →
  spec_webp (quality self) data = inr bytes →
  stat (output_path self p) w ≠ Some Dir →
  ∃ w', convert_image self p w = (Ret true, w') ∧
        stat (output_folder self) w' = Some Dir ∧
        stat (output_path self p) w' = Some (File bytes) ∧
        stdout w' = stdout w ++ [success_line p] ∧
        sigint w' = None.
Proof.
  intros Hs (Hu & Hread & Hopen & Hwrite & Hclose & Henc & Hprint) Hc Hp Hspec Hout.
  (* folder creation *)
  destruct (Path_mkdir (output_folder self) true true w) as [r0 w1] eqn:Hmk.
  pose proof (tame_Path_mkdir _ _ _ _ _ _ Hmk) as [Hs1 Hr0].
  specialize (Hs1 Hs).
  pose proof (Path_mkdir_new_dirs _ _ _ _ Hmk) as Hnew.
  pose proof Hmk as Hmk'. unfold Path_mkdir in Hmk'.
  apply Path_mkdir_rec_creates in Hmk' as [[-> Hdir]| ->]; [| |lia|done|done].
  2:{ destruct (Hr0 _ eq_refl) as [?|[_ ?]]; done. }
  (* the input, as folder creation left it *)
  pose proof (new_dirs_keeps _ _ _ _ _ Hnew Hp) as Hp1.
  unfold spec_webp in Hspec.
  destruct (decode data) as [?|[m px]] eqn:Hdec; [done|].
  destruct (spec_normalize (mkImage m px)) as [?|img] eqn:Hnorm; [done|].
  (* the output path *)
  assert (Hout1 : stat (output_path self p) w1 ≠ Some Dir).
  { intros Hd. apply Hout. rewrite <- Hd. symmetry.
    apply stat_agree. by apply new_dirs_output_path. }
  assert (Hpar : stat (parent (output_path self p)) w1 = Some Dir)
    by (by rewrite parent_output_path).
  destruct (Image_save_run img (output_path self p) (quality self) 6 w1 bytes
              Hs1 Hout1 Hpar Hopen Hwrite Hclose Hspec) as (w2 & Hsave & Hf2 & Ho2 & Hs2).
  eexists. split.
  - unfold convert_image, try_except, convert_image_body.
    rewrite (bind_ret_run _ _ _ _ _ Hmk).
    rewrite (bind_ret_run _ _ _ _ _
               (Image_open_run p w1 data m px Hs1 (Hread w1) Hp1 Hdec)).
    rewrite (bind_ret_run _ _ _ _ _ (handle_mode_run _ _ w1 Hs1 Hnorm)).
    rewrite (bind_ret_run _ _ _ _ _ Hsave).
    rewrite (bind_ret_run _ _ _ _ _ (print_run _ w2 Henc (Hprint w2))).
    unfold ret. done.
  - simpl. split; [|split; [|split; [|done]]].
    + rewrite <- Hdir.
      apply (stat_insert_ne (output_path self p) _ (File bytes)); [|done].
      intros Heq. by apply (output_path_ne_folder self p).
    + by rewrite stat_output_path; simpl; rewrite Hf2, lookup_insert_eq.
    + destruct Hnew as [Ho1 _]. by rewrite Ho2, Ho1.
Qed.

(** X6. A conversion that must succeed.  With no interrupt pending, no
    fault met by the calls the conversion makes, an output folder that can be
    made, an input that is a regular file whose bytes decode, normalise and
    encode, and no directory standing at the output path, [convert_image]
    returns true: the output folder exists, the output path holds the encoded
    bytes and the success line is printed. *)
Theorem convert_image_succeeds (self : ImageConverter) (p : Path) (w : World)
    (data bytes : list byte) :
  sigint w = None →
  untroubled self p →
  creatable (output_folder self) w →
  stat p w = Some (File data) →
  spec_webp (quality self) data = inr bytes →
  stat (output_path self p) w ≠ Some Dir →
  ∃ w', convert_image self p w = (Ret true, w') ∧
        stat (output_folder self) w' = Some Dir ∧
        stat (output_path self p) w' = Some (File bytes) ∧
        stdout w' = stdout w ++ [success_line p] ∧
        sigint w' = None.
Proof. apply convert_image_runs. Qed.

End HappyPath.

(** ** What a batch prints, and how it composes *)

Section BatchReport.

Context `{env : Env} `{codec : Codec}.

(** One call, one line. *)
Lemma convert_image_line self p w b w' :
  convert_image self p w = (Ret b, w') →
  ∃ line, stdout w' = stdout w ++ [line] ∧ reports p b line.
Proof.
  intros H. apply convert_image_inv in H as (r0 & w1 & Hmk & Hcases).
  apply Path_mkdir_new_dirs in Hmk as [Ho1 _].
  destruct Hcases as [([= ->] & _ & data & bytes & _ & _ & _ & Ho & _)
                     |(e & [([= ->] & Hex & Ho)|[([=] & _)|(? & ? & [=] & _)]] & _)].
  - exists (success_line p). split; [by rewrite Ho, Ho1|done].
  - exists (failure_line p e). split; [by rewrite Ho, Ho1|]. simpl. eauto.
Qed.

Lemma convert_each_lines self images w outcomes w' :
  convert_each self images w = (Ret outcomes, w') →
  ∃ lines, stdout w' = stdout w ++ lines ∧ Forall3 reports images outcomes lines.
Proof.
  revert w outcomes w'.
  induction images as [|p images IH]; intros w outcomes w' H; simpl in H.
  - step_in H. exists []. split; [by rewrite app_nil_r|constructor].
  - step_in H; [|done]. step_in H; [|done]. step_in H.
    apply convert_image_line in Hrun as (line & Ho & Hline).
    apply IH in Hrun0 as (lines & Ho' & Hlines).
    exists (line :: lines). split; [|by constructor].
    rewrite Ho', Ho, <- app_assoc. done.
Qed.

(** X7. What a batch prints: when [convert_all] returns from a non-empty
    list of images it has printed the five header lines and then exactly one
    line per image, in order, the success line for a file that converted and
    a failure line naming the file and the error for one that did not; and
    [converted] counts the success lines. *)
Theorem convert_all_report (self : ImageConverter) (w w1 w' : World)
    (images : list Path) (st : ConversionStats) :
  find_images self w = (Ret images, w1) →
  images ≠ [] →
  convert_all self w = (Ret st, w') →
  ∃ outcomes lines,
    stdout w' = stdout w ++ header_lines self images ++ lines ∧
    Forall3 reports images outcomes lines ∧
    length lines = length images ∧
    converted st = count true outcomes ∧
    failed st = count false outcomes.
Proof.
  intros Hfind Hne Hall. unfold convert_all in Hall.
  rewrite (bind_ret_run _ _ _ _ _ Hfind) in Hall.
  apply find_images_inv in Hfind as (_ & _ & _ & Ho1 & _).
  destruct images as [|p images]; [done|]. clear Hne.
  do 5 printed Hall.
  match type of Hall with bind _ _ ?v = _ => set (w2 := v) in * end.
  unfold bind in Hall. rewrite convert_loop_each in Hall.
  destruct (convert_each self (p :: images) w2) as [[bs|e] w3] eqn:Heach; [|done].
  unfold ret in Hall. simplify_eq.
  apply convert_each_lines in Heach as (lines & Ho & Hlines).
  exists bs, lines. split; [|split; [done|split; [|done]]].
  - rewrite Ho. unfold w2. simpl. rewrite Ho1, <- !app_assoc. done.
  - apply Forall3_length_lr in Hlines. done.
Qed.

(** X11. The counters stay within bounds: in the statistics [convert_all]
    returns, [converted] and [failed] each lie between 0 and [total], and
    every file converted means no file failed. *)
Theorem convert_all_bounds (self : ImageConverter) (w w' : World)
    (st : ConversionStats) :
  convert_all self w = (Ret st, w') →
  0 ≤ converted st ≤ total st ∧ 0 ≤ failed st ≤ total st ∧
  (converted st = total st ↔ failed st = 0).
Proof.
  intros H. apply convert_all_stats in H as (Htot & Hc & Hf). lia.
Qed.

End BatchReport.

(** ** The folders the converter settles on *)

Section Folders.

Context `{env : Env} `{codec : Codec}.

Lemma parent_joinpath (d : Path) (n : string) :
  is_root (joinpath d n) = false → parent (joinpath d n) = d.
Proof. unfold parent, joinpath. intros ->. apply removelast_last. Qed.

(** X9. The output folder [__init__] settles on.  An output folder that is
    given and not empty is taken as it is; one that is absent or empty is
    replaced by the folder named [webp] beside the input folder, under the
    same parent.  When the input folder is itself named [webp], that default
    is the input folder. *)
Theorem ImageConverter_init_folders (input : string) (output : option string)
    (q : Z) (w w' : World) (self : ImageConverter) :
  ImageConverter_init input output q w = (Ret self, w') →
  input_folder self = Path_of_string input ∧
  stat (input_folder self) w = Some Dir ∧
  (∀ o, output = Some o → o ≠ "" → output_folder self = Path_of_string o) ∧
  (output = None ∨ output = Some "" →
   output_folder self = joinpath (parent (input_folder self)) "webp" ∧
   parent (output_folder self) = parent (input_folder self) ∧
   name (output_folder self) = "webp" ∧
   (name (input_folder self) = "webp" → output_folder self = input_folder self)).
Proof.
  intros H. apply ImageConverter_init_inv in H as (_ & H).
  destruct H as [(? & _ & [=])|[(_ & _ & [=])|[(? & _ & _ & _ & [=])
                |[(_ & _ & _ & [=])|(_ & _ & Hdir & [= ->])]]]].
  simpl. split; [done|]. split; [done|]. unfold chosen_output. split.
  - intros o -> Ho. apply String.eqb_neq in Ho. by rewrite Ho.
  - intros Hout.
    assert (Hdef : match output with
                   | Some o => if String.eqb o ""
                               then joinpath (parent (Path_of_string input)) "webp"
                               else Path_of_string o
                   | None => joinpath (parent (Path_of_string input)) "webp"
                   end = joinpath (parent (Path_of_string input)) "webp")
      by (destruct Hout as [-> | ->]; done).
    rewrite Hdef. clear Hdef.
    assert (Hroot : is_root (joinpath (parent (Path_of_string input)) "webp") = false)
      by (by apply is_root_joinpath).
    split; [done|]. split; [by apply parent_joinpath|].
    split; [by apply name_joinpath|].
    unfold name, parent, joinpath.
    destruct (is_root (Path_of_string input)) eqn:Hr; [done|].
    intros Hlast.
    assert (Hn : Path_of_string input ≠ []) by (intros Hnil; by rewrite Hnil in Hlast).
    rewrite <- Hlast. symmetry. by apply app_removelast_last.
Qed.

End Folders.

(** ** A batch that must succeed, and running it again *)

Section BatchSuccess.

Context `{env : Env} `{codec : Codec}.

Lemma last_writer_Some self images q p :
  last_writer self images q = Some p → p ∈ images ∧ output_path self p = q.
Proof.
  induction images as [|p0 images IH]; simpl; [done|].
  destruct (last_writer self images q) as [p1|].
  - intros [= ->]. destruct (IH eq_refl) as [Hin Hout]. split; [by right|done].
  - case_bool_decide as Hq; [|done]. intros [= <-]. split; [by left|done].
Qed.

Lemma last_writer_None self images q :
  last_writer self images q = None → ∀ p, p ∈ images → q ≠ output_path self p.
Proof.
  induction images as [|p0 images IH]; simpl; [by intros _ p Hp; inversion Hp|].
  destruct (last_writer self images q) as [p1|]; [done|].
  case_bool_decide as Hq; [done|]. intros _ p Hp.
  apply elem_of_cons in Hp as [->|Hp]; [congruence|by apply IH].
Qed.

Lemma count_replicate_true (n : nat) :
  count true (replicate n true) = Z.of_nat n ∧ count false (replicate n true) = 0.
Proof.
  induction n as [|n [IH1 IH2]]; [done|]. simpl replicate.
  rewrite !count_cons, IH1, IH2. simpl. lia.
Qed.

(** With the folder in place, a run of conversions changes the tree at
    output paths only. *)
Lemma convert_each_in_place self images w r w' :
  stat (output_folder self) w = Some Dir →
  convert_each self images w = (r, w') →
  ∀ q, (∀ p, p ∈ images → q ≠ output_path self p) → fs w' !! q = fs w !! q.
Proof.
  revert w r w'. induction images as [|p images IH]; intros w r w' Hdir H q Hq;
    simpl in H.
  - by step_in H.
  - assert (Hqp : q ≠ output_path self p) by (apply Hq; by left).
    assert (Hrest : ∀ p', p' ∈ images → q ≠ output_path self p')
      by (intros p' Hp'; apply Hq; by right).
    step_in H.
    + pose proof (convert_image_keeps_folder _ _ _ _ _ Hdir Hrun) as Hdir1.
      rewrite <- (convert_image_in_place _ _ _ _ _ Hdir Hrun q Hqp).
      step_in H; [step_in H|subst]; by apply (IH _ _ _ Hdir1 Hrun0).
    + subst. by apply (convert_image_in_place _ _ _ _ _ Hdir Hrun).
Qed.

(** A run of conversions that must all succeed, and what it leaves. *)
Lemma convert_each_runs self images w :
  sigint w = None →
  (∀ p, p ∈ images → untroubled self p) →
  creatable (output_folder self) w →
  (∀ p, p ∈ images → lower (suffix p) ∈ SUPPORTED_FORMATS) →
  (∀ p, p ∈ images → ∃ data bytes, stat p w = Some (File data) ∧
                                   spec_webp (quality self) data = inr bytes) →
  (∀ p, p ∈ images → stat (output_path self p) w ≠ Some Dir) →
  ∃ w', convert_each self images w = (Ret (replicate (length images) true), w') ∧
        sigint w' = None ∧
        (∀ q p, last_writer self images q = Some p →
                ∃ data bytes, stat p w = Some (File data) ∧
                              spec_webp (quality self) data = inr bytes ∧
                              stat q w' = Some (File bytes)) ∧
        (∀ q, last_writer self images q = None →
              ∀ data, stat q w = Some (File data) ↔ stat q w' = Some (File data)) ∧
        (∀ q, stat q w = Some Dir → stat q w' = Some Dir) ∧
        (∀ q, stat q w' = Some Dir →
              stat q w = Some Dir ∨ q `prefix_of` output_folder self) ∧
        (images ≠ [] → stat (output_folder self) w' = Some Dir).
Proof.
  revert w. induction images as [|p images IH]; intros w Hs Hu Hc Hsuf Hval Hnd.
  - exists w. simpl. repeat split; try done. auto.
  - destruct (Hval p ltac:(left)) as (data & bytes & Hp & Hspec).
    destruct (convert_image_runs self p w data bytes Hs (Hu p ltac:(left)) Hc Hp Hspec
                (Hnd p ltac:(left)))
      as (w1 & Hrun & Hdir1 & Hout1 & _ & Hs1).
    destruct (convert_image_touches _ _ _ _ _ Hrun) as (_ & T2 & T3 & T4).
    destruct (IH w1) as (w' & Heach & Hs' & L1 & L2 & D1 & D2 & _).
    + done.
    + intros p' Hp'. apply Hu. by right.
    + intros q d Hpre Hq. apply (Hc q d Hpre). apply T3; [|done].
      intros ->. by apply (output_path_not_prefix self p).
    + intros p' Hp'. apply Hsuf. by right.
    + intros p' Hp'. destruct (Hval p' ltac:(by right)) as (d' & b' & Hd' & Hb').
      exists d', b'. split; [|done]. apply T3; [|done].
      apply output_path_ne_image. apply Hsuf. by right.
    + intros p' Hp' Hd. apply T4 in Hd as [Hd|Hpre].
      * by apply (Hnd p' ltac:(by right)).
      * by apply (output_path_not_prefix self p').
    + exists w'. split; [|split; [done|split; [|split; [|split; [|split]]]]].
      * simpl. rewrite (bind_ret_run _ _ _ _ _ Hrun).
        by rewrite (bind_ret_run _ _ _ _ _ Heach).
      * intros q p0. simpl.
        destruct (last_writer self images q) as [p1|] eqn:Hl.
        -- intros [= <-]. destruct (L1 q p1 Hl) as (d1 & b1 & Hd1 & Hb1 & Hq1).
           exists d1, b1. split; [|done].
           destruct (last_writer_Some _ _ _ _ Hl) as [Hin _].
           apply T3; [|done]. apply output_path_ne_image. apply Hsuf. by right.
        -- case_bool_decide as Hq; [|done]. intros [= <-]. subst q.
           exists data, bytes. split; [done|]. split; [done|]. by apply (L2 _ Hl).
      * intros q. simpl.
        destruct (last_writer self images q) as [p1|] eqn:Hl; [done|].
        case_bool_decide as Hq; [done|]. intros _ d.
        rewrite <- (L2 q Hl d). apply T3. congruence.
      * auto.
      * intros q Hq. apply D2 in Hq as [Hq|?]; [|by right]. by apply T4.
      * intros _. by apply D1.
Qed.

(** The same for [convert_all]. *)
Lemma convert_all_runs self w w1 images :
  find_images self w = (Ret images, w1) →
  sigint w = None →
  (∀ line, line ∈ announcement self images → printable line) →
  (∀ p, p ∈ images → untroubled self p) →
  creatable (output_folder self) w →
  (∀ p, p ∈ images → ∃ data bytes, stat p w = Some (File data) ∧
                                   spec_webp (quality self) data = inr bytes) →
  (∀ p, p ∈ images → stat (output_path self p) w ≠ Some Dir) →
  ∃ w', convert_all self w
        = (Ret (mkStats (Z.of_nat (length images)) (Z.of_nat (length images)) 0), w') ∧
        sigint w' = None ∧
        (∀ q p, last_writer self images q = Some p →
                ∃ data bytes, stat p w = Some (File data) ∧
                              spec_webp (quality self) data = inr bytes ∧
                              stat q w' = Some (File bytes)) ∧
        (∀ q, last_writer self images q = None →
              ∀ data, stat q w = Some (File data) ↔ stat q w' = Some (File data)) ∧
        (∀ q, stat q w = Some Dir → stat q w' = Some Dir) ∧
        (∀ q, stat q w' = Some Dir →
              stat q w = Some Dir ∨ q `prefix_of` output_folder self) ∧
        (images ≠ [] → stat (output_folder self) w' = Some Dir).
Proof.
  intros Hfind Hs Hpr Hu Hc Hval Hnd.
  assert (Hsuf : ∀ p, p ∈ images → lower (suffix p) ∈ SUPPORTED_FORMATS).
  { intros p Hp. apply find_images_props in Hfind as (Hmem & _).
    by apply Hmem in Hp as (_ & _ & ?). }
  assert (Hprint : Forall (λ line, ∀ v,
            print line v = (Ret tt, mkWorld (fs v) (stdout v ++ [line]) (sigint v)))
            (announcement self images)).
  { apply Forall_forall. intros line Hl v. destruct (Hpr line Hl) as [He Hf].
    by apply print_run. }
  unfold convert_all. rewrite (bind_ret_run _ _ _ _ _ Hfind).
  apply find_images_inv in Hfind as (_ & _ & Hf1 & _ & Hs1). specialize (Hs1 Hs).
  destruct images as [|p0 images].
  - apply Forall_cons in Hprint as [P1 _].
    rewrite (bind_ret_run _ _ _ _ _ (P1 w1)). unfold ret.
    match goal with |- context [(Ret _, ?v) = _] => set (w2 := v) end.
    assert (Hst : ∀ q, stat q w2 = stat q w) by (intros q; by apply stat_fs).
    exists w2. split; [done|]. split; [done|]. split; [done|]. split.
    { intros q _ d. by rewrite Hst. }
    split.
    { intros q. by rewrite Hst. }
    split; [|done].
    intros q. rewrite Hst. auto.
  - unfold announcement, header_lines in Hprint.
    apply Forall_cons in Hprint as [P1 Hprint].
    apply Forall_cons in Hprint as [P2 Hprint].
    apply Forall_cons in Hprint as [P3 Hprint].
    apply Forall_cons in Hprint as [P4 Hprint].
    apply Forall_cons in Hprint as [P5 _].
    rewrite (bind_ret_run _ _ _ _ _ (P1 _)), (bind_ret_run _ _ _ _ _ (P2 _)),
      (bind_ret_run _ _ _ _ _ (P3 _)), (bind_ret_run _ _ _ _ _ (P4 _)),
      (bind_ret_run _ _ _ _ _ (P5 _)).
    cbn [fs stdout sigint].
    match goal with |- context [bind (convert_loop _ _ _ _) _ ?v] => set (w2 := v) end.
    assert (Hf2 : fs w2 = fs w) by done.
    assert (Hst : ∀ q, stat q w2 = stat q w) by (intros q; by apply stat_fs).
    destruct (convert_each_runs self (p0 :: images) w2)
      as (w' & Heach & Hs' & L1 & L2 & D1 & D2 & F).
    + done.
    + done.
    + by apply (creatable_fs _ w).
    + done.
    + intros p Hp. rewrite Hst. by apply Hval.
    + intros p Hp. rewrite Hst. by apply Hnd.
    + exists w'. split.
      { destruct (count_replicate_true (length (p0 :: images))) as [E1 E2].
        unfold bind. by rewrite convert_loop_each, Heach, E1, E2. }
      split; [done|]. split.
      { intros q p Hl. destruct (L1 q p Hl) as (d & b & Hd & Hb & Hq).
        exists d, b. by rewrite <- Hst. }
      split.
      { intros q Hl d. rewrite <- Hst. by apply L2. }
      split.
      { intros q. rewrite <- Hst. apply D1. }
      split; [|done].
      intros q Hq. rewrite <- Hst. by apply D2.
Qed.

(** X13. A batch that must succeed.  When [find_images] has found the
    images, no interrupt is pending, standard output takes the lines printed
    before the loop, the conversion of each image found meets no fault, the
    output folder can be made, every image found decodes, normalises and
    encodes, and no directory stands at an output path, [convert_all] returns
    with every file converted and none failed; each output path then holds
    the WebP bytes of the last image, in batch order, that is written there,
    and every other regular file is as it was. *)
Theorem convert_all_succeeds (self : ImageConverter) (w w1 : World)
    (images : list Path) :
  find_images self w = (Ret images, w1) →
  sigint w = None →
  (∀ line, line ∈ announcement self images → printable line) →
  (∀ p, p ∈ images → untroubled self p) →
  creatable (output_folder self) w →
  (∀ p, p ∈ images → ∃ data bytes, stat p w = Some (File data) ∧
                                   spec_webp (quality self) data = inr bytes) →
  (∀ p, p ∈ images → stat (output_path self p) w ≠ Some Dir) →
  ∃ st w', convert_all self w = (Ret st, w') ∧
           total st = Z.of_nat (length images) ∧
           converted st = Z.of_nat (length images) ∧
           failed st = 0 ∧
           (∀ q p, last_writer self images q = Some p →
                   ∃ data bytes, stat p w = Some (File data) ∧
                                 spec_webp (quality self) data = inr bytes ∧
                                 stat q w' = Some (File bytes)) ∧
           (∀ q, last_writer self images q = None →
                 ∀ data, stat q w = Some (File data) ↔ stat q w' = Some (File data)).
Proof.
  intros Hfind Hs Hpr Hu Hc Hval Hnd.
  destruct (convert_all_runs self w w1 images Hfind Hs Hpr Hu Hc Hval Hnd)
    as (w' & Hall & _ & L1 & L2 & _).
  eexists _, w'. split; [exact Hall|]. simpl.
  split; [done|]. split; [done|]. split; [done|]. split; [exact L1|exact L2].
Qed.

End BatchSuccess.

(** In the calm environment the batch that must succeed can be run again. *)

Section BatchAgain.

Context `{codec : Codec}.

Existing Instance calm.

Lemma calm_printable line : printable line.
Proof. by split. Qed.

Lemma calm_untroubled self p : untroubled self p.
Proof. unfold untroubled, unhindered. repeat split. Qed.

(** X14. Running such a batch a second time changes nothing: the second
    [convert_all] returns the same statistics and leaves the file tree
    exactly as the first one left it.  Stated of the
    environment in which no call meets a fault ([calm]). *)
Theorem convert_all_twice (self : ImageConverter) (w w1 : World)
    (images : list Path) :
  find_images self w = (Ret images, w1) →
  sigint w = None →
  creatable (output_folder self) w →
  (∀ p, p ∈ images → ∃ data bytes, stat p w = Some (File data) ∧
                                   spec_webp (quality self) data = inr bytes) →
  (∀ p, p ∈ images → stat (output_path self p) w ≠ Some Dir) →
  ∃ st w' w'', convert_all self w = (Ret st, w') ∧
               convert_all self w' = (Ret st, w'') ∧
               fs w'' = fs w'.
Proof.
  intros Hfind Hs Hc Hval Hnd.
  destruct (convert_all_runs self w w1 images Hfind Hs
              (λ line _, calm_printable line) (λ p _, calm_untroubled self p)
              Hc Hval Hnd)
    as (w' & Hall & Hs' & L1 & L2 & D1 & D2 & F).
  pose proof (convert_all_images_kept _ _ _ _ Hall) as [Hkept _].
  assert (Hsuf : ∀ p, p ∈ images → lower (suffix p) ∈ SUPPORTED_FORMATS).
  { intros p Hp. pose proof Hfind as Hprops.
    apply find_images_props in Hprops as (Hmem & _).
    by apply Hmem in Hp as (_ & _ & ?). }
  assert (Hfind' : ∃ v, find_images self w' = (Ret images, v)).
  { pose proof Hfind as Hinv. apply find_images_inv in Hinv as (Hdir & _).
    destruct (find_images_outcome self w' (D1 _ Hdir))
      as [(images' & v & Hf')|[? _]]; [|done].
    exists v. rewrite Hf'. f_equal. f_equal.
    apply (find_images_same self w w' images images' w1 v); [|done|done].
    apply (convert_all_images_kept _ _ _ _ Hall). }
  destruct Hfind' as [v Hfind'].
  destruct (convert_all_runs self w' v images) as (w'' & Hall' & _ & L1' & _).
  - done.
  - done.
  - intros line _. apply calm_printable.
  - intros p _. apply calm_untroubled.
  - intros q d Hpre Hq. destruct (last_writer self images q) as [p|] eqn:Hl.
    + apply last_writer_Some in Hl as [_ <-].
      by apply (output_path_not_prefix self p).
    + apply (Hc q d Hpre). by apply (L2 q Hl).
  - intros p Hp. destruct (Hval p Hp) as (d & b & Hd & Hb).
    exists d, b. split; [|done]. apply Hkept; [by apply Hsuf|done].
  - intros p Hp Hd. apply D2 in Hd as [Hd|Hpre].
    + by apply (Hnd p Hp).
    + by apply (output_path_not_prefix self p).
  - eexists _, w', w''. split; [exact Hall|]. split; [exact Hall'|].
    apply map_eq. intros q.
    destruct (last_writer self images q) as [p|] eqn:Hl.
    + destruct (L1 q p Hl) as (d & b & Hd & Hb & Hq).
      destruct (L1' q p Hl) as (d' & b' & Hd' & Hb' & Hq').
      destruct (last_writer_Some _ _ _ _ Hl) as [Hin <-].
      rewrite stat_output_path in Hq, Hq'. rewrite Hq, Hq'.
      apply (Hkept p d (Hsuf p Hin)) in Hd. rewrite Hd in Hd'.
      injection Hd' as <-. rewrite Hb in Hb'. by injection Hb' as <-.
    + apply convert_all_inv in Hall'
        as (images2 & v1 & v2 & outcomes & Hfind2 & Hf2 & Heach & _).
      rewrite Hfind' in Hfind2. simplify_eq.
      pose proof (find_images_reads _ _ _ _ Hfind') as [Hf1 _].
      destruct images2 as [|p0 images2].
      * simpl in Heach. unfold ret in Heach. simplify_eq. congruence.
      * rewrite <- Hf1, <- Hf2.
        eapply (convert_each_in_place self (p0 :: images2) v2); [|exact Heach|].
        -- rewrite (stat_fs _ v2 w'); [by apply F|congruence].
        -- by apply last_writer_None.
Qed.

End BatchAgain.

(** * The program run on the sample folders *)

Section Runs.

Existing Instance calm.

(** The mixed folder: four files are found, three convert and the corrupt
    one fails. *)
Lemma convert_all_counts_witness :
  find_images conv_imgs w_mixed
    = (Ret [["imgs"; "C.JPEG"]; ["imgs"; "a.png"]; ["imgs"; "b.jpg"];
            ["imgs"; "bad.jpg"]], w_mixed) ∧
  ∃ st w', convert_all conv_imgs w_mixed = (Ret st, w') ∧
           total st = 4 ∧ total st = converted st + failed st.
Proof.
  assert (Hfind : find_images conv_imgs w_mixed
    = (Ret [["imgs"; "C.JPEG"]; ["imgs"; "a.png"]; ["imgs"; "b.jpg"];
            ["imgs"; "bad.jpg"]], w_mixed)) by (vm_compute; reflexivity).
  split; [exact Hfind|].
  destruct (convert_all_counts conv_imgs w_mixed w_mixed _ Hfind)
    as [(st & w' & w2 & bs & Hall & _ & _ & _ & _ & Htot & _ & _ & Hsum)|[Hs _]].
  - discriminate.
  - exists st, w'. split; [exact Hall|]. split; [exact Htot|exact Hsum].
  - exfalso. apply Hs. reflexivity.
Defined.

(** With Ctrl-C arriving at the first call, [convert_image] raises instead
    of returning a flag. *)
Lemma convert_image_interrupt_counterexample :
  convert_image conv_imgs a_png w_interrupted
    = (Raise KeyboardInterrupt, mkWorld (fs w_mixed) [] None) ∧
  ¬ ∃ b w', convert_image conv_imgs a_png w_interrupted = (Ret b, w').
Proof.
  assert (H : convert_image conv_imgs a_png w_interrupted
              = (Raise KeyboardInterrupt, mkWorld (fs w_mixed) [] None))
    by (vm_compute; reflexivity).
  split; [exact H|]. intros (b & w' & Hb). rewrite H in Hb. discriminate.
Qed.

(** On a standard output of ASCII encoding neither the success line nor the
    failure line can be printed: the image is converted and written, and the
    [UnicodeEncodeError] of the failure line comes out of [convert_image]. *)
Example convert_image_unprintable_line :
  ∃ msg w', convert_image (env := ascii_stdout) conv_imgs a_png w_mixed
              = (Raise (UnicodeEncodeError msg), w') ∧
            stat a_webp w' = Some (File (bytes_of "WEBP RGBA aa q80")) ∧
            stdout w' = [].
Proof. eexists _, _. split; [vm_compute; reflexivity|]. split; vm_compute; reflexivity. Qed.



(** The success line is refused after the output has been written:
    [convert_image] returns false and the output is there, complete. *)
Example convert_image_false_with_output :
  ∃ w', convert_image (env := stalled_stdout) conv_imgs a_png w_mixed = (Ret false, w') ∧
        stat a_webp w_mixed = None ∧
        stat a_webp w' = Some (File (bytes_of "WEBP RGBA aa q80")).
Proof. eexists. split; [vm_compute; reflexivity|]. split; vm_compute; reflexivity. Qed.

(** The disk fills while the output is written over that of an earlier run:
    [convert_image] returns false and the output path holds the first four
    bytes of the encoding. *)
Example convert_image_partial_output :
  ∃ w', convert_image (env := disk_full) conv_webp ["photos"; "webp"; "a.png"] w_webp_folder
          = (Ret false, w') ∧
        stat ["photos"; "webp"; "a.webp"] w' = Some (File (bytes_of "WEBP")).
Proof. eexists. split; [vm_compute; reflexivity|]. vm_compute. reflexivity. Qed.

(** A probe that is denied: the constructor fails with an error that is
    neither of the two it raises itself. *)
Lemma ImageConverter_init_failures_counterexample :
  ImageConverter_init (env := locked_vault) "vault/imgs" None 80 w_mixed
    = (Raise (PermissionError "Permission denied"), w_mixed) ∧
  (∀ msg, PermissionError "Permission denied" ≠ FileNotFoundError msg) ∧
  (∀ msg, PermissionError "Permission denied" ≠ NotADirectoryError msg).
Proof. split; [vm_compute; reflexivity|]. split; intros msg; discriminate. Qed.

(** The palette image of the mixed folder is written as RGBA. *)
Lemma convert_image_normalizes_witness :
  ∃ w' bytes, convert_image conv_imgs a_png w_mixed = (Ret true, w') ∧
              fs w' !! a_webp = Some (File bytes).
Proof.
  set (w' := snd (convert_image conv_imgs a_png w_mixed)).
  assert (H : convert_image conv_imgs a_png w_mixed = (Ret true, w'))
    by (vm_compute; reflexivity).
  destruct (convert_image_normalizes conv_imgs a_png w_mixed w' H)
    as (data & m & px & img & bytes & _ & _ & _ & _ & _ & _ & Hout).
  exists w', bytes. split; [exact H|exact Hout].
Defined.

Example palette_written_as_RGBA :
  fs (snd (convert_image conv_imgs a_png w_mixed)) !! a_webp
  = Some (File (bytes_of "WEBP RGBA aa q80")).
Proof. vm_compute. reflexivity. Qed.

Lemma find_images_exact_witness :
  stat (input_folder conv_imgs) w_mixed = Some Dir ∧
  ∃ images w', find_images conv_imgs w_mixed = (Ret images, w') ∧
               StronglySorted str_le images ∧
               ["imgs"; "notes.txt"] ∉ images.
Proof.
  assert (Hdir : stat (input_folder conv_imgs) w_mixed = Some Dir)
    by (vm_compute; reflexivity).
  split; [exact Hdir|].
  destruct (find_images_exact conv_imgs w_mixed Hdir)
    as [(images & w' & H & _ & _ & _ & _ & Hsorted & Hother & _)|[Hs _]].
  - exists images, w'. split; [exact H|]. split; [exact Hsorted|].
    apply Hother. left. vm_compute. reflexivity.
  - exfalso. apply Hs. reflexivity.
Defined.

Example mixed_folder_discovered :
  fst (find_images conv_imgs w_mixed)
  = Ret [["imgs"; "C.JPEG"]; ["imgs"; "a.png"]; ["imgs"; "b.jpg"]; ["imgs"; "bad.jpg"]].
Proof. vm_compute. reflexivity. Qed.



(** Nothing but corrupt images: both fail, and the output folder is there
    all the same, empty. *)
Lemma output_folder_after_batch_witness :
  ∃ st w', convert_all conv_imgs w_corrupt = (Ret st, w') ∧
           stat ["webp"] w_corrupt = None ∧
           stat ["webp"] w' = Some Dir ∧
           converted st = 0 ∧ failed st = 2.
Proof.
  set (r := convert_all conv_imgs w_corrupt).
  assert (Hall : convert_all conv_imgs w_corrupt = (Ret (mkStats 2 0 2), snd r))
    by (vm_compute; reflexivity).
  assert (Hfind : find_images conv_imgs w_corrupt
                  = (Ret [["imgs"; "bad.jpg"]; ["imgs"; "worse.png"]], w_corrupt))
    by (vm_compute; reflexivity).
  assert (Hc : creatable (output_folder conv_imgs) w_corrupt).
  { intros q data [k Hk]. simpl in Hk.
    destruct q as [|x [|y q]]; [done| |done].
    injection Hk as <- _. vm_compute. discriminate. }
  assert (Hu : unhindered (output_folder conv_imgs))
    by (intros q v _; split; reflexivity).
  destruct (output_folder_after_batch conv_imgs w_corrupt w_corrupt (snd r) _ _
              Hfind ltac:(discriminate) Hall) as (_ & Hdir & _).
  exists (mkStats 2 0 2), (snd r).
  split; [exact Hall|]. split; [vm_compute; reflexivity|].
  split; [exact (Hdir Hc Hu)|]. split; reflexivity.
Defined.

(** A regular file stands where the output folder would go: the one image is
    discovered and fails, and after the batch there is still no output
    folder. *)
Lemma output_folder_after_batch_counterexample :
  find_images conv_imgs w_blocked = (Ret [a_png], w_blocked) ∧
  ∃ w', convert_all conv_imgs w_blocked = (Ret (mkStats 1 0 1), w') ∧
        stat (output_folder conv_imgs) w' = Some (File (bytes_of "not a folder")) ∧
        stat (output_folder conv_imgs) w' ≠ Some Dir.
Proof.
  split; [vm_compute; reflexivity|].
  eexists. split; [vm_compute; reflexivity|].
  split; [vm_compute; reflexivity|]. vm_compute. discriminate.
Qed.

(** The exit status of [main] on the sample folders. *)
Example main_one_failure_exits_1 :
  fst (run_main (mkArgs "imgs" None 80) w_mixed) = 1.
Proof. vm_compute. reflexivity. Qed.

Example main_no_files_exits_0 :
  fst (run_main (mkArgs "imgs" None 80) w_empty) = 0.
Proof. vm_compute. reflexivity. Qed.

Example main_all_converted_exits_0 :
  fst (run_main (mkArgs "imgs/" (Some "out/webp") 100) w_twins) = 0.
Proof. vm_compute. reflexivity. Qed.

Example main_quality_out_of_range :
  run_main (mkArgs "imgs" None 101) w_mixed
  = (1, mkWorld (fs w_mixed) ["Error: Quality must be between 0 and 100"] None).
Proof. vm_compute. reflexivity. Qed.

Example main_missing_folder :
  run_main (mkArgs "nowhere" None 80) w_mixed
  = (1, mkWorld (fs w_mixed) ["Error: Input folder does not exist: nowhere"] None).
Proof. vm_compute. reflexivity. Qed.

Example main_interrupted_exits_1 :
  fst (run_main (mkArgs "imgs" None 80) w_interrupted) = 1.
Proof. vm_compute. reflexivity. Qed.

End Runs.

(** ** The further properties on the sample folders *)

Section FurtherRuns.

Existing Instance calm.

Local Ltac computed := vm_compute; reflexivity.

(** No regular file stands at [webp] or above it. *)
Local Ltac webp_creatable :=
  let q := fresh "q" in
  let Hk := fresh "Hk" in
  intros q ? [? Hk]; simpl in Hk;
  destruct q as [|? [|? ?]]; [done| |done];
  injection Hk as <- _; vm_compute; discriminate.

(** A statement about each of two listed images. *)
Local Ltac each_image Hp :=
  rewrite !elem_of_cons, elem_of_nil in Hp;
  destruct Hp as [Hp|[Hp|[]]]; subst.


(** The input folder that is also the output folder: the image is as it was
    after the batch. *)
Lemma convert_all_keeps_images_witness :
  ∃ w', convert_all conv_webp w_webp_folder = (Ret (mkStats 1 1 0), w') ∧
        stat ["photos"; "webp"; "a.png"] w' = Some (File (bytes_of "RGB:aa")).
Proof.
  set (w' := snd (convert_all conv_webp w_webp_folder)).
  assert (H : convert_all conv_webp w_webp_folder = (Ret (mkStats 1 1 0), w'))
    by computed.
  destruct (convert_all_keeps_images conv_webp w_webp_folder w' _ H) as [Hk _].
  exists w'. split; [exact H|].
  apply Hk; [|computed].
  apply elem_of_SUPPORTED_FORMATS. right. right. computed.
Defined.

(** The mixed folder is discovered alike before and after its batch. *)
Lemma find_images_after_batch_witness :
  ∃ images' v',
    find_images conv_imgs (snd (convert_all conv_imgs w_mixed)) = (Ret images', v') ∧
    images' = [["imgs"; "C.JPEG"]; ["imgs"; "a.png"]; ["imgs"; "b.jpg"];
               ["imgs"; "bad.jpg"]].
Proof.
  set (r := convert_all conv_imgs w_mixed).
  set (r' := find_images conv_imgs (snd r)).
  assert (Hfind : find_images conv_imgs w_mixed
                  = (Ret [["imgs"; "C.JPEG"]; ["imgs"; "a.png"]; ["imgs"; "b.jpg"];
                          ["imgs"; "bad.jpg"]], w_mixed)) by computed.
  assert (Hall : convert_all conv_imgs w_mixed = (fst r, snd r)) by computed.
  assert (Hfind' : find_images conv_imgs (snd r)
                   = (Ret (match fst r' with Ret l => l | Raise _ => [] end), snd r'))
    by computed.
  eexists _, (snd r'). split; [exact Hfind'|].
  exact (find_images_after_batch conv_imgs w_mixed (snd r) w_mixed (snd r') _ _ _
           Hfind Hall Hfind').
Defined.

(** The palette image of the mixed folder must convert. *)
Lemma convert_image_succeeds_witness :
  ∃ w', convert_image conv_imgs a_png w_mixed = (Ret true, w') ∧
        stat a_webp w' = Some (File (bytes_of "WEBP RGBA aa q80")).
Proof.
  assert (Hc : creatable (output_folder conv_imgs) w_mixed) by webp_creatable.
  assert (Hp : stat a_png w_mixed = Some (File (bytes_of "P:aa"))) by computed.
  assert (Hb : spec_webp (quality conv_imgs) (bytes_of "P:aa")
               = inr (bytes_of "WEBP RGBA aa q80")) by computed.
  assert (Hnd : stat (output_path conv_imgs a_png) w_mixed ≠ Some Dir)
    by (vm_compute; discriminate).
  destruct (convert_image_succeeds conv_imgs a_png w_mixed _ _ eq_refl
              (calm_untroubled conv_imgs a_png) Hc Hp Hb Hnd)
    as (w' & Hrun & _ & Hout & _).
  exists w'. split; [exact Hrun|exact Hout].
Defined.

(** The mixed folder: five header lines, then one line for each of the four
    files. *)
Lemma convert_all_report_witness :
  ∃ st w' lines,
    convert_all conv_imgs w_mixed = (Ret st, w') ∧
    stdout w' = header_lines conv_imgs
                  [["imgs"; "C.JPEG"]; ["imgs"; "a.png"]; ["imgs"; "b.jpg"];
                   ["imgs"; "bad.jpg"]] ++ lines ∧
    length lines = 4%nat.
Proof.
  set (r := convert_all conv_imgs w_mixed).
  assert (Hfind : find_images conv_imgs w_mixed
                  = (Ret [["imgs"; "C.JPEG"]; ["imgs"; "a.png"]; ["imgs"; "b.jpg"];
                          ["imgs"; "bad.jpg"]], w_mixed)) by computed.
  assert (Hall : convert_all conv_imgs w_mixed = (Ret (mkStats 4 3 1), snd r))
    by computed.
  destruct (convert_all_report conv_imgs w_mixed w_mixed (snd r) _ _ Hfind
              ltac:(discriminate) Hall) as (outcomes & lines & Hout & _ & Hlen & _).
  exists (mkStats 4 3 1), (snd r), lines.
  split; [exact Hall|]. split; [exact Hout|exact Hlen].
Defined.

(** An input folder named [webp] and no output folder given: the converter
    writes into its input folder. *)
Lemma ImageConverter_init_folders_witness :
  ImageConverter_init "photos/webp" None 80 w_webp_folder
    = (Ret conv_webp, w_webp_folder) ∧
  output_folder conv_webp = input_folder conv_webp.
Proof.
  assert (H : ImageConverter_init "photos/webp" None 80 w_webp_folder
              = (Ret conv_webp, w_webp_folder)) by computed.
  split; [exact H|].
  destruct (ImageConverter_init_folders _ _ _ _ _ _ H) as (_ & _ & _ & Hdef).
  destruct (Hdef (or_introl eq_refl)) as (_ & _ & _ & Hsame).
  apply Hsame. computed.
Defined.

(** The output folder is there already: the failed conversion leaves the
    image where it was. *)
Lemma convert_image_existing_folder_witness :
  ∃ w', convert_image conv_imgs a_png w_stale = (Ret false, w') ∧
        fs w' !! a_png = Some (File (bytes_of "RGB:far too large")).
Proof.
  set (w' := snd (convert_image conv_imgs a_png w_stale)).
  assert (H : convert_image conv_imgs a_png w_stale = (Ret false, w')) by computed.
  assert (Hdir : stat (output_folder conv_imgs) w_stale = Some Dir) by computed.
  assert (Hne : a_png ≠ output_path conv_imgs a_png)
    by (intros E; vm_compute in E; discriminate).
  exists w'. split; [exact H|].
  rewrite (convert_image_existing_folder conv_imgs a_png w_stale w' _ Hdir H a_png Hne).
  computed.
Defined.

(** The mixed folder: three converted and one failed, of four. *)
Lemma convert_all_bounds_witness :
  ∃ st w', convert_all conv_imgs w_mixed = (Ret st, w') ∧
           0 ≤ converted st ≤ total st ∧ 0 ≤ failed st ≤ total st.
Proof.
  set (r := convert_all conv_imgs w_mixed).
  assert (Hall : convert_all conv_imgs w_mixed = (Ret (mkStats 4 3 1), snd r))
    by computed.
  destruct (convert_all_bounds conv_imgs w_mixed (snd r) _ Hall) as (Hc & Hf & _).
  exists (mkStats 4 3 1), (snd r). split; [exact Hall|]. split; [exact Hc|exact Hf].
Defined.

(** The palette image converted: the folder is made and one line printed. *)
Lemma convert_image_success_witness :
  ∃ w', convert_image conv_imgs a_png w_mixed = (Ret true, w') ∧
        stat ["webp"] w_mixed = None ∧
        stat ["webp"] w' = Some Dir ∧
        stdout w' = [success_line a_png].
Proof.
  set (w' := snd (convert_image conv_imgs a_png w_mixed)).
  assert (H : convert_image conv_imgs a_png w_mixed = (Ret true, w')) by computed.
  destruct (convert_image_success conv_imgs a_png w_mixed w' H) as (Hdir & _ & _ & Hout).
  exists w'. split; [exact H|]. split; [computed|]. split; [exact Hdir|exact Hout].
Defined.

(** The two images of one stem both convert, and the output is the PNG's. *)
Lemma convert_all_succeeds_witness :
  ∃ st w', convert_all conv_imgs w_twins = (Ret st, w') ∧
           converted st = 2 ∧ failed st = 0 ∧
           stat a_webp w' = Some (File (bytes_of "WEBP RGBA png q80")).
Proof.
  assert (Hfind : find_images conv_imgs w_twins = (Ret [a_jpg; a_png], w_twins))
    by computed.
  assert (Hc : creatable (output_folder conv_imgs) w_twins) by webp_creatable.
  assert (Hval : ∀ p, p ∈ [a_jpg; a_png] →
            ∃ data bytes, stat p w_twins = Some (File data) ∧
                          spec_webp (quality conv_imgs) data = inr bytes).
  { intros p Hp. each_image Hp; eexists _, _; (split; [computed|computed]). }
  assert (Hnd : ∀ p, p ∈ [a_jpg; a_png] →
            stat (output_path conv_imgs p) w_twins ≠ Some Dir).
  { intros p Hp. each_image Hp; vm_compute; discriminate. }
  destruct (convert_all_succeeds conv_imgs w_twins w_twins _ Hfind eq_refl
              (λ line _, calm_printable line) (λ p _, calm_untroubled conv_imgs p)
              Hc Hval Hnd)
    as (st & w' & Hall & _ & Hconv & Hfail & L1 & _).
  exists st, w'. split; [exact Hall|]. split; [exact Hconv|]. split; [exact Hfail|].
  destruct (L1 a_webp a_png ltac:(computed)) as (data & bytes & Hd & Hb & Hq).
  vm_compute in Hd. injection Hd as <-.
  vm_compute in Hb. injection Hb as <-.
  exact Hq.
Defined.

(** The same batch run twice. *)
Lemma convert_all_twice_witness :
  find_images conv_imgs w_twins = (Ret [a_jpg; a_png], w_twins) ∧
  ∃ st w' w'', convert_all conv_imgs w_twins = (Ret st, w') ∧
               convert_all conv_imgs w' = (Ret st, w'') ∧
               fs w'' = fs w'.
Proof.
  assert (Hfind : find_images conv_imgs w_twins = (Ret [a_jpg; a_png], w_twins))
    by computed.
  split; [exact Hfind|].
  assert (Hc : creatable (output_folder conv_imgs) w_twins) by webp_creatable.
  assert (Hval : ∀ p, p ∈ [a_jpg; a_png] →
            ∃ data bytes, stat p w_twins = Some (File data) ∧
                          spec_webp (quality conv_imgs) data = inr bytes).
  { intros p Hp. each_image Hp; eexists _, _; (split; [computed|computed]). }
  assert (Hnd : ∀ p, p ∈ [a_jpg; a_png] →
            stat (output_path conv_imgs p) w_twins ≠ Some Dir).
  { intros p Hp. each_image Hp; vm_compute; discriminate. }
  exact (convert_all_twice conv_imgs w_twins w_twins _ Hfind eq_refl Hc Hval Hnd).
Defined.

End FurtherRuns.
